(** * Secure ledger of the Smart Traffic IoT system

    A shallow embedding of [backend.py] (the [AESCipher], [Block] and
    [Blockchain] classes and the choice of the route), of the session
    script [app.py] (driver response, dispatch of a transaction, mining,
    and the widgets of the ledger and rejected tabs) and of the plates,
    phone numbers and e-mail addresses of [generate_dataset.py], with the
    properties of the ledger specification stated over it, followed by
    further properties of the same code.

    The library calls of the program are modelled as well, so that its
    functions compute here what they compute in Python: [bytes.hex] and
    [bytes.fromhex] ([Hex]), UTF-8 ([Utf8]), [hashlib.sha256] ([Sha256]),
    [json.dumps] and [json.loads] ([Json]) and AES-GCM ([AesGcm]).  The
    program reaches the cipher through the interface [Cipher.AEAD], of
    which AES-GCM is the instance.

    Conventions.
    - A Python [str] is a Rocq [string]; its characters stand for the code
      points U+0000..U+00FF.  [bytes] are [list byte].
    - Python integers are [Z]; the words of SHA-256 and the bytes and
      blocks of AES-GCM are [N] with the wrap-around written out.
    - A call that can raise returns [Result]: [Ok v] or [Raise e].
    - The clock ([datetime.utcnow().isoformat()]), the random source
      ([os.urandom]) and the process environment ([os.getenv]) are inputs.
    - Floating point arithmetic is outside the embedding.  A finite
      floating point number that the program only compares is the
      rational number it denotes. *)

From Stdlib Require Import ZArith NArith QArith List Lia.
From Stdlib Require Import Strings.String Strings.Ascii Strings.Byte.
From Stdlib Require Import DecimalString DecimalN DecimalZ.
From stdpp Require Import base option list strings gmap.

Local Open Scope string_scope.
Local Open Scope list_scope.

(* ===================================================================== *)
(** ** Exceptions and results *)
(* ===================================================================== *)

(** The exceptions that the modelled code and the library calls it makes
    can raise.  [InvalidTag] is [cryptography.exceptions.InvalidTag]; it
    carries no message. *)
Inductive Exn : Type :=
  | ValueError (msg : string)
  | IndexError (msg : string)
  | InvalidTag
  | UnicodeDecodeError
  | JSONDecodeError.

Inductive Result (A : Type) : Type :=
  | Ok (a : A)
  | Raise (e : Exn).
Arguments Ok {A} a.
Arguments Raise {A} e.

Definition bind {A B : Type} (r : Result A) (k : A -> Result B) : Result B :=
  match r with
  | Ok a => k a
  | Raise e => Raise e
  end.

Notation "'let*' x ':=' r 'in' k" := (bind r (fun x => k))
  (at level 10, x pattern, r at level 100, k at level 200).


(* ===================================================================== *)
(** ** Hexadecimal text: [bytes.hex] and [bytes.fromhex] *)
(* ===================================================================== *)

Module Hex.

(** One lowercase hexadecimal digit, as [bytes.hex] prints it. *)
Definition digit (n : N) : ascii :=
  match n with
  | 0 => "0" | 1 => "1" | 2 => "2" | 3 => "3" | 4 => "4" | 5 => "5"
  | 6 => "6" | 7 => "7" | 8 => "8" | 9 => "9" | 10 => "a" | 11 => "b"
  | 12 => "c" | 13 => "d" | 14 => "e" | _ => "f"
  end%N%char.

(** Value of a hexadecimal digit in either case; [None] for any other
    character. *)
Definition value (c : ascii) : option N :=
  let n := N_of_ascii c in
  if (48 <=? n)%N && (n <=? 57)%N then Some (n - 48)%N
  else if (97 <=? n)%N && (n <=? 102)%N then Some (n - 87)%N
  else if (65 <=? n)%N && (n <=? 70)%N then Some (n - 55)%N
  else None.

(** [Py_ISSPACE]: tab, line feed, vertical tab, form feed, carriage
    return and space. *)
Definition is_space (c : ascii) : bool :=
  let n := N_of_ascii c in
  ((9 <=? n)%N && (n <=? 13)%N) || (n =? 32)%N.

Definition byte_of_N (n : N) : byte :=
  match Byte.of_N n with Some b => b | None => x00 end.

Fixpoint hex (bs : list byte) : string :=
  match bs with
  | [] => EmptyString
  | b :: bs' =>
      let n := Byte.to_N b in
      String (digit (n / 16)) (String (digit (n mod 16)) (hex bs'))
  end.

Definition string_of_N (n : N) : string :=
  NilZero.string_of_uint (N.to_uint n).

Definition fromhex_error (pos : N) : Exn :=
  ValueError
    ("non-hexadecimal number found in fromhex() arg at position "
       ++ string_of_N pos).

(** [bytes.fromhex]: white space is skipped before each pair of digits;
    the two digits of a pair are adjacent. *)
Fixpoint fromhex_at (pos : N) (s : string) : Result (list byte) :=
  match s with
  | EmptyString => Ok []
  | String c s1 =>
      if is_space c then fromhex_at (pos + 1) s1
      else
        match value c with
        | None => Raise (fromhex_error pos)
        | Some hi =>
            match s1 with
            | EmptyString => Raise (fromhex_error (pos + 1))
            | String d s2 =>
                match value d with
                | None => Raise (fromhex_error (pos + 1))
                | Some lo =>
                    let* rest := fromhex_at (pos + 2) s2 in
                    Ok (byte_of_N (16 * hi + lo) :: rest)
                end
            end
        end
  end.

(** The position of the first character that is not ASCII. *)
Fixpoint first_non_ascii (pos : N) (s : string) : option N :=
  match s with
  | EmptyString => None
  | String c s' =>
      if (128 <=? N_of_ascii c)%N then Some pos
      else first_non_ascii (pos + 1) s'
  end.

(** A string with a character outside ASCII is refused at that character,
    before any digit is read. *)
Definition fromhex (s : string) : Result (list byte) :=
  match first_non_ascii 0 s with
  | Some pos => Raise (fromhex_error pos)
  | None => fromhex_at 0 s
  end.

End Hex.

(* ===================================================================== *)
(** ** Byte strings *)
(* ===================================================================== *)

Module Bytes.

Definition xor_byte (a b : byte) : byte :=
  Hex.byte_of_N (N.lxor (Byte.to_N a) (Byte.to_N b)).

(** The byte with only bit [j] set, for [j] below 8. *)
Definition bit_mask (j : N) : byte := Hex.byte_of_N (2 ^ j).

(** [bs] with bit [j] of its byte number [i] flipped. *)
Definition flip_bit (i : nat) (j : N) (bs : list byte) : list byte :=
  match bs !! i with
  | Some b => <[i := xor_byte b (bit_mask j)]> bs
  | None => bs
  end.

Fixpoint eqb (a b : list byte) : bool :=
  match a, b with
  | [], [] => true
  | x :: a', y :: b' => Byte.eqb x y && eqb a' b'
  | _, _ => false
  end.

End Bytes.

(* ===================================================================== *)
(** ** UTF-8: [str.encode] and [bytes.decode] *)
(* ===================================================================== *)

Module Utf8.

Local Open Scope N_scope.

(** A code point below U+0080 is one byte; one in U+0080..U+00FF is a
    lead byte [0xC2] or [0xC3] and one continuation byte. *)
Definition encode_char (c : ascii) : list byte :=
  let n := N_of_ascii c in
  if n <? 128 then [Hex.byte_of_N n]
  else [Hex.byte_of_N (192 + n / 64); Hex.byte_of_N (128 + n mod 64)].

Fixpoint encode (s : string) : list byte :=
  match s with
  | EmptyString => []
  | String c s' => encode_char c ++ encode s'
  end.

(** [bytes.decode("utf-8")].  Ill-formed input raises
    [UnicodeDecodeError]; so does, in this embedding, a sequence that
    encodes a code point above U+00FF, which a [string] cannot hold. *)
Fixpoint decode (bs : list byte) : Result string :=
  match bs with
  | [] => Ok EmptyString
  | b :: bs1 =>
      let n := Byte.to_N b in
      if n <? 128 then
        let* s := decode bs1 in Ok (String (ascii_of_N n) s)
      else if (n =? 194) || (n =? 195) then
        match bs1 with
        | [] => Raise UnicodeDecodeError
        | b2 :: bs2 =>
            let m := Byte.to_N b2 in
            if (128 <=? m) && (m <? 192) then
              let* s := decode bs2 in
              Ok (String (ascii_of_N ((n - 192) * 64 + (m - 128))) s)
            else Raise UnicodeDecodeError
        end
      else Raise UnicodeDecodeError
  end.

End Utf8.

(* ===================================================================== *)
(** ** SHA-256 ([hashlib.sha256]) *)
(* ===================================================================== *)

Module Sha256.

Local Open Scope N_scope.

Definition wrap (x : N) : N := x mod 2 ^ 32.
Definition add (x y : N) : N := wrap (x + y).
Definition rotr (n x : N) : N :=
  N.lor (N.shiftr x n) (wrap (N.shiftl x (32 - n))).
Definition not32 (x : N) : N := N.lxor x (2 ^ 32 - 1).

Definition ch (x y z : N) : N := N.lxor (N.land x y) (N.land (not32 x) z).
Definition maj (x y z : N) : N :=
  N.lxor (N.lxor (N.land x y) (N.land x z)) (N.land y z).
Definition bsig0 (x : N) : N :=
  N.lxor (N.lxor (rotr 2 x) (rotr 13 x)) (rotr 22 x).
Definition bsig1 (x : N) : N :=
  N.lxor (N.lxor (rotr 6 x) (rotr 11 x)) (rotr 25 x).
Definition ssig0 (x : N) : N :=
  N.lxor (N.lxor (rotr 7 x) (rotr 18 x)) (N.shiftr x 3).
Definition ssig1 (x : N) : N :=
  N.lxor (N.lxor (rotr 17 x) (rotr 19 x)) (N.shiftr x 10).

(** Round constants: the first 32 bits of the fractional parts of the
    cube roots of the first 64 primes. *)
Definition round_constants : list N :=
  [1116352408; 1899447441; 3049323471; 3921009573;
   961987163; 1508970993; 2453635748; 2870763221;
   3624381080; 310598401; 607225278; 1426881987;
   1925078388; 2162078206; 2614888103; 3248222580;
   3835390401; 4022224774; 264347078; 604807628;
   770255983; 1249150122; 1555081692; 1996064986;
   2554220882; 2821834349; 2952996808; 3210313671;
   3336571891; 3584528711; 113926993; 338241895;
   666307205; 773529912; 1294757372; 1396182291;
   1695183700; 1986661051; 2177026350; 2456956037;
   2730485921; 2820302411; 3259730800; 3345764771;
   3516065817; 3600352804; 4094571909; 275423344;
   430227734; 506948616; 659060556; 883997877;
   958139571; 1322822218; 1537002063; 1747873779;
   1955562222; 2024104815; 2227730452; 2361852424;
   2428436474; 2756734187; 3204031479; 3329325298].

(** Initial state: from the square roots of the first 8 primes. *)
Definition initial_state : list N :=
  [1779033703; 3144134277; 1013904242; 2773480762;
   1359893119; 2600822924; 528734635; 1541459225].

(** Big-endian bytes of a number, [len] of them. *)
Fixpoint be_bytes (len : nat) (x : N) : list byte :=
  match len with
  | O => []
  | S k => Hex.byte_of_N ((x / 256 ^ N.of_nat k) mod 256) :: be_bytes k x
  end.

Definition be_word (bs : list byte) : N :=
  fold_left (fun acc b => acc * 256 + Byte.to_N b) bs 0.

(** The message, one [0x80] byte, zero bytes up to 56 modulo 64, then
    the bit length on 8 bytes. *)
Definition pad (msg : list byte) : list byte :=
  let n := length msg in
  let zeros := ((119 - n mod 64) mod 64)%nat in
  msg ++ x80 :: repeat x00 zeros ++ be_bytes 8 (8 * N.of_nat n).

(** Cut into groups of [k] elements; [fuel] bounds the number of groups. *)
Fixpoint groups {A : Type} (k : nat) (fuel : nat) (l : list A)
  : list (list A) :=
  match fuel, l with
  | O, _ | _, [] => []
  | S f, _ => firstn k l :: groups k f (skipn k l)
  end.

(** The schedule is built newest word first: [ws] holds W(t-1), W(t-2), ... *)
Definition next_word (ws : list N) : N :=
  add (add (ssig1 (nth 1 ws 0)) (nth 6 ws 0))
      (add (ssig0 (nth 14 ws 0)) (nth 15 ws 0)).

Fixpoint extend (n : nat) (ws : list N) : list N :=
  match n with
  | O => ws
  | S k => extend k (next_word ws :: ws)
  end.

Definition schedule (block : list byte) : list N :=
  rev (extend 48 (rev (map be_word (groups 4 16 block)))).

Definition round (st : list N) (kw : N * N) : list N :=
  match st with
  | [a; b; c; d; e; f; g; h] =>
      let t1 := add (add (add h (bsig1 e)) (add (ch e f g) (fst kw))) (snd kw) in
      let t2 := add (bsig0 a) (maj a b c) in
      [add t1 t2; a; b; c; add d t1; e; f; g]
  | _ => st
  end.

Definition compress (st : list N) (block : list byte) : list N :=
  let out := fold_left round (combine round_constants (schedule block)) st in
  map (fun p => add (fst p) (snd p)) (combine st out).

Definition sha256 (msg : list byte) : list byte :=
  let padded := pad msg in
  let blocks := groups 64 (length padded) padded in
  concat (map (be_bytes 4) (fold_left compress blocks initial_state)).

(** [hashlib.sha256(data).hexdigest()] *)
Definition hexdigest (msg : list byte) : string := Hex.hex (sha256 msg).

End Sha256.

(* ===================================================================== *)
(** ** JSON values and [json.dumps] *)
(* ===================================================================== *)

(** The values the program serialises: [None], booleans, integers, strings,
    lists, and dictionaries with string keys in insertion order. *)
#[local] Set Warnings "-register-all".

Inductive json : Type :=
  | JNull
  | JBool (b : bool)
  | JInt (z : Z)
  | JStr (s : string)
  | JList (items : list json)
  | JDict (entries : list (string * json)).

Module Json.

Local Open Scope string_scope.

(** The double quote and the backslash. *)
Definition dquote : ascii := "034"%char.
Definition backslash : ascii := "092"%char.

Definition hex4 (n : N) : string :=
  String (Hex.digit (n / 4096 mod 16))
    (String (Hex.digit (n / 256 mod 16))
       (String (Hex.digit (n / 16 mod 16))
          (String (Hex.digit (n mod 16)) EmptyString))).

(** One character of a string literal with [ensure_ascii=True]: the
    quote, the backslash and the five short escapes, printable ASCII as
    it is, and [\uXXXX] for everything else. *)
Definition escape_char (c : ascii) : string :=
  let n := N_of_ascii c in
  if (n =? 34)%N then String backslash (String dquote EmptyString)
  else if (n =? 92)%N then String backslash (String backslash EmptyString)
  else if (n =? 10)%N then "\n"
  else if (n =? 13)%N then "\r"
  else if (n =? 9)%N then "\t"
  else if (n =? 8)%N then "\b"
  else if (n =? 12)%N then "\f"
  else if (32 <=? n)%N && (n <=? 126)%N then String c EmptyString
  else "\u" ++ hex4 n.

Fixpoint escape (s : string) : string :=
  match s with
  | EmptyString => EmptyString
  | String c s' => escape_char c ++ escape s'
  end.

Definition quote (s : string) : string :=
  String dquote (escape s ++ String dquote EmptyString).

Definition string_of_Z (z : Z) : string :=
  NilZero.string_of_int (Z.to_int z).

(** The elements of a list or dictionary, separated by [", "] and
    followed by the closing bracket. *)
Definition join {A : Type} (f : A -> string) (close : string)
  : list A -> string :=
  fix go (l : list A) : string :=
    match l with
    | [] => close
    | [x] => f x ++ close
    | x :: l' => f x ++ ", " ++ go l'
    end.

(** [json.dumps(v)] with the default separators [", "] and [": "]. *)
Fixpoint dumps (v : json) : string :=
  match v with
  | JNull => "null"
  | JBool true => "true"
  | JBool false => "false"
  | JInt z => string_of_Z z
  | JStr s => quote s
  | JList items => "[" ++ join dumps "]" items
  | JDict entries =>
      "{" ++ join (fun e => quote (fst e) ++ ": " ++ dumps (snd e)) "}" entries
  end.

(** [sort_keys=True]: the entries of every dictionary ordered by key. *)
Fixpoint insert_entry (e : string * json) (l : list (string * json))
  : list (string * json) :=
  match l with
  | [] => [e]
  | e' :: l' =>
      if String.leb (fst e) (fst e') then e :: l
      else e' :: insert_entry e l'
  end.

Definition sort_entries (l : list (string * json)) : list (string * json) :=
  fold_right insert_entry [] l.

Fixpoint sort_keys (v : json) : json :=
  match v with
  | JList items => JList (map sort_keys items)
  | JDict entries =>
      JDict (sort_entries (map (fun e => (fst e, sort_keys (snd e))) entries))
  | _ => v
  end.

(** [json.dumps(v, sort_keys=True, default=str)]; every value of the
    model is serialisable, so [default] is never called. *)
Definition dumps_sorted (v : json) : string := dumps (sort_keys v).

(** *** [json.loads] *)

(** White space of the JSON grammar. *)
Definition is_ws (c : ascii) : bool :=
  let n := N_of_ascii c in
  (n =? 32)%N || (n =? 9)%N || (n =? 10)%N || (n =? 13)%N.

Fixpoint skip_ws (s : string) : string :=
  match s with
  | String c s' => if is_ws c then skip_ws s' else s
  | EmptyString => s
  end.

Definition is_digit (c : ascii) : bool :=
  let n := N_of_ascii c in (48 <=? n)%N && (n <=? 57)%N.

(** The character that a short escape stands for. *)
Definition unescape (e : ascii) : option ascii :=
  let n := N_of_ascii e in
  if (n =? 34)%N then Some dquote
  else if (n =? 92)%N then Some backslash
  else if (n =? 47)%N then Some "/"%char
  else if (n =? 98)%N then Some "008"%char
  else if (n =? 102)%N then Some "012"%char
  else if (n =? 110)%N then Some "010"%char
  else if (n =? 114)%N then Some "013"%char
  else if (n =? 116)%N then Some "009"%char
  else None.

Definition hex4_value (a b c d : ascii) : option N :=
  match Hex.value a, Hex.value b, Hex.value c, Hex.value d with
  | Some x, Some y, Some z, Some w =>
      Some (4096 * x + 256 * y + 16 * z + w)%N
  | _, _, _, _ => None
  end.

(** The body of a string literal, after the opening quote, in strict
    mode: up to the closing quote, escapes decoded, raw control
    characters refused.  A [\uXXXX] escape above U+00FF names a character
    outside this embedding and is refused as well. *)
Fixpoint scan_string (s : string) : Result (string * string) :=
  match s with
  | EmptyString => Raise JSONDecodeError
  | String c s1 =>
      let n := N_of_ascii c in
      if (n =? 34)%N then Ok (EmptyString, s1)
      else if (n =? 92)%N then
        match s1 with
        | EmptyString => Raise JSONDecodeError
        | String e s2 =>
            match unescape e with
            | Some c' =>
                let* (body, rest) := scan_string s2 in
                Ok (String c' body, rest)
            | None =>
                if (N_of_ascii e =? 117)%N then
                  match s2 with
                  | String h1 (String h2 (String h3 (String h4 s3))) =>
                      match hex4_value h1 h2 h3 h4 with
                      | Some cp =>
                          if (cp <? 256)%N then
                            let* (body, rest) := scan_string s3 in
                            Ok (String (ascii_of_N cp) body, rest)
                          else Raise JSONDecodeError
                      | None => Raise JSONDecodeError
                      end
                  | _ => Raise JSONDecodeError
                  end
                else Raise JSONDecodeError
            end
        end
      else if (n <? 32)%N then Raise JSONDecodeError
      else
        let* (body, rest) := scan_string s1 in
        Ok (String c body, rest)
  end.

(** The longest run of digits at the front. *)
Fixpoint take_digits (s : string) : string * string :=
  match s with
  | String c s' =>
      if is_digit c then
        let (ds, rest) := take_digits s' in (String c ds, rest)
      else (EmptyString, s)
  | EmptyString => (EmptyString, s)
  end.

(** Does a fraction ([.] and a digit) or an exponent ([e] or [E], an
    optional sign, a digit) follow?  Then the number is a float. *)
Definition float_follows (s : string) : bool :=
  match s with
  | String c s1 =>
      let n := N_of_ascii c in
      if (n =? 46)%N then
        match s1 with String d _ => is_digit d | EmptyString => false end
      else if (n =? 101)%N || (n =? 69)%N then
        match s1 with
        | String d s2 =>
            if (N_of_ascii d =? 43)%N || (N_of_ascii d =? 45)%N then
              match s2 with String d' _ => is_digit d' | EmptyString => false end
            else is_digit d
        | EmptyString => false
        end
      else false
  | EmptyString => false
  end.

Definition int_of_digits (negative : bool) (ds rest : string)
  : Result (json * string) :=
  if float_follows rest then Raise JSONDecodeError
  else
    match NilZero.uint_of_string ds with
    | Some u =>
        let z := Z.of_uint u in
        Ok (JInt (if negative then Z.opp z else z), rest)
    | None => Raise JSONDecodeError
    end.

(** A number: an optional minus sign, then [0] or a digit run that does
    not start with [0].  Floats (also [NaN] and [Infinity]) are outside
    this embedding and refused. *)
Definition scan_number (s : string) : Result (json * string) :=
  let (negative, s1) :=
    match s with
    | String c s' => if (N_of_ascii c =? 45)%N then (true, s') else (false, s)
    | EmptyString => (false, s)
    end in
  match s1 with
  | String c s2 =>
      if (N_of_ascii c =? 48)%N then int_of_digits negative "0" s2
      else if is_digit c then
        let (ds, rest) := take_digits s1 in int_of_digits negative ds rest
      else Raise JSONDecodeError
  | EmptyString => Raise JSONDecodeError
  end.

(** [s] without the prefix [p], if it starts with it. *)
Fixpoint strip_prefix (p s : string) : option string :=
  match p, s with
  | EmptyString, _ => Some s
  | String a p', String b s' =>
      if Ascii.eqb a b then strip_prefix p' s' else None
  | String _ _, EmptyString => None
  end.

Definition scan_literal (word : string) (v : json) (s : string)
  : Result (json * string) :=
  match strip_prefix word s with
  | Some rest => Ok (v, rest)
  | None => Raise JSONDecodeError
  end.

(** Building a [dict] from the pairs read: a key seen again replaces the
    value stored under it and keeps its place. *)
Fixpoint dict_set (k : string) (v : json) (d : list (string * json))
  : list (string * json) :=
  match d with
  | [] => [(k, v)]
  | (k', v') :: d' =>
      if String.eqb k k' then (k, v) :: d' else (k', v') :: dict_set k v d'
  end.

Definition dict_of_pairs (pairs : list (string * json))
  : list (string * json) :=
  fold_left (fun d kv => dict_set (fst kv) (snd kv) d) pairs [].

(** What the first character of a value announces. *)
Inductive Kind : Type :=
  | KString | KObject | KArray | KNull | KTrue | KFalse | KNumber.

Definition kind_of (c : ascii) : Kind :=
  let n := N_of_ascii c in
  if (n =? 34)%N then KString
  else if (n =? 123)%N then KObject
  else if (n =? 91)%N then KArray
  else if (n =? 110)%N then KNull
  else if (n =? 116)%N then KTrue
  else if (n =? 102)%N then KFalse
  else KNumber.

(** The recursive descent of the decoder.  Every call consumes at least
    one character, so the length of the text is fuel enough. *)
Fixpoint parse_value (fuel : nat) (s : string) {struct fuel}
  : Result (json * string) :=
  match fuel with
  | O => Raise JSONDecodeError
  | S f =>
      match s with
      | EmptyString => Raise JSONDecodeError
      | String c s1 =>
          match kind_of c with
          | KString =>
              let* (body, rest) := scan_string s1 in Ok (JStr body, rest)
          | KObject =>
              match skip_ws s1 with
              | String c2 s2 =>
                  if (N_of_ascii c2 =? 125)%N then Ok (JDict [], s2)
                  else if (N_of_ascii c2 =? 34)%N then
                    let* (pairs, rest) := parse_entries f s2 in
                    Ok (JDict (dict_of_pairs pairs), rest)
                  else Raise JSONDecodeError
              | EmptyString => Raise JSONDecodeError
              end
          | KArray =>
              match skip_ws s1 with
              | String c2 s2 =>
                  if (N_of_ascii c2 =? 93)%N then Ok (JList [], s2)
                  else
                    let* (items, rest) := parse_items f (String c2 s2) in
                    Ok (JList items, rest)
              | EmptyString => Raise JSONDecodeError
              end
          | KNull => scan_literal "null" JNull s
          | KTrue => scan_literal "true" (JBool true) s
          | KFalse => scan_literal "false" (JBool false) s
          | KNumber => scan_number s
          end
      end
  end

(** The elements of a list, from the first value on. *)
with parse_items (fuel : nat) (s : string) {struct fuel}
  : Result (list json * string) :=
  match fuel with
  | O => Raise JSONDecodeError
  | S f =>
      let* (v, r1) := parse_value f s in
      match skip_ws r1 with
      | String c r2 =>
          if (N_of_ascii c =? 93)%N then Ok ([v], r2)
          else if (N_of_ascii c =? 44)%N then
            let* (vs, rest) := parse_items f (skip_ws r2) in
            Ok (v :: vs, rest)
          else Raise JSONDecodeError
      | EmptyString => Raise JSONDecodeError
      end
  end

(** The entries of a dictionary, from just after the opening quote of
    the first key on. *)
with parse_entries (fuel : nat) (s : string) {struct fuel}
  : Result (list (string * json) * string) :=
  match fuel with
  | O => Raise JSONDecodeError
  | S f =>
      let* (k, r1) := scan_string s in
      match skip_ws r1 with
      | String c r2 =>
          if (N_of_ascii c =? 58)%N then
            let* (v, r3) := parse_value f (skip_ws r2) in
            match skip_ws r3 with
            | String c' r4 =>
                if (N_of_ascii c' =? 125)%N then Ok ([(k, v)], r4)
                else if (N_of_ascii c' =? 44)%N then
                  match skip_ws r4 with
                  | String q r5 =>
                      if (N_of_ascii q =? 34)%N then
                        let* (es, rest) := parse_entries f r5 in
                        Ok ((k, v) :: es, rest)
                      else Raise JSONDecodeError
                  | EmptyString => Raise JSONDecodeError
                  end
                else Raise JSONDecodeError
            | EmptyString => Raise JSONDecodeError
            end
          else Raise JSONDecodeError
      | EmptyString => Raise JSONDecodeError
      end
  end.

(** [json.loads(s)]: one value, white space around it, nothing else. *)
Definition loads (s : string) : Result json :=
  let* (v, rest) := parse_value (String.length s) (skip_ws s) in
  match skip_ws rest with
  | EmptyString => Ok v
  | String _ _ => Raise JSONDecodeError
  end.

(** *** Values a program can hold *)

Fixpoint distinct (keys : list string) : bool :=
  match keys with
  | [] => true
  | k :: ks => negb (existsb (String.eqb k) ks) && distinct ks
  end.

(** A value that a Python program can hold: the keys of every
    dictionary are pairwise different. *)
Fixpoint well_formed (v : json) : bool :=
  match v with
  | JList items => forallb well_formed items
  | JDict entries =>
      distinct (map fst entries)
      && forallb (fun e => well_formed (snd e)) entries
  | _ => true
  end.


End Json.

(** [str] of an integer, which is also what an f-string prints for it. *)
Definition str (z : Z) : string := Json.string_of_Z z.

(* ===================================================================== *)
(** ** AES-GCM ([cryptography]'s [AESGCM]) *)
(* ===================================================================== *)

Module AesGcm.

Local Open Scope N_scope.

(** *** The field of 256 elements *)

(** Multiplication by [x] modulo [x^8 + x^4 + x^3 + x + 1]. *)
Definition xtime (a : N) : N :=
  let b := N.shiftl a 1 in
  if 128 <=? a then N.lxor (b mod 256) 27 else b.

Fixpoint gmul_steps (n : nat) (a b : N) : N :=
  match n with
  | O => 0
  | S k =>
      N.lxor (if N.odd b then a else 0)
             (gmul_steps k (xtime a) (N.shiftr b 1))
  end.

Definition gmul (a b : N) : N := gmul_steps 8 a b.

Definition gsquare (a : N) : N := gmul a a.

(** The inverse, [a^254]; 0 is sent to 0. *)
Definition ginv (a : N) : N :=
  let a2 := gsquare a in
  let a4 := gsquare a2 in
  let a8 := gsquare a4 in
  let a16 := gsquare a8 in
  let a32 := gsquare a16 in
  let a64 := gsquare a32 in
  let a128 := gsquare a64 in
  gmul a2 (gmul a4 (gmul a8 (gmul a16 (gmul a32 (gmul a64 a128))))).

Definition rotl8 (x k : N) : N :=
  N.lor (N.shiftl x k) (N.shiftr x (8 - k)) mod 256.

(** The S-box: the inverse followed by the affine map. *)
Definition sbox_of (a : N) : N :=
  let x := ginv a in
  N.lxor (N.lxor (N.lxor (N.lxor (N.lxor x (rotl8 x 1)) (rotl8 x 2))
                    (rotl8 x 3)) (rotl8 x 4)) 99.

Definition sbox_table : list N :=
  Eval vm_compute in map (fun i => sbox_of (N.of_nat i)) (seq 0 256).

Definition sbox (a : N) : N := nth (N.to_nat a) sbox_table 0.

(** *** The block cipher

    The state is the 16 bytes of the block in the order of the input;
    byte [r + 4 c] is row [r] of column [c]. *)

Definition xor_bytes (a b : list N) : list N :=
  map (fun p => N.lxor (fst p) (snd p)) (combine a b).

Definition sub_bytes (st : list N) : list N := map sbox st.

Definition shift_rows (st : list N) : list N :=
  map (fun i => nth (i mod 4 + 4 * ((i / 4 + i mod 4) mod 4))%nat st 0)
      (seq 0 16).

Definition mix_column (col : list N) : list N :=
  match col with
  | [a0; a1; a2; a3] =>
      [N.lxor (N.lxor (gmul 2 a0) (gmul 3 a1)) (N.lxor a2 a3);
       N.lxor (N.lxor a0 (gmul 2 a1)) (N.lxor (gmul 3 a2) a3);
       N.lxor (N.lxor a0 a1) (N.lxor (gmul 2 a2) (gmul 3 a3));
       N.lxor (N.lxor (gmul 3 a0) a1) (N.lxor a2 (gmul 2 a3))]
  | _ => col
  end.

Definition mix_columns (st : list N) : list N :=
  concat (map mix_column (Sha256.groups 4 4 st)).

(** The round constant of round [j]: [x^(j-1)]. *)
Definition rcon (j : nat) : N := Nat.iter (j - 1) xtime 1.

(** The key schedule, newest word first.  [nk] is the number of words of
    the key, [i] the index of the word to add. *)
Definition next_key_word (nk i : nat) (ws : list (list N)) : list N :=
  let prev := nth 0 ws [] in
  let temp :=
    if (i mod nk =? 0)%nat then
      match prev with
      | [b0; b1; b2; b3] =>
          [N.lxor (sbox b1) (rcon (i / nk)); sbox b2; sbox b3; sbox b0]
      | _ => prev
      end
    else if (6 <? nk)%nat && (i mod nk =? 4)%nat then map sbox prev
    else prev in
  xor_bytes (nth (nk - 1) ws []) temp.

Fixpoint expand_from (count nk i : nat) (ws : list (list N))
  : list (list N) :=
  match count with
  | O => ws
  | S k => expand_from k nk (S i) (next_key_word nk i ws :: ws)
  end.

(** The round keys, 16 bytes each: [nk + 7] of them. *)
Definition round_keys (key : list N) : list (list N) :=
  let nk := (length key / 4)%nat in
  let words := rev (Sha256.groups 4 nk key) in
  let all := rev (expand_from (4 * (nk + 7) - nk) nk nk words) in
  map (@concat N) (Sha256.groups 4 (nk + 7) all).

Definition full_round (st rk : list N) : list N :=
  xor_bytes (mix_columns (shift_rows (sub_bytes st))) rk.

Definition last_round (st rk : list N) : list N :=
  xor_bytes (shift_rows (sub_bytes st)) rk.

(** Encryption of one block under the round keys. *)
Definition encrypt_block (rks : list (list N)) (block : list N) : list N :=
  match rks with
  | [] => block
  | rk0 :: rest =>
      let middle := removelast rest in
      let final := List.last rest [] in
      last_round (fold_left full_round middle (xor_bytes block rk0)) final
  end.

(** *** GCM *)

(** A block as a number, first byte most significant, and back. *)
Definition block_to_N (bs : list N) : N :=
  fold_left (fun acc b => acc * 256 + b) bs 0.

Fixpoint N_to_block (len : nat) (x : N) : list N :=
  match len with
  | O => []
  | S k => (x / 256 ^ N.of_nat k) mod 256 :: N_to_block k x
  end.

(** Multiplication in the field of [2^128] elements, in the bit order of
    GCM: the most significant bit of a block is the coefficient of 1. *)
Fixpoint gf128_steps (n : nat) (x v z : N) : N :=
  match n with
  | O => z
  | S k =>
      let z' := if N.testbit x (N.of_nat k) then N.lxor z v else z in
      let v' :=
        if N.testbit v 0 then
          N.lxor (N.shiftr v 1) 299076299051606071403356588563077529600
        else N.shiftr v 1 in
      gf128_steps k x v' z'
  end.

Definition gf128_mul (x y : N) : N := gf128_steps 128 x y 0.

Definition pad16 (bs : list N) : list N :=
  bs ++ repeat 0 ((16 - length bs mod 16) mod 16)%nat.

(** GHASH over whole blocks. *)
Definition ghash (h : N) (bs : list N) : N :=
  fold_left (fun y blk => gf128_mul (N.lxor y (block_to_N blk)) h)
            (Sha256.groups 16 (length bs) bs) 0.

(** The pre-counter block: the nonce and the counter 1 for a 12-byte
    nonce, the GHASH of the padded nonce and its bit length otherwise. *)
Definition pre_counter (h : N) (nonce : list N) : N :=
  if (length nonce =? 12)%nat then block_to_N (nonce ++ [0; 0; 0; 1])
  else
    ghash h (pad16 nonce ++ repeat 0 8%nat
               ++ N_to_block 8 (8 * N.of_nat (length nonce))).

(** The counter after [i] increments of its low 32 bits. *)
Definition counter (j0 : N) (i : N) : N :=
  (j0 / 2 ^ 32) * 2 ^ 32 + (j0 mod 2 ^ 32 + i) mod 2 ^ 32.

(** The block cipher on blocks as numbers. *)
Definition cipher_block (rks : list (list N)) (x : N) : N :=
  block_to_N (encrypt_block rks (N_to_block 16 x)).

Fixpoint keystream (rks : list (list N)) (j0 : N) (i : N) (blocks : nat)
  : list N :=
  match blocks with
  | O => []
  | S k =>
      N_to_block 16 (cipher_block rks (counter j0 i))
        ++ keystream rks j0 (i + 1) k
  end.

Record Context : Type := mkContext {
  ctx_round_keys : list (list N);
  ctx_h : N;
  ctx_j0 : N
}.

Definition context (key nonce : list N) : Context :=
  let rks := round_keys key in
  let h := cipher_block rks 0 in
  {| ctx_round_keys := rks; ctx_h := h; ctx_j0 := pre_counter h nonce |}.

(** Counter mode: the text xored with the key stream. *)
Definition ctr (c : Context) (text : list N) : list N :=
  xor_bytes text
    (keystream (ctx_round_keys c) (ctx_j0 c) 1 (length text / 16 + 1)).

(** The tag of a ciphertext, with no associated data. *)
Definition tag (c : Context) (ct : list N) : list N :=
  let s :=
    ghash (ctx_h c)
      (pad16 ct ++ repeat 0 8%nat ++ N_to_block 8 (8 * N.of_nat (length ct))) in
  N_to_block 16 (N.lxor s (cipher_block (ctx_round_keys c) (ctx_j0 c))).

Definition to_Ns (bs : list byte) : list N := map Byte.to_N bs.
Definition of_Ns (ns : list N) : list byte := map Hex.byte_of_N ns.

(** Encryption: the ciphertext followed by the 16 bytes of the tag. *)
Definition seal (key nonce plaintext : list byte) : list byte :=
  let c := context (to_Ns key) (to_Ns nonce) in
  let ct := ctr c (to_Ns plaintext) in
  of_Ns (ct ++ tag c ct).

(** Decryption: the tag is recomputed from the ciphertext and compared
    with the one received; only then is the plaintext produced. *)
Definition open (key nonce data : list byte) : option (list byte) :=
  if (length data <? 16)%nat then None
  else
    let c := context (to_Ns key) (to_Ns nonce) in
    let m := (length data - 16)%nat in
    let ct := to_Ns (firstn m data) in
    if Bytes.eqb (skipn m data) (of_Ns (tag c ct)) then Some (of_Ns (ctr c ct))
    else None.

End AesGcm.

(* ===================================================================== *)
(** ** [backend.py]: the cipher *)
(* ===================================================================== *)

Module Cipher.

(** The authenticated cipher that [AESGCM] of the [cryptography] package
    provides, with no associated data: [seal key nonce plaintext] is the
    ciphertext followed by the 16-byte tag, [open key nonce data] is the
    plaintext, or [None] when the tag does not verify.  The two laws are
    the contract of the primitive that the program relies on. *)
Class AEAD : Type := mkAEAD {
  seal : list byte -> list byte -> list byte -> list byte;
  open : list byte -> list byte -> list byte -> option (list byte);
  seal_length : forall k n p, length (seal k n p) = (length p + 16)%nat;
  open_seal : forall k n p, open k n (seal k n p) = Some p
}.

Section WithAEAD.

Context {aead : AEAD}.

(** [AESGCM._check_params]: the length of the nonce. *)
Definition nonce_ok (nonce : list byte) : bool :=
  (8 <=? length nonce)%nat && (length nonce <=? 128)%nat.

Definition nonce_error : Exn :=
  ValueError "Nonce must be between 8 and 128 bytes".


(** [AESGCM(key).decrypt(nonce, data, None)]: [InvalidTag] when the data
    is shorter than a tag or the tag does not verify. *)
Definition AESGCM_decrypt (key nonce data : list byte) : Result (list byte) :=
  if nonce_ok nonce then
    if (length data <? 16)%nat then Raise InvalidTag
    else
      match open key nonce data with
      | Some plaintext => Ok plaintext
      | None => Raise InvalidTag
      end
  else Raise nonce_error.

(** An [AESCipher] object. *)
Record AESCipher : Type := mkAESCipher { key : list byte }.

(** The key that [__init__] falls back to. *)
Definition fallback_key_hex : string :=
  "00112233445566778899AABBCCDDEEFF00112233445566778899AABBCCDDEEFF".

Definition key_length_error : Exn :=
  ValueError "POLICE_KEY must be 32 bytes (256-bit)".

(** [AESCipher.__init__]; [environ] is the process environment that
    [os.getenv] reads.  A variable that is unset or empty selects the
    fallback key.  (The length check of [AESGCM(key)] comes after the one
    made here and cannot fail.) *)
Definition AESCipher_init (environ : gmap string string) : Result AESCipher :=
  let police_key_hex := environ !! "POLICE_KEY_HEX" in
  let* k :=
    match police_key_hex with
    | Some (String c s) => Hex.fromhex (String c s)
    | Some EmptyString | None => Hex.fromhex fallback_key_hex
    end in
  if (length k =? 32)%nat then Ok {| key := k |} else Raise key_length_error.


(** [decrypt] *)
Definition decrypt (self : AESCipher) (nonce_hex ciphertext_hex : string)
  : Result json :=
  let* nonce := Hex.fromhex nonce_hex in
  let* ct := Hex.fromhex ciphertext_hex in
  let* pt := AESGCM_decrypt (key self) nonce ct in
  let* text := Utf8.decode pt in
  Json.loads text.

(** The integrity guarantee of the primitive under a 32-byte key, for the
    smallest change: after a flip of one bit of the nonce, or of one bit
    of the sealed data, the tag no longer verifies. *)
Definition detects_bit_flips : Prop :=
  forall (k n p : list byte) (i : nat) (j : N),
    length k = 32%nat ->
    (j < 8)%N ->
    (i < length n ->
     open k (Bytes.flip_bit i j n) (seal k n p) = None) /\
    (i < length (seal k n p) ->
     open k n (Bytes.flip_bit i j (seal k n p)) = None).

End WithAEAD.

End Cipher.

(* ===================================================================== *)
(** ** [backend.py]: blocks and the chain *)
(* ===================================================================== *)

Module Backend.

(** A transaction, the dictionary that the dispatch step of [app.py]
    builds: the hexadecimal nonce and ciphertext, the driver response and
    two clear-text fields that are a string or [None]. *)
Record Tx : Type := mkTx {
  nonce : string;
  ciphertext : string;
  driver_response : string;
  vehicle : option string;
  exit_point : option string
}.

Definition json_of_option (o : option string) : json :=
  match o with
  | Some s => JStr s
  | None => JNull
  end.

(** The dictionary in the order in which [app.py] writes its keys. *)
Definition tx_json (tx : Tx) : json :=
  JDict [("nonce", JStr (nonce tx));
         ("ciphertext", JStr (ciphertext tx));
         ("driver_response", JStr (driver_response tx));
         ("vehicle", json_of_option (vehicle tx));
         ("exit_point", json_of_option (exit_point tx))].

(** [Block.data]: the marker of the genesis block,
    [{"msg": "Genesis Block"}], or a list of transactions. *)
Inductive BlockData : Type :=
  | GenesisMarker
  | Transactions (txs : list Tx).

Definition data_json (d : BlockData) : json :=
  match d with
  | GenesisMarker => JDict [("msg", JStr "Genesis Block")]
  | Transactions txs => JList (map tx_json txs)
  end.

(** The transactions a block carries. *)
Definition block_txs (d : BlockData) : list Tx :=
  match d with
  | GenesisMarker => []
  | Transactions txs => txs
  end.

(** A constructed [Block] object: all five attributes are set. *)
Record Block : Type := mkBlock {
  index : Z;
  timestamp : string;
  data : BlockData;
  prev_hash : string;
  hash : string
}.

(** [hashlib.sha256(json.dumps(d, sort_keys=True, default=str).encode())
    .hexdigest()] for an attribute dictionary [d]. *)
Definition digest_of_dict (d : list (string * json)) : string :=
  Sha256.hexdigest (Utf8.encode (Json.dumps_sorted (JDict d))).

(** [self.__dict__] at the call of [compute_hash] inside [__init__]: the
    four attributes assigned so far. *)
Definition dict_in_init (i : Z) (t : string) (d : BlockData) (p : string)
  : list (string * json) :=
  [("index", JInt i); ("timestamp", JStr t); ("data", data_json d);
   ("prev_hash", JStr p)].

(** [self.__dict__] of a constructed block: the attribute [hash] is part
    of it. *)
Definition dict_of_block (b : Block) : list (string * json) :=
  dict_in_init (index b) (timestamp b) (data b) (prev_hash b)
    ++ [("hash", JStr (hash b))].

(** [Block.compute_hash] called on a constructed block. *)
Definition compute_hash (b : Block) : string :=
  digest_of_dict (dict_of_block b).

(** [Block.__init__]: the stored hash is the result of [compute_hash]
    called before the attribute [hash] exists. *)
Definition Block_init (i : Z) (t : string) (d : BlockData) (p : string)
  : Block :=
  {| index := i; timestamp := t; data := d; prev_hash := p;
     hash := digest_of_dict (dict_in_init i t d p) |}.

Record Blockchain : Type := mkBlockchain {
  chain : list Block;
  current_tx : list Tx
}.

(** [create_genesis]; [now] is [datetime.utcnow().isoformat()]. *)
Definition create_genesis (now : string) (bc : Blockchain) : Blockchain :=
  let genesis := Block_init 0 now GenesisMarker "0" in
  {| chain := chain bc ++ [genesis]; current_tx := current_tx bc |}.

(** [Blockchain.__init__] *)
Definition Blockchain_init (now : string) : Blockchain :=
  create_genesis now {| chain := []; current_tx := [] |}.

(** [add_tx]: an unconditional append. *)
Definition add_tx (tx : Tx) (bc : Blockchain) : Blockchain :=
  {| chain := chain bc; current_tx := current_tx bc ++ [tx] |}.

(** [mine]: [self.chain[-1]] raises [IndexError] on an empty list;
    otherwise the new block takes a copy of the pending list, is
    appended, and the pending list is cleared.  Returns the block and
    the ledger after the call. *)
Definition mine (now : string) (bc : Blockchain)
  : Result (Block * Blockchain) :=
  match last (chain bc) with
  | None => Raise (IndexError "list index out of range")
  | Some prev =>
      let new_block :=
        Block_init (index prev + 1) now (Transactions (current_tx bc))
          (hash prev) in
      Ok (new_block,
          {| chain := chain bc ++ [new_block]; current_tx := [] |})
  end.

(** The methods that the class [Blockchain] defines. *)
Inductive BlockchainMethod : Type :=
  | M_init
  | M_create_genesis
  | M_add_tx
  | M_mine.

Definition method_name (m : BlockchainMethod) : string :=
  match m with
  | M_init => "__init__"
  | M_create_genesis => "create_genesis"
  | M_add_tx => "add_tx"
  | M_mine => "mine"
  end.

(** Ledgers that the class can produce: a fresh one, then any sequence
    of [add_tx] and [mine]. *)
Inductive reachable : Blockchain -> Prop :=
  | reach_init (now : string) : reachable (Blockchain_init now)
  | reach_add_tx (tx : Tx) (bc : Blockchain) :
      reachable bc -> reachable (add_tx tx bc)
  | reach_mine (now : string) (bc bc' : Blockchain) (b : Block) :
      reachable bc -> mine now bc = Ok (b, bc') -> reachable bc'.

End Backend.

(* ===================================================================== *)
(** ** [backend.py]: the choice of the route *)
(* ===================================================================== *)

Module Contract.

(** The floating point numbers that the literals [0.4] and [0.8] denote,
    and the default [0.5], as the rationals they are. *)
Definition literal_0_4 : Q := 3602879701896397 # 9007199254740992.
Definition literal_0_8 : Q := 3602879701896397 # 4503599627370496.
Definition literal_0_5 : Q := 1 # 2.

(** [a < b] on finite floating point numbers. *)
Definition lt (a b : Q) : bool := negb (Qle_bool b a).

(** [route]; the argument is the entry [congestion] of the event, a
    finite number, or [None] when the event has no such entry. *)
Definition route (congestion : option Q) : string :=
  let congestion :=
    match congestion with Some c => c | None => literal_0_5 end in
  if lt congestion literal_0_4 then "FASTEST"
  else if lt congestion literal_0_8 then "ALTERNATE_1"
  else "ALTERNATE_2".

End Contract.

(* ===================================================================== *)
(** ** [app.py]: the session script *)
(* ===================================================================== *)

Module App.

Import Backend.

(** The part of an event that the script reads back: the two clear-text
    fields and the two speeds.  The speeds are finite numbers; they are
    rationals here, and only their comparison is used. *)
Record Event : Type := mkEvent {
  event_vehicle : option string;
  event_exit_point : option string;
  speed : Q;
  speed_limit : Q
}.

(** The part of a decision that the script branches on.  (The toll and
    the route are floating point results that only enter the encrypted
    payload.) *)
Record Decision : Type := mkDecision {
  overspeed : bool;
  decision_correct : bool
}.

(** [evaluate_decision]: [overspeed = speed > limit],
    [decision_correct = not overspeed]. *)
Definition evaluate_decision (ev : Event) : Decision :=
  let over := negb (Qle_bool (speed ev) (speed_limit ev)) in
  {| overspeed := over; decision_correct := negb over |}.

Definition AUTO_SAFE : string := "AUTO_SAFE".
Definition CONFIRMED : string := "CONFIRMED".
Definition REJECTED : string := "REJECTED".

(** [st.session_state] *)
Record Session : Type := mkSession {
  bc : Blockchain;
  current_event : option Event;
  current_decision : option Decision;
  driver_response : option string;
  rejected_cases : list Tx
}.

(** The first run of the script; [now] is the time stamp of the genesis
    block. *)
Definition initial_session (now : string) : Session :=
  {| bc := Blockchain_init now; current_event := None;
     current_decision := None; driver_response := None;
     rejected_cases := [] |}.

(** What the user did to trigger a run of the script.  At most one button
    is pressed per run.  [LoadEvent] carries the event built from the
    selected row, [EncryptSave] the pair that [cipher.encrypt(payload)]
    returns, [MineBlock] the clock. *)
Inductive Click : Type :=
  | NoClick
  | LoadEvent (ev : Event)
  | DecisionEngine
  | ConfirmGuidance
  | RejectGuidance
  | EncryptSave (nonce_hex ciphertext_hex : string)
  | MineBlock (now : string).

(** Python truth value of [st.session_state.driver_response]. *)
Definition truthy (r : option string) : bool :=
  match r with
  | None | Some EmptyString => false
  | Some _ => true
  end.

(** Step 1, "Load IoT Event". *)
Definition step_load (c : Click) (s : Session) : Session :=
  match c with
  | LoadEvent ev =>
      {| bc := bc s; current_event := Some ev; current_decision := None;
         driver_response := None; rejected_cases := rejected_cases s |}
  | _ => s
  end.

(** Step 2, "Decision Engine". *)
Definition step_decide (c : Click) (s : Session) : Session :=
  match c, current_event s with
  | DecisionEngine, Some ev =>
      {| bc := bc s; current_event := current_event s;
         current_decision := Some (evaluate_decision ev);
         driver_response := None; rejected_cases := rejected_cases s |}
  | _, _ => s
  end.

Definition set_response (r : string) (s : Session) : Session :=
  {| bc := bc s; current_event := current_event s;
     current_decision := current_decision s;
     driver_response := Some r; rejected_cases := rejected_cases s |}.

(** Step 3, "Driver Response": without overspeed the response is set to
    AUTO_SAFE on every run; with overspeed the two buttons are shown. *)
Definition step_response (c : Click) (s : Session) : Session :=
  match current_decision s with
  | None => s
  | Some dec =>
      if negb (overspeed dec) then set_response AUTO_SAFE s
      else
        match c with
        | ConfirmGuidance => set_response CONFIRMED s
        | RejectGuidance => set_response REJECTED s
        | _ => s
        end
  end.

(** The transaction that step 4 builds. *)
Definition build_tx (nonce_hex ciphertext_hex : string) (s : Session)
  : Tx :=
  {| nonce := nonce_hex;
     ciphertext := ciphertext_hex;
     Backend.driver_response :=
       match driver_response s with Some r => r | None => EmptyString end;
     vehicle :=
       match current_event s with
       | Some ev => event_vehicle ev
       | None => None
       end;
     exit_point :=
       match current_event s with
       | Some ev => event_exit_point ev
       | None => None
       end |}.

(** Step 4, "Encrypt & Save Transaction": the dispatch. *)
Definition step_save (c : Click) (s : Session) : Session :=
  match c with
  | EncryptSave nonce_hex ciphertext_hex =>
      if negb (truthy (driver_response s)) then s
      else
        let tx := build_tx nonce_hex ciphertext_hex s in
        if String.eqb (Backend.driver_response tx) REJECTED then
          {| bc := bc s; current_event := current_event s;
             current_decision := current_decision s;
             driver_response := driver_response s;
             rejected_cases := rejected_cases s ++ [tx] |}
        else
          {| bc := add_tx tx (bc s); current_event := current_event s;
             current_decision := current_decision s;
             driver_response := driver_response s;
             rejected_cases := rejected_cases s |}
  | _ => s
  end.

(** "Mine Block": a warning and nothing else when the pending list is
    empty; an exception of [mine] would leave the session as it is. *)
Definition step_mine (c : Click) (s : Session) : Session :=
  match c with
  | MineBlock now =>
      match current_tx (bc s) with
      | [] => s
      | _ :: _ =>
          match mine now (bc s) with
          | Ok (_, bc') =>
              {| bc := bc'; current_event := current_event s;
                 current_decision := current_decision s;
                 driver_response := driver_response s;
                 rejected_cases := rejected_cases s |}
          | Raise _ => s
          end
      end
  | _ => s
  end.

(** One run of the script, top to bottom. *)
Definition rerun (c : Click) (s : Session) : Session :=
  step_mine c (step_save c (step_response c (step_decide c (step_load c s)))).

(** A whole session: the runs triggered by a sequence of clicks. *)
Definition run (clicks : list Click) (s : Session) : Session :=
  fold_left (fun s c => rerun c s) clicks s.

End App.

(* ===================================================================== *)
(** ** [app.py]: the widgets of the two read-only tabs *)
(* ===================================================================== *)

Module Tabs.

Import Backend App.

Local Open Scope string_scope.

(** The key of the "Decrypt" button of transaction [t_i] of the block
    with index [blk_index]. *)
Definition ledger_decrypt_key (blk_index : Z) (t_i : nat) : string :=
  "ledger_decrypt_" ++ str blk_index ++ "_" ++ str (Z.of_nat t_i).

(** The keys of the buttons under the expander of one block.  The loop
    enumerates [blk.data]: the marker of the genesis block is a
    dictionary, whose iteration yields its key, a string, for which no
    button is made; every transaction is a dictionary with a
    ciphertext. *)
Definition block_keys (blk : Block) : list string :=
  match data blk with
  | GenesisMarker => []
  | Transactions txs =>
      map (ledger_decrypt_key (index blk)) (seq 0 (length txs))
  end.

(** The ledger tab goes through the chain newest block first. *)
Definition ledger_tab_keys (s : Session) : list string :=
  flat_map block_keys (rev (chain (bc s))).

(** The keys of the button and of the check box of case [i] of the
    rejected tab. *)
Definition case_keys (i : nat) : list string :=
  ["decrypt_case_" ++ str (Z.of_nat i + 1);
   "raw_case_" ++ str (Z.of_nat i + 1)].

Definition rejected_tab_keys (s : Session) : list string :=
  flat_map case_keys (seq 0 (length (rev (rejected_cases s)))).

(** The keys that one run of the script hands to Streamlit. *)
Definition widget_keys (s : Session) : list string :=
  ledger_tab_keys s ++ rejected_tab_keys s.

End Tabs.

(* ===================================================================== *)
(** ** [generate_dataset.py]: plates, phone numbers and e-mail addresses *)
(* ===================================================================== *)

Module Dataset.

Local Open Scope string_scope.

(** The states and their area codes. *)
Definition state_areas : list (string * list string) :=
  [("NY", ["212"; "315"; "332"; "516"; "518"; "585"; "607"; "631"; "646";
           "680"; "716"; "718"; "838"; "845"; "914"; "917"; "929"]);
   ("CA", ["209"; "213"; "310"; "415"; "424"; "442"; "510"; "559"; "562";
           "619"; "626"; "650"; "657"; "661"; "707"; "714"; "747"; "805";
           "818"; "858"; "909"]);
   ("TX", ["210"; "214"; "254"; "281"; "325"; "346"; "361"; "409"; "430";
           "432"; "469"; "512"; "682"; "713"; "726"; "737"; "806"; "817";
           "830"; "832"; "903"]);
   ("FL", ["305"; "321"; "352"; "386"; "407"; "448"; "561"; "689"; "727";
           "754"; "772"; "786"; "813"; "850"; "863"; "904"; "941"; "954"]);
   ("NJ", ["201"; "551"; "609"; "640"; "732"; "848"; "856"; "862"; "908";
           "973"]);
   ("IL", ["217"; "224"; "309"; "312"; "331"; "447"; "464"; "618"; "630";
           "708"; "773"; "779"; "815"; "847"; "872"])].

Definition letters_alphabet : string := "ABCDEFGHIJKLMNOPQRSTUVWXYZ".

(** [format(n, "04d")]: the sign, then the digits padded with zeros on
    the left up to four characters in all. *)
Fixpoint zeros (n : nat) : string :=
  match n with
  | O => EmptyString
  | S k => String "0" (zeros k)
  end.

Definition format_04d (n : Z) : string :=
  let sign := if (n <? 0)%Z then "-" else EmptyString in
  let digits := str (Z.abs n) in
  sign ++ zeros (4 - String.length sign - String.length digits) ++ digits.

(** [str.lower] on the code points of the embedding. *)
Definition lower_char (c : ascii) : ascii :=
  let n := N_of_ascii c in
  if ((65 <=? n) && (n <=? 90)
      || (192 <=? n) && (n <=? 222) && negb (n =? 215))%N
  then ascii_of_N (n + 32)
  else c.

Fixpoint lower (s : string) : string :=
  match s with
  | EmptyString => EmptyString
  | String c s' => String (lower_char c) (lower s')
  end.

(** [s.replace(old, "")] for an [old] of one character. *)
Fixpoint remove_char (old : ascii) (s : string) : string :=
  match s with
  | EmptyString => EmptyString
  | String c s' =>
      if Ascii.eqb c old then remove_char old s'
      else String c (remove_char old s')
  end.

(** [random_plate]; [st], [letters] and [numbers] are what
    [random.choice], [random.choices] and [random.randint] returned. *)
Definition random_plate (st letters : string) (numbers : Z)
  : string * string :=
  (st ++ "-" ++ letters ++ str numbers, st).

(** [random_phone]; [code], [prefix] and [line] are the random draws. *)
Definition random_phone (code : string) (prefix line : Z) : string :=
  "+1-" ++ code ++ "-" ++ str prefix ++ "-" ++ format_04d line.

(** [random_email]; [domain] is the one of the four domains that
    [random.choice] returned. *)
Definition random_email (plate domain : string) : string :=
  lower (remove_char "-" plate) ++ "@" ++ domain.

(** What the random source can return for a plate and for a phone
    number of a state. *)
Definition plate_draw (st letters : string) (numbers : Z) : bool :=
  existsb (String.eqb st) (map fst state_areas)
  && (String.length letters =? 3)%nat
  && forallb (fun c => existsb (Ascii.eqb c)
                         (list_ascii_of_string letters_alphabet))
       (list_ascii_of_string letters)
  && (1000 <=? numbers)%Z && (numbers <=? 9999)%Z.

Definition phone_draw (st code : string) (prefix line : Z) : bool :=
  existsb (fun e => String.eqb st (fst e) && existsb (String.eqb code) (snd e))
    state_areas
  && (200 <=? prefix)%Z && (prefix <=? 999)%Z
  && (0 <=? line)%Z && (line <=? 9999)%Z.

End Dataset.

(* ===================================================================== *)
(** * Properties *)
(* ===================================================================== *)

(** ** Test vectors of SHA-256 *)

Example sha256_empty :
  Sha256.hexdigest [] =
  "e3b0c44298fc1c149afbf4c8996fb92427ae41e4649b934ca495991b7852b855".
Proof. vm_compute. reflexivity. Qed.

Example sha256_two_blocks :
  Sha256.hexdigest
    (list_byte_of_string
       "abcdbcdecdefdefgefghfghighijhijkijkljklmklmnlmnomnopnopq") =
  "248d6a61d20638b8e5c026930c3e6039a33ce45964ff2167f6ecedd419db06c1".
Proof. vm_compute. reflexivity. Qed.

Example sha256_abc :
  Sha256.hexdigest (list_byte_of_string "abc") =
  "ba7816bf8f01cfea414140de5dae2223b00361a396177a9cb410ff61f20015ad".
Proof. vm_compute. reflexivity. Qed.

(** ** Test vectors of the text functions

    The digests are those that Python computes for
    [json.dumps(s).encode()], [s.encode("utf-8")] and
    [bytes(range(256)).hex().encode()], where [s] holds the code points
    U+0000 to U+00FF in order. *)

Fixpoint code_points (n : nat) : string :=
  match n with
  | O => EmptyString
  | S k => (code_points k ++ String (ascii_of_nat k) EmptyString)%string
  end.

Example dumps_all_code_points :
  Sha256.hexdigest (Utf8.encode (Json.dumps (JStr (code_points 256)))) =
  "26bdc3088cc7be1e609313d49183b218c778d93eda343dc5c777156fea7656f5".
Proof. vm_compute. reflexivity. Qed.

Example encode_all_code_points :
  Sha256.hexdigest (Utf8.encode (code_points 256)) =
  "9799e3eb6096a48f515a94324200b7af24251a4131eccf9a2cd65d012a1f5c71".
Proof. vm_compute. reflexivity. Qed.

Example hex_all_bytes :
  Sha256.hexdigest
    (Utf8.encode (Hex.hex (map Hex.byte_of_N (map N.of_nat (seq 0 256))))) =
  "27c42d288cbbe6d00a4271cfd2ffece908818b629437be956bb70e2a20ac20b8".
Proof. vm_compute. reflexivity. Qed.

Example fromhex_skips_white_space :
  Hex.fromhex " de AD be ef " =
  Ok (map Hex.byte_of_N [222; 173; 190; 239]%N).
Proof. vm_compute. reflexivity. Qed.

Example fromhex_odd_length :
  Hex.fromhex "abc" =
  Raise (ValueError
           "non-hexadecimal number found in fromhex() arg at position 3").
Proof. vm_compute. reflexivity. Qed.

Example loads_white_space :
  Json.loads " [1 , -2,[ ] , {} , -0, null] " =
  Ok (JList [JInt 1; JInt (-2); JList []; JDict []; JInt 0; JNull]).
Proof. vm_compute. reflexivity. Qed.

Example loads_leading_zero : Json.loads "[01]" = Raise JSONDecodeError.
Proof. vm_compute. reflexivity. Qed.

(** ** The ledger *)

Section LedgerFacts.

Import Backend.

(** A ledger made by the class always holds the genesis block. *)
Lemma reachable_has_head (bc : Blockchain) :
  reachable bc -> exists prev, last (chain bc) = Some prev.
Proof.
  induction 1 as [now | tx bc Hr IH | now bc bc' b Hr IH Hm].
  - eexists. cbn. reflexivity.
  - exact IH.
  - unfold mine in Hm. destruct IH as [prev Hprev]. rewrite Hprev in Hm.
    inversion Hm; subst. eexists. cbn. apply last_snoc.
Qed.

(** [mine] succeeds exactly when the chain has a head, and then does the
    same thing whatever the pending list holds. *)
Lemma mine_with_head (now : string) (bc : Blockchain) (prev : Block) :
  last (chain bc) = Some prev ->
  mine now bc =
    Ok (Block_init (index prev + 1) now (Transactions (current_tx bc))
          (hash prev),
        {| chain := chain bc ++
                    [Block_init (index prev + 1) now
                       (Transactions (current_tx bc)) (hash prev)];
           current_tx := [] |}).
Proof. intros H. unfold mine. rewrite H. reflexivity. Qed.

End LedgerFacts.

(** C2. On a ledger with a non-empty pending pool, [mine] returns a new
    block whose index is the head's index plus one, whose [prev_hash] is
    the head's stored hash and whose data is the pending transactions in
    insertion order; the block is appended to the chain, whose length grows
    by exactly one, and the pending pool is emptied. *)
Theorem mine_commits_pending (now : string) (bc : Backend.Blockchain) :
  Backend.reachable bc ->
  Backend.current_tx bc <> [] ->
  exists prev blk bc',
    last (Backend.chain bc) = Some prev /\
    Backend.mine now bc = Ok (blk, bc') /\
    Backend.index blk = (Backend.index prev + 1)%Z /\
    Backend.timestamp blk = now /\
    Backend.prev_hash blk = Backend.hash prev /\
    Backend.data blk = Backend.Transactions (Backend.current_tx bc) /\
    Backend.chain bc' = Backend.chain bc ++ [blk] /\
    length (Backend.chain bc') = S (length (Backend.chain bc)) /\
    Backend.current_tx bc' = [].
Proof.
  intros Hr _.
  destruct (reachable_has_head bc Hr) as [prev Hprev].
  eexists prev, _, _.
  split; [exact Hprev|].
  split; [apply mine_with_head; exact Hprev|].
  cbn. repeat split; try reflexivity.
  rewrite length_app. cbn. lia.
Qed.

Definition sample_tx : Backend.Tx :=
  Backend.mkTx "000000000000000000000000" "abcd" "AUTO_SAFE"
    (Some "NY-ABC1234") None.

Lemma mine_commits_pending_witness :
  exists prev blk bc',
    let bc := Backend.add_tx sample_tx (Backend.Blockchain_init "2025-01-01T00:00:00") in
    last (Backend.chain bc) = Some prev /\
    Backend.mine "2025-01-01T00:01:00" bc = Ok (blk, bc') /\
    Backend.index blk = (Backend.index prev + 1)%Z /\
    Backend.timestamp blk = "2025-01-01T00:01:00" /\
    Backend.prev_hash blk = Backend.hash prev /\
    Backend.data blk = Backend.Transactions (Backend.current_tx bc) /\
    Backend.chain bc' = Backend.chain bc ++ [blk] /\
    length (Backend.chain bc') = S (length (Backend.chain bc)) /\
    Backend.current_tx bc' = [].
Proof.
  apply (mine_commits_pending "2025-01-01T00:01:00"
           (Backend.add_tx sample_tx
              (Backend.Blockchain_init "2025-01-01T00:00:00"))).
  - apply Backend.reach_add_tx, Backend.reach_init.
  - cbn. discriminate.
Defined.

(** C5, as the code has it.  [add_tx] appends every transaction to the
    pending pool, whatever its driver response, and leaves the chain
    alone; it has no failure case. *)
Theorem add_tx_appends (tx : Backend.Tx) (bc : Backend.Blockchain) :
  Backend.current_tx (Backend.add_tx tx bc) = Backend.current_tx bc ++ [tx] /\
  Backend.chain (Backend.add_tx tx bc) = Backend.chain bc.
Proof. split; reflexivity. Qed.

Definition rejected_tx : Backend.Tx :=
  Backend.mkTx "0102030405060708090a0b0c" "abcd" "REJECTED"
    (Some "NY-ABC1234") (Some "Times Square").

(** C5, counterexample.  A REJECTED transaction handed to [add_tx] on a
    fresh ledger is not refused: it ends up in the pending pool, which is
    therefore not left unchanged. *)
Lemma add_tx_accepts_rejected :
  let bc := Backend.Blockchain_init "2025-01-01T00:00:00" in
  Backend.driver_response rejected_tx = App.REJECTED /\
  Backend.current_tx bc = [] /\
  Backend.current_tx (Backend.add_tx rejected_tx bc) = [rejected_tx] /\
  Backend.current_tx (Backend.add_tx rejected_tx bc) <> Backend.current_tx bc.
Proof. cbn. repeat split. discriminate. Qed.

(** C6, as the code has it.  [mine] does not look at the pending pool: on
    an empty pool it still appends a block, one with an empty transaction
    list, and the chain grows by one.  The check for an empty pool is in
    the "Mine Block" handler of the script, which then leaves the whole
    session, and so the chain, as it is. *)
Theorem mine_empty_pool (now : string) (s : App.Session) :
  Backend.reachable (App.bc s) ->
  Backend.current_tx (App.bc s) = [] ->
  App.step_mine (App.MineBlock now) s = s /\
  exists blk bc',
    Backend.mine now (App.bc s) = Ok (blk, bc') /\
    Backend.data blk = Backend.Transactions [] /\
    Backend.chain bc' = Backend.chain (App.bc s) ++ [blk] /\
    length (Backend.chain bc') = S (length (Backend.chain (App.bc s))).
Proof.
  intros Hr Hempty. split.
  - unfold App.step_mine. rewrite Hempty. reflexivity.
  - destruct (reachable_has_head _ Hr) as [prev Hprev].
    eexists _, _. split; [apply mine_with_head; exact Hprev|].
    cbn. rewrite Hempty. repeat split.
    rewrite length_app. cbn. lia.
Qed.

Lemma mine_empty_pool_witness :
  let s := App.initial_session "2025-01-01T00:00:00" in
  App.step_mine (App.MineBlock "2025-01-01T00:01:00") s = s /\
  exists blk bc',
    Backend.mine "2025-01-01T00:01:00" (App.bc s) = Ok (blk, bc') /\
    Backend.data blk = Backend.Transactions [] /\
    Backend.chain bc' = Backend.chain (App.bc s) ++ [blk] /\
    length (Backend.chain bc') = S (length (Backend.chain (App.bc s))).
Proof.
  apply (mine_empty_pool "2025-01-01T00:01:00"
           (App.initial_session "2025-01-01T00:00:00")).
  - apply Backend.reach_init.
  - reflexivity.
Defined.

(** C6, counterexample.  [mine] on a fresh ledger, whose pending pool is
    empty, raises nothing: it returns a block and the chain goes from one
    block to two. *)
Lemma empty_pool_mine_grows_chain :
  let bc := Backend.Blockchain_init "2025-01-01T00:00:00" in
  Backend.current_tx bc = [] /\
  length (Backend.chain bc) = 1 /\
  exists blk bc',
    Backend.mine "2025-01-01T00:01:00" bc = Ok (blk, bc') /\
    Backend.data blk = Backend.Transactions [] /\
    length (Backend.chain bc') = 2.
Proof.
  intros bc. split; [reflexivity|]. split; [reflexivity|].
  eexists _, _. split; [apply mine_with_head; reflexivity|].
  split; reflexivity.
Qed.

(** ** The dispatch invariant *)

Section Dispatch.

Import Backend App.

Definition not_rejected (tx : Tx) : Prop :=
  Backend.driver_response tx <> REJECTED.

(** No block of the chain carries a REJECTED transaction. *)
Definition chain_clean (l : Blockchain) : Prop :=
  Forall (fun b => Forall not_rejected (block_txs (data b))) (chain l).

(** Neither does the pending pool. *)
Definition pool_clean (l : Blockchain) : Prop :=
  Forall not_rejected (current_tx l).

(** The quarantine list holds REJECTED transactions only. *)
Definition quarantine_rejected (s : Session) : Prop :=
  Forall (fun tx => Backend.driver_response tx = REJECTED) (rejected_cases s).

Definition dispatch_inv (s : Session) : Prop :=
  chain_clean (bc s) /\ pool_clean (bc s) /\ quarantine_rejected s.

Lemma initial_session_inv (now : string) :
  dispatch_inv (initial_session now).
Proof.
  repeat split.
  - repeat constructor.
  - constructor.
  - constructor.
Qed.

Lemma step_load_inv (c : Click) (s : Session) :
  dispatch_inv s -> dispatch_inv (step_load c s).
Proof. destruct c; auto. Qed.

Lemma step_decide_inv (c : Click) (s : Session) :
  dispatch_inv s -> dispatch_inv (step_decide c s).
Proof.
  unfold step_decide. destruct c; auto. destruct (current_event s); auto.
Qed.

Lemma step_response_inv (c : Click) (s : Session) :
  dispatch_inv s -> dispatch_inv (step_response c s).
Proof.
  unfold step_response. destruct (current_decision s) as [dec|]; auto.
  destruct (negb (overspeed dec)); auto. destruct c; auto.
Qed.

(** The dispatch: the response written into the transaction is the one
    the branch tests, so each branch keeps its store in order. *)
Lemma step_save_inv (c : Click) (s : Session) :
  dispatch_inv s -> dispatch_inv (step_save c s).
Proof.
  intros (Hchain & Hpool & Hq). unfold step_save.
  destruct c as [ | | | | | n ct | ]; try (repeat split; assumption).
  destruct (negb (truthy (App.driver_response s)));
    [repeat split; assumption|].
  destruct (String.eqb_spec
              (Backend.driver_response (build_tx n ct s)) REJECTED)
    as [Heq | Hne].
  - repeat split; try assumption.
    unfold quarantine_rejected. cbn [rejected_cases].
    apply Forall_app. split; [exact Hq | repeat constructor; exact Heq].
  - repeat split; try assumption.
    unfold pool_clean. cbn [bc add_tx current_tx].
    apply Forall_app. split; [exact Hpool | repeat constructor; exact Hne].
Qed.

(** Mining moves the pending pool, as it is, into the new block. *)
Lemma mine_inv (now : string) (l l' : Blockchain) (b : Block) :
  chain_clean l -> pool_clean l -> mine now l = Ok (b, l') ->
  chain_clean l' /\ pool_clean l'.
Proof.
  intros Hchain Hpool Hm. unfold mine in Hm.
  destruct (last (chain l)) as [prev|]; [|discriminate].
  inversion Hm; subst; clear Hm. split.
  - unfold chain_clean. cbn [chain].
    apply Forall_app. split; [exact Hchain|].
    constructor; [exact Hpool | constructor].
  - constructor.
Qed.

Lemma step_mine_inv (c : Click) (s : Session) :
  dispatch_inv s -> dispatch_inv (step_mine c s).
Proof.
  intros (Hchain & Hpool & Hq). unfold step_mine.
  destruct c as [ | | | | | | now]; try (repeat split; assumption).
  destruct (current_tx (bc s)) eqn:Htx; [repeat split; assumption|].
  destruct (mine now (bc s)) as [[b l']|e] eqn:Hm;
    [|repeat split; assumption].
  destruct (mine_inv now (bc s) l' b Hchain Hpool Hm) as [H1 H2].
  repeat split; assumption.
Qed.

Lemma rerun_inv (c : Click) (s : Session) :
  dispatch_inv s -> dispatch_inv (rerun c s).
Proof.
  intros H. unfold rerun.
  apply step_mine_inv, step_save_inv, step_response_inv, step_decide_inv,
    step_load_inv, H.
Qed.

Lemma run_inv (clicks : list Click) (s : Session) :
  dispatch_inv s -> dispatch_inv (run clicks s).
Proof.
  revert s. induction clicks as [|c clicks IH]; intros s H; [exact H|].
  cbn. apply IH, rerun_inv, H.
Qed.

(** What one "Encrypt & Save" run does with a session whose response is
    REJECTED and whose decision flags overspeed: the ledger is untouched
    and the transaction is appended to the quarantine list. *)
Lemma rerun_save_rejected (n ct : string) (s : Session) (dec : Decision) :
  current_decision s = Some dec -> overspeed dec = true ->
  App.driver_response s = Some REJECTED ->
  bc (rerun (EncryptSave n ct) s) = bc s /\
  rejected_cases (rerun (EncryptSave n ct) s) =
    rejected_cases s ++ [build_tx n ct s].
Proof.
  intros Hdec Hover Hresp.
  assert (Hb : Backend.driver_response (build_tx n ct s) = REJECTED).
  { unfold build_tx. rewrite Hresp. reflexivity. }
  unfold rerun. cbn [step_load step_decide].
  unfold step_response. rewrite Hdec, Hover. cbn [negb].
  unfold step_save. rewrite Hresp, Hb.
  split; reflexivity.
Qed.

(** A REJECTED response is only ever recorded against a decision that
    flags overspeed. *)
Definition response_inv (s : Session) : Prop :=
  App.driver_response s = Some REJECTED ->
  exists dec, current_decision s = Some dec /\ overspeed dec = true.

Lemma rerun_response_inv (c : Click) (s : Session) :
  response_inv s -> response_inv (rerun c s).
Proof.
  intros H. unfold rerun.
  assert (H1 : response_inv (step_load c s)).
  { destruct c; try exact H. intros Hr. discriminate Hr. }
  assert (H2 : response_inv (step_decide c (step_load c s))).
  { revert H1. generalize (step_load c s) as s1. intros s1 H1.
    unfold step_decide. destruct c; try exact H1.
    destruct (current_event s1); [|exact H1].
    intros Hr. discriminate Hr. }
  assert (H3 : response_inv
                 (step_response c (step_decide c (step_load c s)))).
  { revert H2. generalize (step_decide c (step_load c s)) as s2.
    intros s2 H2. unfold step_response.
    destruct (current_decision s2) as [dec|] eqn:Hdec; [|exact H2].
    destruct (overspeed dec) eqn:Hover; cbn [negb].
    - destruct c; try exact H2; intros _; exists dec; split;
        solve [exact Hdec | exact Hover].
    - intros Hr. discriminate Hr. }
  revert H3.
  generalize (step_response c (step_decide c (step_load c s))) as s3.
  intros s3 H3.
  assert (H4 : response_inv (step_save c s3)).
  { unfold step_save. destruct c; try exact H3.
    destruct (negb (truthy (App.driver_response s3))); [exact H3|].
    destruct (String.eqb _ _); exact H3. }
  revert H4. generalize (step_save c s3) as s4. intros s4 H4.
  unfold step_mine. destruct c; try exact H4.
  destruct (current_tx (bc s4)); [exact H4|].
  destruct (mine now (bc s4)) as [[b l']|e]; exact H4.
Qed.

Lemma run_response_inv (clicks : list Click) (s : Session) :
  response_inv s -> response_inv (run clicks s).
Proof.
  revert s. induction clicks as [|c clicks IH]; intros s H; [exact H|].
  cbn. apply IH, rerun_response_inv, H.
Qed.

End Dispatch.

(** C1. In every state that the session can reach (any sequence of runs of
    the script from its first run), no block of the chain contains a
    transaction whose driver response is REJECTED, nor does the pending
    pool from which [mine] fills the blocks; the transactions of the
    quarantine list are the REJECTED ones, and saving a transaction while
    the response is REJECTED appends it to the quarantine list and leaves
    the ledger untouched. *)
Theorem no_rejected_on_chain (now : string) (clicks : list App.Click) :
  let s := App.run clicks (App.initial_session now) in
  (forall b tx,
      In b (Backend.chain (App.bc s)) ->
      In tx (Backend.block_txs (Backend.data b)) ->
      Backend.driver_response tx <> App.REJECTED) /\
  (forall tx,
      In tx (Backend.current_tx (App.bc s)) ->
      Backend.driver_response tx <> App.REJECTED) /\
  (forall tx,
      In tx (App.rejected_cases s) ->
      Backend.driver_response tx = App.REJECTED) /\
  (forall nonce_hex ciphertext_hex,
      App.driver_response s = Some App.REJECTED ->
      let s' := App.rerun (App.EncryptSave nonce_hex ciphertext_hex) s in
      App.bc s' = App.bc s /\
      App.rejected_cases s' =
        App.rejected_cases s ++ [App.build_tx nonce_hex ciphertext_hex s]).
Proof.
  intros s.
  destruct (run_inv clicks _ (initial_session_inv now)) as (Hc & Hp & Hq).
  fold s in Hc, Hp, Hq.
  split; [|split; [|split]]; cycle 3.
  - intros n ct Hresp.
    assert (Hinv : response_inv s).
    { apply run_response_inv. intros Hr. discriminate Hr. }
    destruct (Hinv Hresp) as (dec & Hdec & Hover).
    exact (rerun_save_rejected n ct s dec Hdec Hover Hresp).
  - intros b tx Hb Htx.
    unfold chain_clean in Hc. rewrite List.Forall_forall in Hc.
    specialize (Hc b Hb). rewrite List.Forall_forall in Hc.
    exact (Hc tx Htx).
  - intros tx Htx. unfold pool_clean in Hp.
    rewrite List.Forall_forall in Hp. exact (Hp tx Htx).
  - intros tx Htx. unfold quarantine_rejected in Hq.
    rewrite List.Forall_forall in Hq. exact (Hq tx Htx).
Qed.

Definition overspeed_event : App.Event :=
  App.mkEvent (Some "NY-ABC1234") (Some "Times Square") 120 100.

Definition safe_event : App.Event :=
  App.mkEvent (Some "CA-XYZ9876") (Some "Wall Street") 80 100.

(** A session that rejects the guidance for one trip, saves it, then saves
    and mines an auto-approved one. *)
Definition sample_clicks : list App.Click :=
  [App.LoadEvent overspeed_event; App.DecisionEngine; App.RejectGuidance;
   App.EncryptSave "0102030405060708090a0b0c" "abcd";
   App.LoadEvent safe_event; App.DecisionEngine;
   App.EncryptSave "1112131415161718191a1b1c" "ef01";
   App.MineBlock "2025-01-01T00:01:00"].

Lemma no_rejected_on_chain_witness :
  let s := App.run sample_clicks (App.initial_session "2025-01-01T00:00:00") in
  (map (fun b => map Backend.driver_response
                   (Backend.block_txs (Backend.data b)))
     (Backend.chain (App.bc s)) = [[]; ["AUTO_SAFE"]] /\
   map Backend.driver_response (App.rejected_cases s) = ["REJECTED"]) /\
  (forall b tx,
      In b (Backend.chain (App.bc s)) ->
      In tx (Backend.block_txs (Backend.data b)) ->
      Backend.driver_response tx <> App.REJECTED).
Proof.
  split.
  - vm_compute. split; reflexivity.
  - apply (no_rejected_on_chain "2025-01-01T00:00:00" sample_clicks).
Defined.

(** ** Text and bytes *)

Section TextFacts.

Local Open Scope string_scope.

Lemma append_cancel_l (s a b : string) : s ++ a = s ++ b -> a = b.
Proof.
  induction s as [|c s IH]; cbn; intros H; [exact H|].
  inversion H. auto.
Qed.

Lemma utf8_char_roundtrip (c : ascii) (bs : list byte) :
  Utf8.decode (Utf8.encode_char c ++ bs)%list =
  let* s := Utf8.decode bs in Ok (String c s).
Proof.
  destruct c as [[] [] [] [] [] [] [] []]; reflexivity.
Qed.

(** Decoding undoes encoding. *)
Lemma utf8_roundtrip (s : string) : Utf8.decode (Utf8.encode s) = Ok s.
Proof.
  induction s as [|c s IH]; [reflexivity|].
  cbn [Utf8.encode]. rewrite utf8_char_roundtrip, IH. reflexivity.
Qed.

Lemma utf8_encode_inj (s t : string) :
  Utf8.encode s = Utf8.encode t -> s = t.
Proof.
  intros H. pose proof (utf8_roundtrip s) as Hs.
  rewrite H, utf8_roundtrip in Hs. congruence.
Qed.

End TextFacts.

(** ** Block hashes *)

Section HashFacts.

Import Backend.
Local Open Scope string_scope.

(** The text of [data], keys sorted. *)
Definition data_text (d : BlockData) : string :=
  Json.dumps (Json.sort_keys (data_json d)).

(** What [__init__] hashes: the four attributes, keys in sorted order. *)
Definition init_text (i : Z) (t : string) (d : BlockData) (p : string)
  : string :=
  "{" ++ Json.quote "data" ++ ": " ++ data_text d ++ ", "
      ++ Json.quote "index" ++ ": " ++ Json.string_of_Z i ++ ", "
      ++ Json.quote "prev_hash" ++ ": " ++ Json.quote p ++ ", "
      ++ Json.quote "timestamp" ++ ": " ++ Json.quote t ++ "}".

(** What [compute_hash] hashes on a constructed block: the same with the
    entry for [hash], which sorts between [data] and [index]. *)
Definition stored_text (b : Block) : string :=
  "{" ++ Json.quote "data" ++ ": " ++ data_text (data b) ++ ", "
      ++ Json.quote "hash" ++ ": " ++ Json.quote (hash b) ++ ", "
      ++ Json.quote "index" ++ ": " ++ Json.string_of_Z (index b) ++ ", "
      ++ Json.quote "prev_hash" ++ ": " ++ Json.quote (prev_hash b) ++ ", "
      ++ Json.quote "timestamp" ++ ": " ++ Json.quote (timestamp b) ++ "}".

Lemma dumps_dict_in_init (i : Z) (t : string) (d : BlockData) (p : string) :
  Json.dumps_sorted (JDict (dict_in_init i t d p)) = init_text i t d p.
Proof. reflexivity. Qed.

Lemma dumps_dict_of_block (b : Block) :
  Json.dumps_sorted (JDict (dict_of_block b)) = stored_text b.
Proof. reflexivity. Qed.

(** The two texts part ways right after the entry for [data]. *)
Lemma init_text_neq_stored_text (i : Z) (t : string) (d : BlockData)
      (p h : string) :
  init_text i t d p <> stored_text (mkBlock i t d p h).
Proof.
  unfold init_text, stored_text. cbn [index timestamp data prev_hash hash].
  intros H.
  apply (append_cancel_l "{") in H.
  apply (append_cancel_l (Json.quote "data")) in H.
  apply (append_cancel_l ": ") in H.
  apply (append_cancel_l (data_text d)) in H.
  apply (append_cancel_l ", ") in H.
  cbn in H. discriminate H.
Qed.

End HashFacts.

(** C4. The hash stored by [Block(index, timestamp, data, prev_hash)] is
    the SHA-256 digest of the JSON text of exactly these four attributes,
    keys sorted; the attribute [hash] is not among the hashed entries.
    Hence two blocks built from equal index, timestamp, data and prev_hash
    store equal hashes. *)
Theorem stored_hash_deterministic
    (i i' : Z) (t t' : string) (d d' : Backend.BlockData) (p p' : string) :
  i = i' -> t = t' -> d = d' -> p = p' ->
  Backend.hash (Backend.Block_init i t d p) =
    Backend.hash (Backend.Block_init i' t' d' p') /\
  Backend.hash (Backend.Block_init i t d p) =
    Sha256.hexdigest (Utf8.encode (init_text i t d p)) /\
  map fst (Backend.dict_in_init i t d p) =
    ["index"; "timestamp"; "data"; "prev_hash"].
Proof.
  intros -> -> -> ->. split; [reflexivity|]. split; [|reflexivity].
  cbn [Backend.hash Backend.Block_init]. unfold Backend.digest_of_dict.
  rewrite dumps_dict_in_init. reflexivity.
Qed.

Lemma stored_hash_deterministic_witness :
  Backend.hash (Backend.Block_init 0 "2025-01-01T00:00:00"
                  Backend.GenesisMarker "0") =
    "5355596b957552397fc43df57e58a48abb4a7cf6163bd7c752c3219feedf100c" /\
  Backend.hash (Backend.Block_init 0 "2025-01-01T00:00:00"
                  Backend.GenesisMarker "0") =
    Backend.hash (Backend.Block_init 0 "2025-01-01T00:00:00"
                    Backend.GenesisMarker "0").
Proof.
  split.
  - vm_compute. reflexivity.
  - apply (stored_hash_deterministic 0 0 "2025-01-01T00:00:00"
             "2025-01-01T00:00:00" Backend.GenesisMarker
             Backend.GenesisMarker "0" "0"); reflexivity.
Defined.

(** C10. On a constructed block [compute_hash] serialises five entries,
    the stored [hash] among them, so it digests a different text than
    [__init__] did: the stored hash and the recomputed one are the SHA-256
    digests of two different byte strings, and can only coincide through a
    collision of SHA-256. *)
Theorem recomputed_hash_digests_other_text
    (i : Z) (t : string) (d : Backend.BlockData) (p : string) :
  let b := Backend.Block_init i t d p in
  In ("hash", JStr (Backend.hash b)) (Backend.dict_of_block b) /\
  exists x y : list byte,
    x <> y /\
    Backend.hash b = Sha256.hexdigest x /\
    Backend.compute_hash b = Sha256.hexdigest y.
Proof.
  intros b. split.
  - unfold Backend.dict_of_block. apply in_or_app. right. left. reflexivity.
  - exists (Utf8.encode (init_text i t d p)), (Utf8.encode (stored_text b)).
    split; [|split].
    + intros H. apply utf8_encode_inj in H.
      exact (init_text_neq_stored_text i t d p (Backend.hash b) H).
    + reflexivity.
    + unfold Backend.compute_hash, Backend.digest_of_dict.
      rewrite dumps_dict_of_block. reflexivity.
Qed.

(** The genesis block of the reference run: what the constructor stored
    and what [compute_hash] returns on the finished object. *)
Lemma recomputed_hash_digests_other_text_witness :
  let b := Backend.Block_init 0 "2025-01-01T00:00:00"
             Backend.GenesisMarker "0" in
  (Backend.hash b =
     "5355596b957552397fc43df57e58a48abb4a7cf6163bd7c752c3219feedf100c" /\
   Backend.compute_hash b =
     "7a2661032a8a2c36e70955701d880f1ec9db004680147c38f55939406f091e0b") /\
  exists x y : list byte,
    x <> y /\
    Backend.hash b = Sha256.hexdigest x /\
    Backend.compute_hash b = Sha256.hexdigest y.
Proof.
  split.
  - vm_compute. split; reflexivity.
  - apply (recomputed_hash_digests_other_text 0 "2025-01-01T00:00:00"
             Backend.GenesisMarker "0").
Defined.

(** ** JSON text read back *)

Section JsonFacts.

Import Json.
Local Open Scope string_scope.

Lemma append_cons (c : ascii) (s t : string) :
  String c s ++ t = String c (s ++ t).
Proof. reflexivity. Qed.

Lemma append_nil_r (s : string) : s ++ EmptyString = s.
Proof.
  induction s as [|c s IH]; [reflexivity|].
  rewrite append_cons. f_equal. exact IH.
Qed.

Lemma append_assoc (a b c : string) : (a ++ b) ++ c = a ++ (b ++ c).
Proof.
  induction a as [|x a IH]; [reflexivity|].
  rewrite !append_cons. f_equal. exact IH.
Qed.

Lemma length_append (a b : string) :
  String.length (a ++ b) = (String.length a + String.length b)%nat.
Proof.
  induction a as [|x a IH]; [reflexivity|].
  rewrite append_cons. cbn [String.length]. rewrite IH. reflexivity.
Qed.

(** *** Strings *)

Lemma scan_string_escape_char (c : ascii) (t : string) :
  scan_string (escape_char c ++ t) =
  let* (body, rest) := scan_string t in Ok (String c body, rest).
Proof.
  destruct c as [[] [] [] [] [] [] [] []]; reflexivity.
Qed.

Lemma scan_string_escape (s rest : string) :
  scan_string (escape s ++ String dquote rest) = Ok (s, rest).
Proof.
  induction s as [|c s IH]; [reflexivity|].
  cbn [escape]. rewrite append_assoc, scan_string_escape_char, IH.
  reflexivity.
Qed.

(** *** Numbers *)

(** A separator, a closing bracket or the end of the text. *)
Definition delimited (rest : string) : bool :=
  match rest with
  | EmptyString => true
  | String c _ =>
      let n := N_of_ascii c in
      (n =? 44)%N || (n =? 93)%N || (n =? 125)%N
  end.

Lemma delimited_not_float (rest : string) :
  delimited rest = true -> float_follows rest = false.
Proof.
  destruct rest as [|c rest]; [reflexivity|].
  destruct c as [[] [] [] [] [] [] [] []]; cbn; intros H;
    solve [reflexivity | discriminate H].
Qed.

Lemma delimited_no_digit (rest : string) :
  delimited rest = true -> take_digits rest = (EmptyString, rest).
Proof.
  destruct rest as [|c rest]; [reflexivity|].
  destruct c as [[] [] [] [] [] [] [] []]; cbn; intros H;
    solve [reflexivity | discriminate H].
Qed.

Lemma take_digits_uint (d : Decimal.uint) (rest : string) :
  delimited rest = true ->
  take_digits (NilEmpty.string_of_uint d ++ rest) =
    (NilEmpty.string_of_uint d, rest).
Proof.
  intros H. induction d; cbn [NilEmpty.string_of_uint];
    [exact (delimited_no_digit rest H) | ..];
    rewrite append_cons; cbn [take_digits]; rewrite IHd; reflexivity.
Qed.

(** The decimal digits of a positive number: not empty, no leading zero. *)
Lemma pos_digits_head (p : positive) :
  exists c t,
    NilEmpty.string_of_uint (Pos.to_uint p) = String c t /\
    is_digit c = true /\ (N_of_ascii c =? 48)%N = false.
Proof.
  pose proof (DecimalPos.Unsigned.to_of (Pos.to_uint p)) as Hn.
  rewrite DecimalPos.Unsigned.of_to in Hn. cbn [N.to_uint] in Hn.
  pose proof (DecimalPos.Unsigned.to_uint_nonzero p) as Hz.
  destruct (Pos.to_uint p) as [|d|d|d|d|d|d|d|d|d|d] eqn:Hd;
    cbn [NilEmpty.string_of_uint];
    try (eexists _, _; repeat split; reflexivity).
  - exfalso. exact (DecimalPos.Unsigned.to_uint_nonnil p Hd).
  - exfalso. rewrite DecimalFacts.unorm_D0 in Hn.
    unfold Decimal.unorm in Hn.
    destruct (Decimal.nzhead d) eqn:Hh;
      try (symmetry in Hn; rewrite <- Hh in Hn;
           exact (DecimalFacts.nzhead_nonzero d d Hn)).
    apply Hz. rewrite Hn. reflexivity.
Qed.

Lemma scan_number_int (z : Z) (rest : string) :
  delimited rest = true ->
  scan_number (string_of_Z z ++ rest) = Ok (JInt z, rest).
Proof.
  intros Hd. pose proof (delimited_not_float rest Hd) as Hf.
  assert (Hpos : forall (neg : bool) (p : positive),
             (let (ds, r) :=
                take_digits (NilEmpty.string_of_uint (Pos.to_uint p) ++ rest)
              in int_of_digits neg ds r) =
             Ok (JInt (if neg then Z.neg p else Z.pos p), rest)).
  { intros neg p. rewrite take_digits_uint by exact Hd.
    unfold int_of_digits. rewrite Hf.
    replace (NilEmpty.string_of_uint (Pos.to_uint p))
      with (NilZero.string_of_uint (Pos.to_uint p)).
    2:{ unfold NilZero.string_of_uint.
        destruct (Pos.to_uint p) eqn:E; try reflexivity.
        exfalso. exact (DecimalPos.Unsigned.to_uint_nonnil p E). }
    rewrite NilZero.usu by apply DecimalPos.Unsigned.to_uint_nonnil.
    unfold Z.of_uint. rewrite DecimalPos.Unsigned.of_to.
    destruct neg; reflexivity. }
  destruct z as [|p|p]; unfold string_of_Z; cbn [Z.to_int NilZero.string_of_int].
  - change (scan_number (String "0" rest) = Ok (JInt 0, rest)).
    clear Hpos. destruct rest as [|c rest]; [reflexivity|].
    destruct c as [[] [] [] [] [] [] [] []];
      solve [discriminate Hd | reflexivity].
  - unfold NilZero.string_of_uint.
    destruct (pos_digits_head p) as (c & t & Hs & Hdig & Hnz).
    assert (Hnn : Pos.to_uint p <> Decimal.Nil)
      by apply DecimalPos.Unsigned.to_uint_nonnil.
    replace (match Pos.to_uint p with
             | Decimal.Nil => "0"
             | _ => NilEmpty.string_of_uint (Pos.to_uint p)
             end) with (NilEmpty.string_of_uint (Pos.to_uint p))
      by (destruct (Pos.to_uint p); [contradiction | reflexivity ..]).
    specialize (Hpos false p). rewrite Hs in *.
    rewrite append_cons in *. unfold scan_number.
    assert (Hm : (N_of_ascii c =? 45)%N = false).
    { clear - Hdig. destruct c as [[] [] [] [] [] [] [] []];
        solve [reflexivity | discriminate Hdig]. }
    cbv beta iota. rewrite Hm. cbv beta iota.
    rewrite Hnz, Hdig. exact Hpos.
  - unfold NilZero.string_of_uint.
    destruct (pos_digits_head p) as (c & t & Hs & Hdig & Hnz).
    assert (Hnn : Pos.to_uint p <> Decimal.Nil)
      by apply DecimalPos.Unsigned.to_uint_nonnil.
    replace (match Pos.to_uint p with
             | Decimal.Nil => "0"
             | _ => NilEmpty.string_of_uint (Pos.to_uint p)
             end) with (NilEmpty.string_of_uint (Pos.to_uint p))
      by (destruct (Pos.to_uint p); [contradiction | reflexivity ..]).
    specialize (Hpos true p). rewrite Hs in *.
    rewrite !append_cons in *. unfold scan_number.
    cbv beta iota. change (N_of_ascii "-" =? 45)%N with true.
    cbv beta iota. rewrite Hnz, Hdig. exact Hpos.
Qed.

(** A number starts with a minus sign or a digit. *)
Lemma string_of_Z_head (z : Z) :
  exists c t, string_of_Z z = String c t /\
              ((N_of_ascii c =? 45)%N || is_digit c) = true.
Proof.
  destruct z as [|p|p]; unfold string_of_Z;
    cbn [Z.to_int NilZero.string_of_int].
  - eexists _, _. split; reflexivity.
  - destruct (pos_digits_head p) as (c & t & Hs & Hdig & _).
    exists c, t. split.
    + unfold NilZero.string_of_uint. rewrite <- Hs.
      destruct (Pos.to_uint p) eqn:E; try reflexivity.
      exfalso. exact (DecimalPos.Unsigned.to_uint_nonnil p E).
    + rewrite Hdig. apply orb_true_r.
  - eexists _, _. split; reflexivity.
Qed.

(** *** Dictionaries *)

Lemma dict_set_fresh (k : string) (v : json) (d : list (string * json)) :
  existsb (String.eqb k) (map fst d) = false ->
  dict_set k v d = (d ++ [(k, v)])%list.
Proof.
  induction d as [|[k' v'] d IH]; [reflexivity|].
  cbn [map fst existsb dict_set]. intros H.
  apply orb_false_iff in H as [H1 H2]. rewrite H1.
  rewrite IH by exact H2. reflexivity.
Qed.

Lemma dict_of_pairs_distinct (pairs : list (string * json)) :
  distinct (map fst pairs) = true -> dict_of_pairs pairs = pairs.
Proof.
  unfold dict_of_pairs.
  enough (H : forall acc,
             distinct (map fst (acc ++ pairs)%list) = true ->
             fold_left (fun d kv => dict_set (fst kv) (snd kv) d) pairs acc =
             (acc ++ pairs)%list) by (intros Hd; exact (H [] Hd)).
  induction pairs as [|[k v] pairs IH]; intros acc Hd.
  - cbn. now rewrite app_nil_r.
  - cbn [fold_left fst snd].
    rewrite dict_set_fresh.
    + rewrite IH; rewrite <- app_assoc; [reflexivity | exact Hd].
    + clear IH. induction acc as [|[k' v'] acc IHacc]; [reflexivity|].
      cbn [map fst app distinct existsb] in *.
      apply andb_true_iff in Hd as [Hk Hd].
      rewrite (IHacc Hd), orb_false_r.
      apply negb_true_iff in Hk.
      rewrite map_app, existsb_app in Hk.
      apply orb_false_iff in Hk as [_ Hk]. cbn in Hk.
      apply orb_false_iff in Hk as [Hk _].
      rewrite String.eqb_sym. exact Hk.
Qed.

(** *** Values *)

(** Induction over values that reaches into lists and dictionaries. *)
Lemma json_nested_ind (P : json -> Prop) :
  P JNull -> (forall b, P (JBool b)) -> (forall z, P (JInt z)) ->
  (forall s, P (JStr s)) ->
  (forall items, Forall P items -> P (JList items)) ->
  (forall entries, Forall (fun e => P (snd e)) entries -> P (JDict entries)) ->
  forall v, P v.
Proof.
  intros Hnull Hbool Hint Hstr Hlist Hdict.
  fix IH 1. intros [ | b | z | s | items | entries].
  - exact Hnull.
  - apply Hbool.
  - apply Hint.
  - apply Hstr.
  - apply Hlist. induction items as [|x items IHitems]; constructor.
    + apply IH.
    + exact IHitems.
  - apply Hdict. induction entries as [|[k x] entries IHentries]; constructor.
    + apply IH.
    + exact IHentries.
Qed.

Lemma skip_ws_head (c : ascii) (t : string) :
  is_ws c = false -> skip_ws (String c t) = String c t.
Proof. intros H. cbn [skip_ws]. rewrite H. reflexivity. Qed.

Lemma skip_ws_space (t : string) : skip_ws (String " " t) = skip_ws t.
Proof. reflexivity. Qed.

(** The first character of the text of a value: not white space, not a
    closing bracket. *)
Definition opens_value (s : string) : Prop :=
  exists c t, s = String c t /\ is_ws c = false /\
              (N_of_ascii c =? 93)%N = false.

Lemma opens_value_append (s rest : string) :
  opens_value s -> opens_value (s ++ rest).
Proof.
  intros (c & t & -> & H1 & H2). exists c, (t ++ rest). auto.
Qed.

Lemma dumps_opens (v : json) : opens_value (dumps v).
Proof.
  destruct v as [ | [] | z | s | items | entries];
    try (eexists _, _; repeat split; reflexivity).
  destruct (string_of_Z_head z) as (c & t & Hs & Hc).
  exists c, t. split; [exact Hs|].
  clear Hs. destruct c as [[] [] [] [] [] [] [] []];
    solve [discriminate Hc | split; reflexivity].
Qed.

Lemma skip_ws_opens (s : string) : opens_value s -> skip_ws s = s.
Proof. intros (c & t & -> & H & _). apply skip_ws_head, H. Qed.

Lemma parse_value_eq (f : nat) (c : ascii) (s1 : string) :
  parse_value (S f) (String c s1) =
  match kind_of c with
  | KString => let* (body, rest) := scan_string s1 in Ok (JStr body, rest)
  | KObject =>
      match skip_ws s1 with
      | String c2 s2 =>
          if (N_of_ascii c2 =? 125)%N then Ok (JDict [], s2)
          else if (N_of_ascii c2 =? 34)%N then
            let* (pairs, rest) := parse_entries f s2 in
            Ok (JDict (dict_of_pairs pairs), rest)
          else Raise JSONDecodeError
      | EmptyString => Raise JSONDecodeError
      end
  | KArray =>
      match skip_ws s1 with
      | String c2 s2 =>
          if (N_of_ascii c2 =? 93)%N then Ok (JList [], s2)
          else
            let* (items, rest) := parse_items f (String c2 s2) in
            Ok (JList items, rest)
      | EmptyString => Raise JSONDecodeError
      end
  | KNull => scan_literal "null" JNull (String c s1)
  | KTrue => scan_literal "true" (JBool true) (String c s1)
  | KFalse => scan_literal "false" (JBool false) (String c s1)
  | KNumber => scan_number (String c s1)
  end.
Proof. reflexivity. Qed.

Lemma parse_items_eq (f : nat) (s : string) :
  parse_items (S f) s =
  let* (v, r1) := parse_value f s in
  match skip_ws r1 with
  | String c r2 =>
      if (N_of_ascii c =? 93)%N then Ok ([v], r2)
      else if (N_of_ascii c =? 44)%N then
        let* (vs, rest) := parse_items f (skip_ws r2) in
        Ok (v :: vs, rest)
      else Raise JSONDecodeError
  | EmptyString => Raise JSONDecodeError
  end.
Proof. reflexivity. Qed.

Lemma parse_entries_eq (f : nat) (s : string) :
  parse_entries (S f) s =
  let* (k, r1) := scan_string s in
  match skip_ws r1 with
  | String c r2 =>
      if (N_of_ascii c =? 58)%N then
        let* (v, r3) := parse_value f (skip_ws r2) in
        match skip_ws r3 with
        | String c' r4 =>
            if (N_of_ascii c' =? 125)%N then Ok ([(k, v)], r4)
            else if (N_of_ascii c' =? 44)%N then
              match skip_ws r4 with
              | String q r5 =>
                  if (N_of_ascii q =? 34)%N then
                    let* (es, rest) := parse_entries f r5 in
                    Ok ((k, v) :: es, rest)
                  else Raise JSONDecodeError
              | EmptyString => Raise JSONDecodeError
              end
            else Raise JSONDecodeError
        | EmptyString => Raise JSONDecodeError
        end
      else Raise JSONDecodeError
  | EmptyString => Raise JSONDecodeError
  end.
Proof. reflexivity. Qed.

(** What reading back the text of [v] means, for any fuel that covers
    the text and any continuation that ends the value. *)
Definition reads_back (v : json) : Prop :=
  well_formed v = true ->
  forall fuel rest,
    (String.length (dumps v) <= fuel)%nat ->
    delimited rest = true ->
    parse_value fuel (dumps v ++ rest) = Ok (v, rest).

Lemma join_cons2 {A : Type} (f : A -> string) (close : string)
      (x y : A) (l : list A) :
  join f close (x :: y :: l) = f x ++ ", " ++ join f close (y :: l).
Proof. reflexivity. Qed.

Lemma join_dumps_opens (x : json) (l : list json) :
  opens_value (join dumps "]" (x :: l)).
Proof.
  destruct l as [|y l].
  - apply opens_value_append, dumps_opens.
  - rewrite join_cons2. apply opens_value_append, dumps_opens.
Qed.

Lemma parse_items_dumps (l : list json) :
  Forall reads_back l -> forallb well_formed l = true -> l <> [] ->
  forall fuel rest,
    (String.length (join dumps "]" l) <= fuel)%nat ->
    parse_items fuel (join dumps "]" l ++ rest) = Ok (l, rest).
Proof.
  induction 1 as [|x l Hx Hl IH]; intros Hwf Hne fuel rest Hfuel;
    [contradiction|].
  cbn [forallb] in Hwf. apply andb_true_iff in Hwf as [Hwx Hwl].
  destruct l as [|y l].
  - change (join dumps "]" [x]) with (dumps x ++ "]") in *.
    rewrite length_append in Hfuel. cbn [String.length] in Hfuel.
    destruct fuel as [|f]; [lia|].
    rewrite append_assoc, parse_items_eq.
    rewrite (Hx Hwx f ("]" ++ rest)) by (reflexivity || lia).
    reflexivity.
  - rewrite join_cons2 in *.
    rewrite !length_append in Hfuel. cbn [String.length] in Hfuel.
    destruct fuel as [|f]; [lia|].
    rewrite !append_assoc, parse_items_eq.
    rewrite (Hx Hwx f (", " ++ join dumps "]" (y :: l) ++ rest))
      by (reflexivity || lia).
    change (", " ++ join dumps "]" (y :: l) ++ rest)
      with (String "," (String " " (join dumps "]" (y :: l) ++ rest))).
    cbv beta iota delta [bind].
    rewrite (skip_ws_head ","%char) by reflexivity.
    change (N_of_ascii "," =? 93)%N with false.
    change (N_of_ascii "," =? 44)%N with true.
    cbv beta iota.
    rewrite skip_ws_space.
    rewrite skip_ws_opens by apply opens_value_append, join_dumps_opens.
    rewrite (IH Hwl ltac:(discriminate) f rest) by lia.
    reflexivity.
Qed.

(** The text of an entry, and the same without its opening quote. *)
Definition entry_text (e : string * json) : string :=
  quote (fst e) ++ ": " ++ dumps (snd e).

Definition entry_tail (e : string * json) : string :=
  escape (fst e) ++ String dquote (": " ++ dumps (snd e)).

Lemma entry_text_tail (e : string * json) :
  entry_text e = String dquote (entry_tail e).
Proof.
  unfold entry_text, entry_tail, quote.
  rewrite append_cons, append_assoc. reflexivity.
Qed.

(** The entries of a dictionary without the opening quote of the first
    key. *)
Definition entries_tail (e : string * json) (l : list (string * json))
  : string :=
  match l with
  | [] => entry_tail e ++ "}"
  | _ :: _ => entry_tail e ++ ", " ++ join entry_text "}" l
  end.

Lemma join_entries_tail (e : string * json) (l : list (string * json)) :
  join entry_text "}" (e :: l) = String dquote (entries_tail e l).
Proof.
  destruct l as [|e' l].
  - change (join entry_text "}" [e]) with (entry_text e ++ "}").
    rewrite entry_text_tail. reflexivity.
  - rewrite join_cons2, entry_text_tail. reflexivity.
Qed.

Lemma entries_tail_cons (e e' : string * json) (l : list (string * json)) :
  entries_tail e (e' :: l) =
  entry_tail e ++ ", " ++ String dquote (entries_tail e' l).
Proof.
  unfold entries_tail at 1. rewrite join_entries_tail. reflexivity.
Qed.

Lemma parse_entries_dumps (e : string * json) (l : list (string * json)) :
  Forall (fun e => reads_back (snd e)) (e :: l) ->
  forallb (fun e => well_formed (snd e)) (e :: l) = true ->
  forall fuel rest,
    (String.length (entries_tail e l) <= fuel)%nat ->
    parse_entries fuel (entries_tail e l ++ rest) = Ok (e :: l, rest).
Proof.
  revert e. induction l as [|e' l IH]; intros [k v] Hall Hwf fuel rest Hfuel;
    inversion Hall as [|? ? Hv Hrest]; subst;
    cbn [forallb snd] in Hwf; apply andb_true_iff in Hwf as [Hwv Hwl];
    cbn [snd] in Hv.
  - unfold entries_tail, entry_tail in Hfuel |- *.
    cbn [fst snd] in Hfuel |- *.
    rewrite !length_append in Hfuel. cbn [String.length] in Hfuel.
    rewrite length_append in Hfuel. cbn [String.length] in Hfuel.
    destruct fuel as [|f]; [lia|].
    rewrite parse_entries_eq, !append_assoc, append_cons.
    rewrite scan_string_escape.
    change ((": " ++ dumps v) ++ "}" ++ rest)
      with (String ":" (String " " (dumps v ++ "}" ++ rest))).
    cbv beta iota delta [bind].
    rewrite (skip_ws_head (ascii_of_N 58)) by reflexivity.
    change (N_of_ascii ":" =? 58)%N with true. cbv beta iota.
    rewrite skip_ws_space.
    rewrite skip_ws_opens by apply opens_value_append, dumps_opens.
    rewrite (Hv Hwv f ("}" ++ rest)) by (reflexivity || lia).
    reflexivity.
  - rewrite entries_tail_cons in Hfuel |- *.
    unfold entry_tail in Hfuel |- *. cbn [fst snd] in Hfuel |- *.
    rewrite !length_append in Hfuel. cbn [String.length] in Hfuel.
    rewrite !length_append in Hfuel. cbn [String.length] in Hfuel.
    destruct fuel as [|f]; [lia|].
    rewrite parse_entries_eq, !append_assoc, append_cons.
    rewrite scan_string_escape.
    change ((": " ++ dumps v) ++
            ", " ++ String dquote (entries_tail e' l) ++ rest)
      with (String ":" (String " "
              (dumps v ++
               String "," (String " "
                 (String dquote (entries_tail e' l ++ rest)))))).
    cbv beta iota delta [bind].
    rewrite (skip_ws_head (ascii_of_N 58)) by reflexivity.
    change (N_of_ascii ":" =? 58)%N with true. cbv beta iota.
    rewrite skip_ws_space.
    rewrite skip_ws_opens by apply opens_value_append, dumps_opens.
    rewrite (Hv Hwv f) by (reflexivity || lia).
    cbv beta iota.
    rewrite (skip_ws_head ","%char) by reflexivity.
    change (N_of_ascii "," =? 125)%N with false.
    change (N_of_ascii "," =? 44)%N with true. cbv beta iota.
    rewrite skip_ws_space.
    rewrite (skip_ws_head dquote) by reflexivity.
    change (N_of_ascii dquote =? 34)%N with true. cbv beta iota.
    rewrite (IH e' Hrest Hwl f rest) by lia.
    reflexivity.
Qed.

Lemma dumps_dict_text (entries : list (string * json)) :
  dumps (JDict entries) = "{" ++ join entry_text "}" entries.
Proof. reflexivity. Qed.

Lemma dumps_list_text (items : list json) :
  dumps (JList items) = "[" ++ join dumps "]" items.
Proof. reflexivity. Qed.

(** Every well-formed value is read back from its text. *)
Lemma parse_value_dumps (v : json) : reads_back v.
Proof.
  induction v as [ | b | z | s | items IH | entries IH]
    using json_nested_ind; intros Hwf fuel rest Hfuel Hdelim.
  - destruct fuel as [|f]; [cbn in Hfuel; lia | reflexivity].
  - destruct fuel as [|f]; [destruct b; cbn in Hfuel; lia|].
    destruct b; reflexivity.
  - destruct (string_of_Z_head z) as (c & t & Hs & Hc).
    change (dumps (JInt z)) with (string_of_Z z) in *.
    destruct fuel as [|f]; [rewrite Hs in Hfuel; cbn in Hfuel; lia|].
    assert (Hk : kind_of c = KNumber).
    { clear - Hc. destruct c as [[] [] [] [] [] [] [] []];
        solve [discriminate Hc | reflexivity]. }
    pose proof (scan_number_int z rest Hdelim) as Hn.
    rewrite Hs in *. rewrite append_cons in *.
    rewrite parse_value_eq, Hk. exact Hn.
  - change (dumps (JStr s)) with (quote s) in *. unfold quote in *.
    destruct fuel as [|f]; [cbn in Hfuel; lia|].
    rewrite append_cons, parse_value_eq.
    change (kind_of dquote) with KString. cbv beta iota.
    rewrite append_assoc, append_cons.
    change (EmptyString ++ rest) with rest.
    rewrite scan_string_escape. reflexivity.
  - rewrite dumps_list_text in *. rewrite append_cons in *.
    cbn [String.length] in Hfuel.
    destruct fuel as [|f]; [lia|].
    rewrite append_cons, parse_value_eq.
    change (kind_of "[") with KArray. cbv beta iota.
    change (EmptyString ++ join dumps "]" items) with (join dumps "]" items) in *.
    destruct items as [|x items]; [reflexivity|].
    pose proof (opens_value_append _ rest (join_dumps_opens x items))
      as (c & t & Hs & Hws & Hc).
    rewrite (skip_ws_opens _ (opens_value_append _ rest
                                (join_dumps_opens x items))).
    rewrite Hs, Hc, <- Hs.
    rewrite (parse_items_dumps (x :: items) IH Hwf ltac:(discriminate))
      by lia.
    reflexivity.
  - rewrite dumps_dict_text in *. rewrite append_cons in *.
    cbn [String.length] in Hfuel.
    destruct fuel as [|f]; [lia|].
    rewrite append_cons, parse_value_eq.
    change (kind_of "{") with KObject. cbv beta iota.
    change (EmptyString ++ join entry_text "}" entries)
      with (join entry_text "}" entries) in *.
    destruct entries as [|e entries]; [reflexivity|].
    cbn [well_formed] in Hwf. apply andb_true_iff in Hwf as [Hdist Hwf].
    rewrite join_entries_tail in *. rewrite append_cons.
    cbn [String.length] in Hfuel.
    rewrite (skip_ws_head dquote) by reflexivity.
    change (N_of_ascii dquote =? 125)%N with false.
    change (N_of_ascii dquote =? 34)%N with true. cbv beta iota.
    rewrite (parse_entries_dumps e entries IH Hwf) by lia.
    cbv beta iota delta [bind].
    rewrite (dict_of_pairs_distinct _ Hdist). reflexivity.
Qed.

(** [json.loads(json.dumps(v))] is [v]. *)
Lemma loads_dumps (v : json) :
  well_formed v = true -> loads (dumps v) = Ok v.
Proof.
  intros Hwf. unfold loads.
  rewrite (skip_ws_opens _ (dumps_opens v)).
  pose proof (parse_value_dumps v Hwf (String.length (dumps v)) EmptyString
                (Nat.le_refl _) eq_refl) as H.
  rewrite append_nil_r in H. rewrite H. reflexivity.
Qed.

End JsonFacts.

(** ** Changed block data *)

Section TamperFacts.

Import Backend.
Local Open Scope string_scope.

Lemma append_cancel_r (a b r : string) : a ++ r = b ++ r -> a = b.
Proof.
  revert b. induction a as [|x a IH]; intros [|y b] H.
  - reflexivity.
  - change (EmptyString ++ r) with r in H.
    apply (f_equal String.length) in H.
    rewrite append_cons in H. cbn [String.length] in H.
    rewrite length_append in H. lia.
  - change (EmptyString ++ r) with r in H.
    apply (f_equal String.length) in H.
    rewrite append_cons in H. cbn [String.length] in H.
    rewrite length_append in H. lia.
  - rewrite !append_cons in H. injection H as -> H.
    f_equal. apply IH, H.
Qed.

Lemma dumps_inj (v w : json) :
  Json.well_formed v = true -> Json.well_formed w = true ->
  Json.dumps v = Json.dumps w -> v = w.
Proof.
  intros Hv Hw H. apply (f_equal Json.loads) in H.
  rewrite !loads_dumps in H by assumption. congruence.
Qed.

(** A transaction with its keys in sorted order. *)
Definition sorted_tx_json (tx : Tx) : json :=
  JDict [("ciphertext", JStr (ciphertext tx));
         ("driver_response", JStr (driver_response tx));
         ("exit_point", json_of_option (exit_point tx));
         ("nonce", JStr (nonce tx));
         ("vehicle", json_of_option (vehicle tx))].

Lemma sort_keys_tx (tx : Tx) : Json.sort_keys (tx_json tx) = sorted_tx_json tx.
Proof. destruct tx as [n c r [v|] [x|]]; reflexivity. Qed.

Lemma sorted_tx_json_well_formed (tx : Tx) :
  Json.well_formed (sorted_tx_json tx) = true.
Proof. destruct tx as [n c r [v|] [x|]]; reflexivity. Qed.

Lemma json_of_option_inj (a b : option string) :
  json_of_option a = json_of_option b -> a = b.
Proof. destruct a, b; cbn; congruence. Qed.

Lemma sorted_tx_json_inj (a b : Tx) :
  sorted_tx_json a = sorted_tx_json b -> a = b.
Proof.
  destruct a, b. unfold sorted_tx_json. cbn [nonce ciphertext driver_response
    vehicle exit_point]. intros [= -> -> Hx -> Hv].
  apply json_of_option_inj in Hx, Hv. congruence.
Qed.

Lemma sort_keys_data (d : BlockData) :
  Json.sort_keys (data_json d) =
  match d with
  | GenesisMarker => JDict [("msg", JStr "Genesis Block")]
  | Transactions txs => JList (map sorted_tx_json txs)
  end.
Proof.
  destruct d as [|txs]; [reflexivity|].
  cbn [data_json Json.sort_keys]. f_equal.
  rewrite map_map. apply map_ext. intros tx. apply sort_keys_tx.
Qed.

Lemma sorted_data_well_formed (d : BlockData) :
  Json.well_formed (Json.sort_keys (data_json d)) = true.
Proof.
  rewrite sort_keys_data. destruct d as [|txs]; [reflexivity|].
  cbn [Json.well_formed]. induction txs as [|tx txs IH]; [reflexivity|].
  cbn [map forallb]. rewrite sorted_tx_json_well_formed. exact IH.
Qed.

(** The text of [data] tells the data apart. *)
Lemma data_text_inj (d d' : BlockData) : data_text d = data_text d' -> d = d'.
Proof.
  intros H. unfold data_text in H.
  apply dumps_inj in H; try apply sorted_data_well_formed.
  rewrite !sort_keys_data in H.
  destruct d as [|txs], d' as [|txs']; try discriminate H; [reflexivity|].
  injection H as H. f_equal.
  revert txs' H. induction txs as [|tx txs IH]; intros [|tx' txs'] H;
    try discriminate H; [reflexivity|].
  cbn [map] in H.
  pose proof (f_equal (hd JNull) H) as Htx.
  pose proof (f_equal (@tl json) H) as Htl.
  cbn [hd tl] in Htx, Htl.
  apply sorted_tx_json_inj in Htx. subst tx'. f_equal. apply IH, Htl.
Qed.

(** Other data under the same index, time stamp and [prev_hash] give
    another text to digest. *)
Lemma init_text_data_inj (i : Z) (t p : string) (d d' : BlockData) :
  init_text i t d p = init_text i t d' p -> d = d'.
Proof.
  unfold init_text. intros H.
  apply (append_cancel_l "{") in H.
  apply (append_cancel_l (Json.quote "data")) in H.
  apply (append_cancel_l ": ") in H.
  apply append_cancel_r in H.
  apply data_text_inj, H.
Qed.

End TamperFacts.

(** ** Linkage of the chain *)

Section Linkage.

Import Backend.

(** The stored hash of a block is the digest that [__init__] computes
    from the block's other four attributes. *)
Definition sealed (b : Block) : Prop :=
  hash b =
  digest_of_dict (dict_in_init (index b) (timestamp b) (data b) (prev_hash b)).

(** Every block sits at its index and is sealed; every block after the
    first names the stored hash of the block before it. *)
Definition linked (l : list Block) : Prop :=
  (forall i b, l !! i = Some b -> index b = Z.of_nat i /\ sealed b) /\
  (forall i p b, l !! i = Some p -> l !! S i = Some b -> prev_hash b = hash p).

Lemma Block_init_sealed (i : Z) (t : string) (d : BlockData) (p : string) :
  sealed (Block_init i t d p).
Proof. reflexivity. Qed.

Lemma linked_genesis (now : string) :
  linked (chain (Blockchain_init now)).
Proof.
  split.
  - intros [|i] b H; [|discriminate H].
    injection H as <-. split; [reflexivity | apply Block_init_sealed].
  - intros [|i] p b _ H; discriminate H.
Qed.

(** Appending the block that [mine] builds keeps the chain linked. *)
Lemma linked_snoc (l : list Block) (prev : Block) (now : string)
      (txs : list Tx) :
  linked l -> last l = Some prev ->
  linked (l ++ [Block_init (index prev + 1) now (Transactions txs) (hash prev)]).
Proof.
  intros [Hidx Hlink] Hlast.
  rewrite last_lookup in Hlast.
  assert (Hlen : (0 < length l)%nat).
  { destruct l; [discriminate Hlast | cbn; lia]. }
  split.
  - intros i b Hb.
    destruct (decide (i < length l)%nat) as [Hlt | Hge].
    + rewrite lookup_app_l in Hb by exact Hlt. exact (Hidx i b Hb).
    + rewrite lookup_app_r in Hb by lia.
      destruct (i - length l)%nat as [|k] eqn:Hk; [|discriminate Hb].
      injection Hb as <-. split; [|apply Block_init_sealed].
      cbn [index Block_init].
      destruct (Hidx _ _ Hlast) as [Hp _]. rewrite Hp. lia.
  - intros i p b Hp Hb.
    destruct (decide (S i < length l)%nat) as [Hlt | Hge].
    + rewrite lookup_app_l in Hp by lia.
      rewrite lookup_app_l in Hb by exact Hlt.
      exact (Hlink i p b Hp Hb).
    + rewrite lookup_app_r in Hb by lia.
      destruct (S i - length l)%nat as [|k] eqn:Hk; [|discriminate Hb].
      injection Hb as <-. cbn [prev_hash Block_init].
      assert (Hi : i = pred (length l)) by lia. subst i.
      rewrite lookup_app_l in Hp by lia.
      rewrite Hlast in Hp. injection Hp as <-. reflexivity.
Qed.

Lemma reachable_linked (l : Blockchain) : reachable l -> linked (chain l).
Proof.
  induction 1 as [now | tx l Hr IH | now l l' b Hr IH Hm].
  - apply linked_genesis.
  - exact IH.
  - unfold mine in Hm.
    destruct (last (chain l)) as [prev|] eqn:Hlast; [|discriminate Hm].
    injection Hm as <- <-. cbn [chain].
    apply linked_snoc; assumption.
Qed.

Lemma reachable_genesis (l : Blockchain) :
  reachable l ->
  exists g, chain l !! 0%nat = Some g /\ prev_hash g = "0" /\
            data g = GenesisMarker.
Proof.
  induction 1 as [now | tx l Hr IH | now l l' b Hr IH Hm].
  - eexists. split; [reflexivity|]. split; reflexivity.
  - exact IH.
  - unfold mine in Hm.
    destruct (last (chain l)) as [prev|] eqn:Hlast; [|discriminate Hm].
    injection Hm as <- <-. cbn [chain].
    destruct IH as (g & Hg & Hrest). exists g. split; [|exact Hrest].
    apply lookup_app_l_Some. exact Hg.
Qed.

End Linkage.

(** C3, as the code has it.  The class has no [verifyChain] method: it
    defines [__init__], [create_genesis], [add_tx] and [mine] only.  What
    such a check would look at does hold of every ledger the class
    produces: each block sits at its index, its stored hash is the digest
    of its other four attributes, and every block after the genesis block
    carries the stored hash of its predecessor as [prev_hash].  The chain
    is tamper-evident in this sense: with other data in a block, its
    attributes encode another byte string than the one whose digest is
    stored. *)
Theorem chain_linkage (l : Backend.Blockchain) :
  Backend.reachable l ->
  (forall m : Backend.BlockchainMethod,
      In (Backend.method_name m)
         ["__init__"; "create_genesis"; "add_tx"; "mine"]) /\
  (forall i b,
      Backend.chain l !! i = Some b ->
      Backend.index b = Z.of_nat i /\
      Backend.hash b =
        Sha256.hexdigest
          (Utf8.encode
             (init_text (Backend.index b) (Backend.timestamp b)
                (Backend.data b) (Backend.prev_hash b)))) /\
  (forall i p b,
      Backend.chain l !! i = Some p ->
      Backend.chain l !! S i = Some b ->
      Backend.prev_hash b = Backend.hash p) /\
  (exists g,
      Backend.chain l !! 0%nat = Some g /\
      Backend.prev_hash g = "0" /\
      Backend.data g = Backend.GenesisMarker) /\
  (forall i b d',
      Backend.chain l !! i = Some b ->
      d' <> Backend.data b ->
      Utf8.encode
        (init_text (Backend.index b) (Backend.timestamp b) d'
           (Backend.prev_hash b)) <>
      Utf8.encode
        (init_text (Backend.index b) (Backend.timestamp b) (Backend.data b)
           (Backend.prev_hash b))).
Proof.
  intros Hr. destruct (reachable_linked l Hr) as [Hidx Hlink].
  split; [|split; [|split; [|split]]].
  - intros []; cbn; auto 6.
  - intros i b Hb. destruct (Hidx i b Hb) as [Hi Hs]. split; [exact Hi|].
    rewrite Hs. unfold Backend.digest_of_dict.
    rewrite dumps_dict_in_init. reflexivity.
  - exact Hlink.
  - exact (reachable_genesis l Hr).
  - intros i b d' _ Hd H. apply Hd.
    apply utf8_encode_inj, init_text_data_inj in H. exact H.
Qed.

(** The ledger of the reference run after one mined block. *)
Definition sample_ledger : Backend.Blockchain :=
  match
    Backend.mine "2025-01-01T00:01:00"
      (Backend.add_tx sample_tx (Backend.Blockchain_init "2025-01-01T00:00:00"))
  with
  | Ok (_, l) => l
  | Raise _ => Backend.Blockchain_init "2025-01-01T00:00:00"
  end.

Lemma sample_ledger_reachable : Backend.reachable sample_ledger.
Proof.
  eapply Backend.reach_mine.
  - apply Backend.reach_add_tx, Backend.reach_init.
  - apply mine_with_head. reflexivity.
Qed.

Lemma chain_linkage_witness :
  map Backend.hash (Backend.chain sample_ledger) =
    ["5355596b957552397fc43df57e58a48abb4a7cf6163bd7c752c3219feedf100c";
     "6ade7baf93f457bdd9505b57cd22a33d0bf5f4eabdbd308cdf6cfaae1b6c5685"] /\
  (forall i p b,
      Backend.chain sample_ledger !! i = Some p ->
      Backend.chain sample_ledger !! S i = Some b ->
      Backend.prev_hash b = Backend.hash p).
Proof.
  split.
  - vm_compute. reflexivity.
  - apply (chain_linkage sample_ledger). exact sample_ledger_reachable.
Defined.

(** C3, counterexample.  No method of [Blockchain] is called
    [verifyChain] (or [verify_chain]). *)
Lemma blockchain_has_no_verify_chain :
  ~ In "verifyChain"
      (map Backend.method_name
         [Backend.M_init; Backend.M_create_genesis; Backend.M_add_tx;
          Backend.M_mine]) /\
  ~ In "verify_chain"
      (map Backend.method_name
         [Backend.M_init; Backend.M_create_genesis; Backend.M_add_tx;
          Backend.M_mine]).
Proof.
  split; cbn; intros H; repeat (destruct H as [H|H]; [discriminate H|]);
    exact H.
Qed.

(** ** Hexadecimal text read back *)

Section HexFacts.

Lemma fromhex_at_hex_byte (b : byte) (pos : N) (s : string) :
  Hex.fromhex_at pos
    (String (Hex.digit (Byte.to_N b / 16))
       (String (Hex.digit (Byte.to_N b mod 16)) s)) =
  let* rest := Hex.fromhex_at (pos + 2) s in Ok (b :: rest).
Proof. destruct b; reflexivity. Qed.

Lemma fromhex_at_hex (bs : list byte) (pos : N) :
  Hex.fromhex_at pos (Hex.hex bs) = Ok bs.
Proof.
  revert pos. induction bs as [|b bs IH]; intros pos; [reflexivity|].
  cbn [Hex.hex]. rewrite fromhex_at_hex_byte, IH. reflexivity.
Qed.

Lemma first_non_ascii_hex (bs : list byte) (pos : N) :
  Hex.first_non_ascii pos (Hex.hex bs) = None.
Proof.
  revert pos. induction bs as [|b bs IH]; intros pos; [reflexivity|].
  cbn [Hex.hex Hex.first_non_ascii].
  replace (128 <=? N_of_ascii (Hex.digit (Byte.to_N b / 16)))%N with false
    by (destruct b; reflexivity).
  replace (128 <=? N_of_ascii (Hex.digit (Byte.to_N b mod 16)))%N with false
    by (destruct b; reflexivity).
  apply IH.
Qed.

(** [bytes.fromhex(b.hex())] is [b]. *)
Lemma fromhex_hex (bs : list byte) : Hex.fromhex (Hex.hex bs) = Ok bs.
Proof.
  unfold Hex.fromhex. rewrite first_non_ascii_hex. apply fromhex_at_hex.
Qed.



End HexFacts.

(** ** Bytes and single-bit flips *)

Section BytesFacts.

Import Bytes.
Local Open Scope N_scope.

Lemma lxor_small (x y : N) : x < 256 -> y < 256 -> N.lxor x y < 256.
Proof.
  intros Hx Hy.
  destruct (N.eq_dec (N.lxor x y) 0) as [E | Hnz]; [rewrite E; lia|].
  change 256 with (2 ^ 8). apply N.log2_lt_pow2; [lia|].
  eapply N.le_lt_trans; [apply N.log2_lxor|].
  apply N.max_lub_lt.
  - destruct (N.eq_dec x 0) as [-> | Hx0]; [reflexivity|].
    apply N.log2_lt_pow2; [lia | exact Hx].
  - destruct (N.eq_dec y 0) as [-> | Hy0]; [reflexivity|].
    apply N.log2_lt_pow2; [lia | exact Hy].
Qed.

Lemma to_N_lt_256 (b : byte) : Byte.to_N b < 256.
Proof. pose proof (Byte.to_N_bounded b). lia. Qed.

Lemma to_N_byte_of_N (n : N) : n < 256 -> Byte.to_N (Hex.byte_of_N n) = n.
Proof.
  intros H. unfold Hex.byte_of_N.
  destruct (Byte.of_N n) as [b|] eqn:E.
  - apply Byte.to_of_N, E.
  - apply Byte.of_N_None_iff in E. lia.
Qed.

Lemma to_N_inj (a b : byte) : Byte.to_N a = Byte.to_N b -> a = b.
Proof.
  intros H. pose proof (Byte.of_to_N a) as Ha.
  rewrite H, Byte.of_to_N in Ha. congruence.
Qed.

Lemma to_N_xor_byte (a b : byte) :
  Byte.to_N (xor_byte a b) = N.lxor (Byte.to_N a) (Byte.to_N b).
Proof.
  apply to_N_byte_of_N, lxor_small; apply to_N_lt_256.
Qed.

Lemma xor_byte_comm (a b : byte) : xor_byte a b = xor_byte b a.
Proof. apply to_N_inj. rewrite !to_N_xor_byte. apply N.lxor_comm. Qed.

Lemma xor_byte_assoc (a b c : byte) :
  xor_byte (xor_byte a b) c = xor_byte a (xor_byte b c).
Proof. apply to_N_inj. rewrite !to_N_xor_byte. apply N.lxor_assoc. Qed.

Lemma xor_byte_0_r (a : byte) : xor_byte a x00 = a.
Proof. apply to_N_inj. rewrite to_N_xor_byte. apply N.lxor_0_r. Qed.

Lemma xor_byte_nilpotent (a : byte) : xor_byte a a = x00.
Proof. apply to_N_inj. rewrite to_N_xor_byte. apply N.lxor_nilpotent. Qed.

(** Xor with a byte that is not zero changes a byte. *)
Lemma xor_byte_changes (a m : byte) : m <> x00 -> xor_byte a m <> a.
Proof.
  intros Hm H. apply Hm.
  rewrite <- (xor_byte_nilpotent a), <- H at 1.
  rewrite xor_byte_comm, <- xor_byte_assoc, xor_byte_nilpotent.
  rewrite xor_byte_comm. symmetry. apply xor_byte_0_r.
Qed.

Lemma bit_mask_nonzero (j : N) : j < 8 -> bit_mask j <> x00.
Proof.
  intros Hj H. apply (f_equal Byte.to_N) in H.
  unfold bit_mask in H. rewrite to_N_byte_of_N in H.
  - change (Byte.to_N x00) with 0 in H.
    pose proof (N.pow_nonzero 2 j). lia.
  - change 256 with (2 ^ 8). apply N.pow_lt_mono_r; lia.
Qed.

Lemma eqb_eq (a b : list byte) : Bytes.eqb a b = true <-> a = b.
Proof.
  revert b. induction a as [|x a IH]; intros [|y b]; cbn [Bytes.eqb];
    try (split; [discriminate | discriminate]).
  - split; reflexivity.
  - rewrite andb_true_iff, IH. split.
    + intros [Hxy ->]. apply Byte.byte_dec_bl in Hxy. now subst.
    + intros [= -> ->]. split; [apply Byte.byte_dec_lb|]; reflexivity.
Qed.

Lemma eqb_neq (a b : list byte) : a <> b -> Bytes.eqb a b = false.
Proof.
  intros H. destruct (Bytes.eqb a b) eqn:E; [|reflexivity].
  apply eqb_eq in E. contradiction.
Qed.

Local Close Scope N_scope.

Lemma flip_bit_length (i : nat) (j : N) (l : list byte) :
  length (flip_bit i j l) = length l.
Proof.
  unfold flip_bit. destruct (l !! i); [apply length_insert | reflexivity].
Qed.

Lemma flip_bit_app_l (i : nat) (j : N) (a b : list byte) :
  i < length a -> flip_bit i j (a ++ b) = flip_bit i j a ++ b.
Proof.
  intros H. unfold flip_bit. rewrite lookup_app_l by exact H.
  destruct (a !! i) as [x|] eqn:E; [|reflexivity].
  apply insert_app_l. exact H.
Qed.

Lemma flip_bit_app_r (i : nat) (j : N) (a b : list byte) :
  length a <= i -> flip_bit i j (a ++ b) = a ++ flip_bit (i - length a) j b.
Proof.
  intros H. unfold flip_bit. rewrite lookup_app_r by exact H.
  destruct (b !! (i - length a)) as [x|] eqn:E; [|reflexivity].
  replace i with (length a + (i - length a)) at 1 by lia.
  apply insert_app_r.
Qed.

(** Flipping a bit that exists changes the byte string. *)
Lemma flip_bit_neq (i : nat) (j : N) (l : list byte) :
  i < length l -> (j < 8)%N -> flip_bit i j l <> l.
Proof.
  intros Hi Hj H. unfold flip_bit in H.
  destruct (l !! i) as [x|] eqn:E.
  - apply (f_equal (fun l => l !! i)) in H.
    rewrite list_lookup_insert_eq in H by exact Hi. rewrite E in H.
    injection H as H.
    exact (xor_byte_changes x (bit_mask j) (bit_mask_nonzero j Hj) H).
  - apply lookup_ge_None in E. lia.
Qed.

End BytesFacts.

(** ** Reference inputs for the cipher *)

(** The 32 bytes of the fallback key. *)
Definition fallback_key : list byte :=
  map Hex.byte_of_N
    [0; 17; 34; 51; 68; 85; 102; 119; 136; 153; 170; 187; 204; 221; 238; 255;
     0; 17; 34; 51; 68; 85; 102; 119; 136; 153; 170; 187; 204; 221; 238; 255]%N.

Lemma fromhex_fallback_key :
  Hex.fromhex Cipher.fallback_key_hex = Ok fallback_key.
Proof. vm_compute. reflexivity. Qed.

Definition sample_cipher : Cipher.AESCipher := Cipher.mkAESCipher fallback_key.

Definition sample_nonce : list byte :=
  map Hex.byte_of_N [1; 2; 3; 4; 5; 6; 7; 8; 9; 10; 11; 12]%N.


(** ** AES-GCM as the primitive *)

(** Reference values, as the [cryptography] package returns them. *)
Example aes_gcm_empty_plaintext :
  Hex.hex (AesGcm.seal (repeat x00 32) (repeat x00 12) []) =
  "530f8afbc74536b9a963b4f1c4cb738b".
Proof. vm_compute. reflexivity. Qed.

Example aes_gcm_one_block :
  Hex.hex (AesGcm.seal (repeat x00 32) (repeat x00 12) (repeat x00 16)) =
  "cea7403d4d606b6e074ec5d3baf39d18d0d1c8a799996bf0265b98b5d48ab919".
Proof. vm_compute. reflexivity. Qed.

Example aes_gcm_fallback_key :
  Hex.hex
    (AesGcm.seal fallback_key
       (map Hex.byte_of_N [1; 2; 3; 4; 5; 6; 7; 8; 9; 10; 11; 12]%N)
       (AesGcm.of_Ns (map N.of_nat (seq 0 40)))) =
  "7a7307a3ec12a346e2f1b1ca60e2111d638fb1e423e4f054348beeb4502a3b5765ff619fe55a9ab4e4ff35cbd41e895ef08291616161091d".
Proof. vm_compute. reflexivity. Qed.

Section AesGcmFacts.

Import AesGcm.

Definition small (n : N) : Prop := (n < 256)%N.

Lemma N_to_block_length (len : nat) (x : N) :
  length (N_to_block len x) = len.
Proof. induction len as [|k IH]; cbn [N_to_block length]; congruence. Qed.

Lemma N_to_block_small (len : nat) (x : N) : Forall small (N_to_block len x).
Proof.
  induction len as [|k IH]; cbn [N_to_block]; constructor; [|exact IH].
  unfold small. apply N.mod_lt. discriminate.
Qed.

Lemma keystream_length (rks : list (list N)) (j0 i : N) (n : nat) :
  length (keystream rks j0 i n) = 16 * n.
Proof.
  revert i. induction n as [|k IH]; intros i; [reflexivity|].
  cbn [keystream]. rewrite length_app, N_to_block_length, IH. lia.
Qed.

Lemma keystream_small (rks : list (list N)) (j0 i : N) (n : nat) :
  Forall small (keystream rks j0 i n).
Proof.
  revert i. induction n as [|k IH]; intros i; [constructor|].
  cbn [keystream]. apply Forall_app. split; [apply N_to_block_small | apply IH].
Qed.

Lemma xor_bytes_length (a b : list N) :
  length a <= length b -> length (xor_bytes a b) = length a.
Proof.
  intros H. unfold xor_bytes.
  rewrite length_map, length_combine. lia.
Qed.

Lemma xor_bytes_cons (x y : N) (a b : list N) :
  xor_bytes (x :: a) (y :: b) = N.lxor x y :: xor_bytes a b.
Proof. reflexivity. Qed.

Lemma xor_bytes_involutive (a b : list N) :
  length a <= length b -> xor_bytes (xor_bytes a b) b = a.
Proof.
  revert b. induction a as [|x a IH]; intros [|y b] H; try reflexivity.
  - cbn in H. lia.
  - rewrite !xor_bytes_cons. f_equal.
    + rewrite N.lxor_assoc, N.lxor_nilpotent. apply N.lxor_0_r.
    + apply IH. cbn in H. lia.
Qed.

Lemma xor_bytes_small (a b : list N) :
  Forall small a -> Forall small b -> Forall small (xor_bytes a b).
Proof.
  intros Ha. revert b. induction Ha as [|x a Hx Ha IH]; intros b Hb.
  - constructor.
  - destruct Hb as [|y b Hy Hb]; [constructor|].
    rewrite xor_bytes_cons. constructor; [|apply IH, Hb].
    apply lxor_small; assumption.
Qed.

Lemma to_Ns_small (bs : list byte) : Forall small (to_Ns bs).
Proof.
  induction bs as [|b bs IH]; constructor; [apply to_N_lt_256 | exact IH].
Qed.

Lemma of_Ns_to_Ns (bs : list byte) : of_Ns (to_Ns bs) = bs.
Proof.
  induction bs as [|b bs IH]; [reflexivity|].
  cbn [to_Ns of_Ns map]. fold (to_Ns bs) (of_Ns (to_Ns bs)). rewrite IH.
  f_equal. unfold Hex.byte_of_N. rewrite Byte.of_to_N. reflexivity.
Qed.

Lemma to_Ns_of_Ns (ns : list N) : Forall small ns -> to_Ns (of_Ns ns) = ns.
Proof.
  induction 1 as [|n ns Hn Hns IH]; [reflexivity|].
  cbn [to_Ns of_Ns map]. fold (of_Ns ns) (to_Ns (of_Ns ns)). rewrite IH.
  f_equal. apply to_N_byte_of_N, Hn.
Qed.

Lemma block_count_covers (n : nat) : n <= 16 * (n / 16 + 1).
Proof. pose proof (Nat.div_mod_eq n 16). pose proof (Nat.mod_upper_bound n 16). lia. Qed.

Lemma ctr_length (c : Context) (text : list N) :
  length (ctr c text) = length text.
Proof.
  unfold ctr. apply xor_bytes_length.
  rewrite keystream_length. apply block_count_covers.
Qed.

Lemma ctr_small (c : Context) (text : list N) :
  Forall small text -> Forall small (ctr c text).
Proof. intros H. apply xor_bytes_small; [exact H | apply keystream_small]. Qed.

(** Counter mode undoes itself. *)
Lemma ctr_involutive (c : Context) (text : list N) :
  ctr c (ctr c text) = text.
Proof.
  unfold ctr at 1. rewrite ctr_length. unfold ctr.
  apply xor_bytes_involutive.
  rewrite keystream_length. apply block_count_covers.
Qed.

Lemma tag_length (c : Context) (ct : list N) : length (tag c ct) = 16.
Proof. apply N_to_block_length. Qed.

Lemma tag_small (c : Context) (ct : list N) : Forall small (tag c ct).
Proof. apply N_to_block_small. Qed.

Lemma aes_gcm_seal_length (k n p : list byte) :
  length (seal k n p) = length p + 16.
Proof.
  unfold seal, of_Ns. rewrite length_map, length_app, ctr_length, tag_length.
  unfold to_Ns. rewrite length_map. reflexivity.
Qed.

Lemma of_Ns_app (a b : list N) : of_Ns (a ++ b) = of_Ns a ++ of_Ns b.
Proof. apply map_app. Qed.

Lemma of_Ns_length (a : list N) : length (of_Ns a) = length a.
Proof. apply length_map. Qed.

Lemma aes_gcm_open_seal (k n p : list byte) : open k n (seal k n p) = Some p.
Proof.
  unfold open. rewrite aes_gcm_seal_length.
  replace (length p + 16 <? 16)%nat with false
    by (symmetry; apply Nat.ltb_ge; lia).
  replace (length p + 16 - 16)%nat with (length p) by lia.
  unfold seal.
  set (c := context (to_Ns k) (to_Ns n)).
  set (ct := ctr c (to_Ns p)).
  assert (Hlen : length p = length (of_Ns ct)).
  { rewrite of_Ns_length. unfold ct. rewrite ctr_length.
    unfold to_Ns. symmetry. apply length_map. }
  rewrite of_Ns_app, Hlen.
  rewrite take_app_length, drop_app_length.
  rewrite to_Ns_of_Ns by (apply ctr_small, to_Ns_small).
  replace (Bytes.eqb _ _) with true by (symmetry; apply eqb_eq; reflexivity).
  unfold ct. rewrite ctr_involutive, of_Ns_to_Ns. reflexivity.
Qed.

End AesGcmFacts.

(** AES-GCM has the two laws of the interface. *)
#[global] Instance aes_gcm : Cipher.AEAD :=
  {| Cipher.seal := AesGcm.seal;
     Cipher.open := AesGcm.open;
     Cipher.seal_length := aes_gcm_seal_length;
     Cipher.open_seal := aes_gcm_open_seal |}.

(** ** Round trip of the cipher *)

Section CipherFacts.

Import Cipher.
Context {aead : AEAD}.




End CipherFacts.




(** C9, as the code has it.  When [POLICE_KEY_HEX] is unset or empty the
    constructor raises nothing and the cipher silently works with the
    fixed fallback key.  When it is set, the text is decoded: malformed
    hexadecimal text raises the [ValueError] of [bytes.fromhex], a key of
    another length than 32 bytes raises the [ValueError] of the length
    check, and a 32-byte key is taken. *)
Theorem AESCipher_init_key (environ : gmap string string) :
  match environ !! "POLICE_KEY_HEX" with
  | None | Some EmptyString =>
      Cipher.AESCipher_init environ = Ok (Cipher.mkAESCipher fallback_key)
  | Some text =>
      Cipher.AESCipher_init environ =
      match Hex.fromhex text with
      | Raise e => Raise e
      | Ok k =>
          if (length k =? 32)%nat then Ok (Cipher.mkAESCipher k)
          else Raise Cipher.key_length_error
      end
  end.
Proof.
  unfold Cipher.AESCipher_init.
  destruct (environ !! "POLICE_KEY_HEX") as [[|c text]|].
  - rewrite fromhex_fallback_key. reflexivity.
  - destruct (Hex.fromhex (String c text)); reflexivity.
  - rewrite fromhex_fallback_key. reflexivity.
Qed.

Lemma AESCipher_init_key_witness :
  let environ : gmap string string :=
    {[ "POLICE_KEY_HEX" :=
         "000102030405060708090a0b0c0d0e0f101112131415161718191a1b1c1d1e1f" ]} in
  Cipher.AESCipher_init environ =
  match
    Hex.fromhex
      "000102030405060708090a0b0c0d0e0f101112131415161718191a1b1c1d1e1f"
  with
  | Raise e => Raise e
  | Ok k =>
      if (length k =? 32)%nat then Ok (Cipher.mkAESCipher k)
      else Raise Cipher.key_length_error
  end.
Proof.
  exact (AESCipher_init_key
           {[ "POLICE_KEY_HEX" :=
                "000102030405060708090a0b0c0d0e0f101112131415161718191a1b1c1d1e1f" ]}).
Defined.

(** C9, counterexample.  With an empty environment, so with no key
    provisioned, constructing the cipher does not fail: it returns a
    cipher that holds the fallback key. *)
Lemma AESCipher_init_without_key :
  (∅ : gmap string string) !! "POLICE_KEY_HEX" = None /\
  Cipher.AESCipher_init ∅ = Ok (Cipher.mkAESCipher fallback_key) /\
  Hex.hex fallback_key =
    "00112233445566778899aabbccddeeff00112233445566778899aabbccddeeff".
Proof.
  split; [reflexivity|]. split.
  - unfold Cipher.AESCipher_init.
    change ((∅ : gmap string string) !! "POLICE_KEY_HEX") with (@None string).
    rewrite fromhex_fallback_key. reflexivity.
  - vm_compute. reflexivity.
Qed.

(** ** Failures of [decrypt] *)

Section DecryptFailures.

Import Cipher.
Context {aead : AEAD}.





End DecryptFailures.



(** The pair that [encrypt] returns for the text [{}] under the reference
    key and nonce. *)
Definition sample_nonce_hex : string := "0102030405060708090a0b0c".


(** ** The assumption on the primitive can be met

    A stand-in for the authenticated cipher, small enough to check by
    hand: the data are left as they are and the tag is the xor of all
    bytes of the key, the nonce and the data, followed by 15 zero bytes.
    It has the two laws of [AEAD] and detects every single-bit flip, so
    [detects_bit_flips] is consistent with the laws of the interface. *)

Section ChecksumPrimitive.

Import Bytes.

Definition checksum (l : list byte) : byte := fold_right xor_byte x00 l.

Definition checksum_tag (k n body : list byte) : list byte :=
  checksum (k ++ n ++ body) :: repeat x00 15.

Definition checksum_seal (k n p : list byte) : list byte :=
  p ++ checksum_tag k n p.

Definition checksum_open (k n d : list byte) : option (list byte) :=
  if (length d <? 16)%nat then None
  else
    let m := (length d - 16)%nat in
    if Bytes.eqb (drop m d) (checksum_tag k n (take m d)) then Some (take m d)
    else None.

Lemma xor_byte_cancel_l (a b c : byte) :
  xor_byte a b = xor_byte a c -> b = c.
Proof.
  intros H. apply (f_equal (xor_byte a)) in H.
  rewrite <- !xor_byte_assoc, xor_byte_nilpotent in H.
  rewrite !(xor_byte_comm x00), !xor_byte_0_r in H. exact H.
Qed.

Lemma xor_byte_cancel_r (a b c : byte) :
  xor_byte b a = xor_byte c a -> b = c.
Proof.
  rewrite !(xor_byte_comm _ a). apply xor_byte_cancel_l.
Qed.

Lemma checksum_app (a b : list byte) :
  checksum (a ++ b) = xor_byte (checksum a) (checksum b).
Proof.
  induction a as [|x a IH]; cbn [app checksum fold_right].
  - fold (checksum b). rewrite xor_byte_comm. symmetry. apply xor_byte_0_r.
  - fold (checksum (a ++ b)) (checksum a). rewrite IH.
    symmetry. apply xor_byte_assoc.
Qed.

Lemma flip_bit_cons_0 (j : N) (x : byte) (l : list byte) :
  flip_bit 0 j (x :: l) = xor_byte x (bit_mask j) :: l.
Proof. reflexivity. Qed.

Lemma flip_bit_cons_S (i : nat) (j : N) (x : byte) (l : list byte) :
  flip_bit (S i) j (x :: l) = x :: flip_bit i j l.
Proof.
  unfold flip_bit. cbn [lookup list_lookup].
  change ((x :: l) !! S i) with (l !! i).
  destruct (l !! i); reflexivity.
Qed.

Lemma checksum_flip (i : nat) (j : N) (l : list byte) :
  i < length l ->
  checksum (flip_bit i j l) = xor_byte (checksum l) (bit_mask j).
Proof.
  revert i. induction l as [|x l IH]; intros i Hi; [cbn in Hi; lia|].
  destruct i as [|i].
  - rewrite flip_bit_cons_0. cbn [checksum fold_right]. fold (checksum l).
    rewrite !xor_byte_assoc. f_equal. apply xor_byte_comm.
  - rewrite flip_bit_cons_S. cbn [checksum fold_right].
    fold (checksum (flip_bit i j l)) (checksum l).
    rewrite IH by (cbn in Hi; lia). symmetry. apply xor_byte_assoc.
Qed.

Lemma checksum_flip_neq (i : nat) (j : N) (l : list byte) :
  i < length l -> (j < 8)%N -> checksum (flip_bit i j l) <> checksum l.
Proof.
  intros Hi Hj. rewrite checksum_flip by exact Hi.
  apply xor_byte_changes, bit_mask_nonzero, Hj.
Qed.

Lemma checksum_tag_length (k n body : list byte) :
  length (checksum_tag k n body) = 16.
Proof. reflexivity. Qed.

Lemma checksum_seal_length (k n p : list byte) :
  length (checksum_seal k n p) = length p + 16.
Proof.
  unfold checksum_seal. rewrite length_app, checksum_tag_length. reflexivity.
Qed.

(** Opening [body ++ tag]: the tag is compared with the one computed from
    the body. *)
Lemma checksum_open_app (k n body tag : list byte) :
  length tag = 16 ->
  checksum_open k n (body ++ tag) =
  if Bytes.eqb tag (checksum_tag k n body) then Some body else None.
Proof.
  intros Ht. unfold checksum_open.
  rewrite length_app, Ht.
  replace (length body + 16 <? 16)%nat with false
    by (symmetry; apply Nat.ltb_ge; lia).
  replace (length body + 16 - 16) with (length body) by lia.
  rewrite take_app_length, drop_app_length. reflexivity.
Qed.

Lemma checksum_open_seal (k n p : list byte) :
  checksum_open k n (checksum_seal k n p) = Some p.
Proof.
  unfold checksum_seal. rewrite checksum_open_app by reflexivity.
  replace (Bytes.eqb _ _) with true; [reflexivity|].
  symmetry. apply eqb_eq. reflexivity.
Qed.

#[local] Instance checksum_aead : Cipher.AEAD :=
  {| Cipher.seal := checksum_seal;
     Cipher.open := checksum_open;
     Cipher.seal_length := checksum_seal_length;
     Cipher.open_seal := checksum_open_seal |}.

Lemma checksum_detects_bit_flips : @Cipher.detects_bit_flips checksum_aead.
Proof.
  intros k n p i j _ Hj. cbn [Cipher.seal Cipher.open checksum_aead]. split.
  - intros Hi. unfold checksum_seal.
    rewrite checksum_open_app by reflexivity.
    rewrite eqb_neq; [reflexivity|].
    unfold checksum_tag. intros [= H].
    rewrite !checksum_app, checksum_flip in H by exact Hi.
    apply xor_byte_cancel_l, xor_byte_cancel_r in H. symmetry in H.
    exact (xor_byte_changes _ _ (bit_mask_nonzero j Hj) H).
  - intros Hi. unfold checksum_seal in *.
    destruct (decide (i < length p)) as [Hlt | Hge].
    + rewrite flip_bit_app_l by exact Hlt.
      rewrite checksum_open_app by reflexivity.
      rewrite eqb_neq; [reflexivity|].
      unfold checksum_tag. intros [= H].
      rewrite !checksum_app, checksum_flip in H by exact Hlt.
      apply xor_byte_cancel_l, xor_byte_cancel_l in H. symmetry in H.
      exact (xor_byte_changes _ _ (bit_mask_nonzero j Hj) H).
    + rewrite flip_bit_app_r by lia.
      rewrite checksum_open_app by (rewrite flip_bit_length; reflexivity).
      rewrite eqb_neq; [reflexivity|].
      apply flip_bit_neq; [|exact Hj].
      rewrite length_app, checksum_tag_length in Hi.
      rewrite checksum_tag_length. lia.
Qed.

End ChecksumPrimitive.


(** ** What AES-GCM does with flipped bits *)

Section AesGcmFlips.

Import AesGcm.

(** A flip inside the tag is always caught: the received tag then differs
    from the recomputed one. *)
Lemma aes_gcm_tag_flip (k n p : list byte) (i : nat) (j : N) :
  (j < 8)%N -> length p <= i < length p + 16 ->
  AesGcm.open k n (Bytes.flip_bit i j (AesGcm.seal k n p)) = None.
Proof.
  intros Hj Hi. unfold AesGcm.open.
  rewrite flip_bit_length, aes_gcm_seal_length.
  replace (length p + 16 <? 16)%nat with false
    by (symmetry; apply Nat.ltb_ge; lia).
  replace (length p + 16 - 16)%nat with (length p) by lia.
  unfold AesGcm.seal.
  set (c := context (to_Ns k) (to_Ns n)).
  set (ct := ctr c (to_Ns p)).
  assert (Hlen : length p = length (of_Ns ct)).
  { rewrite of_Ns_length. unfold ct. rewrite ctr_length.
    unfold to_Ns. symmetry. apply length_map. }
  rewrite of_Ns_app, flip_bit_app_r by lia.
  rewrite Hlen, take_app_length, drop_app_length.
  rewrite to_Ns_of_Ns by (apply ctr_small, to_Ns_small).
  rewrite eqb_neq; [reflexivity|].
  apply flip_bit_neq; [|exact Hj].
  rewrite !of_Ns_length, tag_length. rewrite of_Ns_length in Hlen. lia.
Qed.

(** All single-bit flips of a byte string. *)
Definition all_flips (bs : list byte) : list (list byte) :=
  flat_map (fun i => map (fun j => Bytes.flip_bit i (N.of_nat j) bs) (seq 0 8))
           (seq 0 (length bs)).

Definition rejected (r : option (list byte)) : bool :=
  match r with None => true | Some _ => false end.

End AesGcmFlips.

(** For the reference key and nonce and a short plaintext, each of the 96
    flips of the nonce and each of the 144 flips of the sealed data is
    rejected. *)
Example aes_gcm_rejects_sample_flips :
  let data := AesGcm.seal fallback_key sample_nonce (Utf8.encode "{}") in
  forallb (fun n => rejected (AesGcm.open fallback_key n data))
          (all_flips sample_nonce) = true /\
  forallb (fun d => rejected (AesGcm.open fallback_key sample_nonce d))
          (all_flips data) = true /\
  (length (all_flips sample_nonce) = 96 /\ length (all_flips data) = 144).
Proof. vm_compute. repeat split. Qed.

(* ===================================================================== *)
(** * Further properties *)
(* ===================================================================== *)

(** ** Histories of the ledger *)

Section LedgerHistory.

Import Backend.

(** A call that a client makes on a ledger. *)
Inductive Call : Type :=
  | CallAddTx (tx : Tx)
  | CallMine (now : string).

Definition call (c : Call) (bc : Blockchain) : Result Blockchain :=
  match c with
  | CallAddTx tx => Ok (add_tx tx bc)
  | CallMine now => let* r := mine now bc in Ok (snd r)
  end.

(** A sequence of calls, stopped by the first exception. *)
Fixpoint calls (cs : list Call) (bc : Blockchain) : Result Blockchain :=
  match cs with
  | [] => Ok bc
  | c :: cs' => let* bc' := call c bc in calls cs' bc'
  end.

(** The transactions handed to [add_tx], in the order of the calls. *)
Fixpoint added (cs : list Call) : list Tx :=
  match cs with
  | [] => []
  | CallAddTx tx :: cs' => tx :: added cs'
  | CallMine _ :: cs' => added cs'
  end.

(** The number of calls of [mine]. *)
Fixpoint mined (cs : list Call) : nat :=
  match cs with
  | [] => 0
  | CallAddTx _ :: cs' => mined cs'
  | CallMine _ :: cs' => S (mined cs')
  end.

(** Every transaction that the ledger holds: those of the blocks, oldest
    block first, then the pending ones. *)
Definition ledger_txs (bc : Blockchain) : list Tx :=
  concat (map (fun b => block_txs (data b)) (chain bc)) ++ current_tx bc.

Lemma ledger_txs_add_tx (tx : Tx) (bc : Blockchain) :
  ledger_txs (add_tx tx bc) = ledger_txs bc ++ [tx].
Proof. unfold ledger_txs. cbn [add_tx chain current_tx]. apply app_assoc. Qed.

(** Mining moves the pending transactions into a block and keeps their
    order. *)
Lemma ledger_txs_mine (now : string) (bc bc' : Blockchain) (b : Block) :
  mine now bc = Ok (b, bc') -> ledger_txs bc' = ledger_txs bc.
Proof.
  unfold mine. destruct (last (chain bc)) as [prev|]; [|discriminate].
  intros [= <- <-]. unfold ledger_txs. cbn [chain current_tx].
  rewrite map_app, concat_app. cbn [map concat Block_init data block_txs].
  rewrite !app_nil_r. reflexivity.
Qed.

Lemma mine_chain (now : string) (bc bc' : Blockchain) (b : Block) :
  mine now bc = Ok (b, bc') -> chain bc' = chain bc ++ [b].
Proof.
  unfold mine. destruct (last (chain bc)) as [prev|]; [|discriminate].
  intros [= <- <-]. reflexivity.
Qed.

Lemma mine_ok (now : string) (bc : Blockchain) :
  chain bc <> [] -> exists b bc', mine now bc = Ok (b, bc').
Proof.
  intros H. unfold mine. destruct (last (chain bc)) as [prev|] eqn:Hl.
  - eexists _, _. reflexivity.
  - apply last_None in Hl. contradiction.
Qed.

Lemma calls_app (cs cs' : list Call) (bc : Blockchain) :
  calls (cs ++ cs') bc = let* bc' := calls cs bc in calls cs' bc'.
Proof.
  revert bc. induction cs as [|c cs IH]; intros bc; [reflexivity|].
  cbn [calls app]. destruct (call c bc) as [bc1|e]; [|reflexivity].
  cbn [bind]. apply IH.
Qed.

(** What a sequence of calls does to a ledger that has a head. *)
Lemma calls_spec (cs : list Call) (bc : Blockchain) :
  chain bc <> [] ->
  exists bc' ext,
    calls cs bc = Ok bc' /\
    chain bc' = chain bc ++ ext /\
    length ext = mined cs /\
    ledger_txs bc' = ledger_txs bc ++ added cs.
Proof.
  revert bc. induction cs as [|[tx|now] cs IH]; intros bc Hne.
  - exists bc, []. rewrite !app_nil_r. repeat split; reflexivity.
  - destruct (IH (add_tx tx bc) Hne) as (bc' & ext & Hc & Hch & Hlen & Htx).
    exists bc', ext. cbn [calls call bind added mined].
    repeat split; try assumption.
    rewrite Htx, ledger_txs_add_tx, <- app_assoc. reflexivity.
  - destruct (mine_ok now bc Hne) as (b & bc1 & Hm).
    pose proof (mine_chain _ _ _ _ Hm) as Hch1.
    assert (Hne1 : chain bc1 <> []).
    { rewrite Hch1. destruct (chain bc); discriminate. }
    destruct (IH bc1 Hne1) as (bc' & ext & Hc & Hch & Hlen & Htx).
    exists bc', (b :: ext). cbn [calls call added mined].
    rewrite Hm. cbn [bind snd]. repeat split.
    + exact Hc.
    + rewrite Hch, Hch1, <- app_assoc. reflexivity.
    + cbn. rewrite Hlen. reflexivity.
    + rewrite Htx, (ledger_txs_mine _ _ _ _ Hm). reflexivity.
Qed.

End LedgerHistory.

(** X1.  Whatever sequence of [add_tx] and [mine] calls is made on a fresh
    ledger, no call raises, and the ledger then holds exactly the
    transactions that were handed to [add_tx], each one once and in the
    order of the calls: those of the blocks, oldest block first, followed
    by the pending ones.  The chain has one block per call of [mine]
    besides the genesis block. *)
Theorem ledger_holds_added_transactions (now : string) (cs : list Call) :
  exists bc,
    calls cs (Backend.Blockchain_init now) = Ok bc /\
    ledger_txs bc = added cs /\
    length (Backend.chain bc) = S (mined cs).
Proof.
  destruct (calls_spec cs (Backend.Blockchain_init now))
    as (bc & ext & Hc & Hch & Hlen & Htx); [discriminate|].
  exists bc. split; [exact Hc|]. split; [exact Htx|].
  rewrite Hch, length_app, Hlen. reflexivity.
Qed.

(** X2.  The chain is append-only: after any sequence of [add_tx] and
    [mine] calls that raises nothing, every block is still at the position
    it had, unchanged, and the chain has grown by one block per call of
    [mine]. *)
Theorem chain_append_only (cs : list Call) (bc bc' : Backend.Blockchain) :
  calls cs bc = Ok bc' ->
  (forall i b, Backend.chain bc !! i = Some b ->
               Backend.chain bc' !! i = Some b) /\
  length (Backend.chain bc') = (length (Backend.chain bc) + mined cs)%nat.
Proof.
  revert bc. induction cs as [|[tx|now] cs IH]; intros bc H.
  - injection H as <-. cbn. split; [auto | lia].
  - cbn [calls call bind] in H. exact (IH _ H).
  - cbn [calls call] in H.
    destruct (Backend.mine now bc) as [[b bc1]|e] eqn:Hm; [|discriminate H].
    cbn [bind snd] in H. destruct (IH _ H) as (H1 & H2).
    pose proof (mine_chain _ _ _ _ Hm) as Hch.
    split.
    + intros i x Hx. apply H1. rewrite Hch. apply lookup_app_l_Some, Hx.
    + rewrite H2, Hch, length_app. cbn. lia.
Qed.

Lemma chain_append_only_witness :
  let bc := Backend.Blockchain_init "2025-01-01T00:00:00" in
  let cs := [CallAddTx sample_tx; CallMine "2025-01-01T00:01:00";
             CallAddTx rejected_tx] in
  exists bc',
    calls cs bc = Ok bc' /\
    (forall i b, Backend.chain bc !! i = Some b ->
                 Backend.chain bc' !! i = Some b) /\
    length (Backend.chain bc') = (length (Backend.chain bc) + mined cs)%nat.
Proof.
  eexists. split; [reflexivity|].
  apply (chain_append_only
           [CallAddTx sample_tx; CallMine "2025-01-01T00:01:00";
            CallAddTx rejected_tx]
           (Backend.Blockchain_init "2025-01-01T00:00:00")).
  reflexivity.
Defined.

(** ** The form of hexadecimal text and of digests *)

Section DigestFacts.

(** Text made of the digits that [bytes.hex] prints. *)
Definition lower_hex_digit (c : ascii) : bool :=
  existsb (Ascii.eqb c) (list_ascii_of_string "0123456789abcdef").

Definition lower_hex (s : string) : bool :=
  forallb lower_hex_digit (list_ascii_of_string s).

Lemma digit_lower_hex (n : N) : lower_hex_digit (Hex.digit n) = true.
Proof.
  destruct n as [|p]; [reflexivity|].
  do 4 (destruct p as [p|p|]; try reflexivity).
Qed.

Lemma hex_length (bs : list byte) :
  String.length (Hex.hex bs) = (2 * length bs)%nat.
Proof.
  induction bs as [|b bs IH]; [reflexivity|].
  cbn [Hex.hex String.length length]. rewrite IH. lia.
Qed.

Lemma hex_lower_hex (bs : list byte) : lower_hex (Hex.hex bs) = true.
Proof.
  induction bs as [|b bs IH]; [reflexivity|].
  unfold lower_hex in *.
  cbn [Hex.hex list_ascii_of_string forallb].
  rewrite !digit_lower_hex, IH. reflexivity.
Qed.

Lemma round_length (st : list N) (kw : N * N) :
  length (Sha256.round st kw) = length st.
Proof.
  unfold Sha256.round.
  do 9 (destruct st as [|? st]; [reflexivity|]). reflexivity.
Qed.

Lemma rounds_length (kws : list (N * N)) (st : list N) :
  length (fold_left Sha256.round kws st) = length st.
Proof.
  revert st. induction kws as [|kw kws IH]; intros st; [reflexivity|].
  cbn [fold_left]. rewrite IH. apply round_length.
Qed.

Lemma compress_length (st : list N) (block : list byte) :
  length (Sha256.compress st block) = length st.
Proof.
  unfold Sha256.compress.
  rewrite length_map, length_combine, rounds_length. lia.
Qed.

Lemma compress_all_length (blocks : list (list byte)) (st : list N) :
  length (fold_left Sha256.compress blocks st) = length st.
Proof.
  revert st. induction blocks as [|b blocks IH]; intros st; [reflexivity|].
  cbn [fold_left]. rewrite IH. apply compress_length.
Qed.

Lemma be_bytes_length (len : nat) (x : N) :
  length (Sha256.be_bytes len x) = len.
Proof.
  induction len as [|k IH]; [reflexivity|].
  cbn [Sha256.be_bytes length]. rewrite IH. reflexivity.
Qed.

Lemma words_length (ws : list N) :
  length (concat (map (Sha256.be_bytes 4) ws)) = (4 * length ws)%nat.
Proof.
  induction ws as [|w ws IH]; [reflexivity|].
  cbn [map concat]. rewrite length_app, be_bytes_length, IH. cbn [length]. lia.
Qed.

(** A SHA-256 digest has 32 bytes. *)
Lemma sha256_length (msg : list byte) : length (Sha256.sha256 msg) = 32%nat.
Proof.
  unfold Sha256.sha256. rewrite words_length, compress_all_length.
  reflexivity.
Qed.

Lemma hexdigest_length (msg : list byte) :
  String.length (Sha256.hexdigest msg) = 64%nat.
Proof.
  unfold Sha256.hexdigest. rewrite hex_length, sha256_length. reflexivity.
Qed.

End DigestFacts.

(** X3.  In a ledger that the class builds, the stored hash of every
    block is a text of 64 lower-case hexadecimal digits, and so is what
    [compute_hash] returns for the block. *)
Theorem block_hash_format (l : Backend.Blockchain) (i : nat)
    (b : Backend.Block) :
  Backend.reachable l ->
  Backend.chain l !! i = Some b ->
  String.length (Backend.hash b) = 64%nat /\
  lower_hex (Backend.hash b) = true /\
  String.length (Backend.compute_hash b) = 64%nat /\
  lower_hex (Backend.compute_hash b) = true.
Proof.
  intros Hr Hb.
  destruct (reachable_linked l Hr) as [Hidx _].
  destruct (Hidx i b Hb) as [_ Hsealed]. unfold sealed in Hsealed.
  rewrite Hsealed. unfold Backend.compute_hash, Backend.digest_of_dict.
  split; [apply hexdigest_length|].
  split; [apply hex_lower_hex|].
  split; [apply hexdigest_length | apply hex_lower_hex].
Qed.

Lemma block_hash_format_witness :
  exists b,
    Backend.chain sample_ledger !! 1%nat = Some b /\
    String.length (Backend.hash b) = 64%nat /\
    lower_hex (Backend.hash b) = true /\
    String.length (Backend.compute_hash b) = 64%nat /\
    lower_hex (Backend.compute_hash b) = true.
Proof.
  eexists. split; [reflexivity|].
  apply (block_hash_format sample_ledger 1).
  - exact sample_ledger_reachable.
  - reflexivity.
Defined.

(** ** Sorted keys *)

Section SortedKeys.

Import Json.

Lemma ascii_compare_lt_trans (a b c : ascii) :
  Ascii.compare a b = Lt -> Ascii.compare b c = Lt -> Ascii.compare a c = Lt.
Proof.
  unfold Ascii.compare. rewrite !N.compare_lt_iff. apply N.lt_trans.
Qed.

Lemma string_compare_lt_trans (a b c : string) :
  String.compare a b = Lt -> String.compare b c = Lt ->
  String.compare a c = Lt.
Proof.
  revert b c. induction a as [|x a IH]; intros [|y b] [|z c];
    cbn [String.compare]; try discriminate; try reflexivity.
  destruct (Ascii.compare x y) eqn:Hxy; try discriminate;
    destruct (Ascii.compare y z) eqn:Hyz; try discriminate; intros H1 H2.
  - apply Ascii.compare_eq_iff in Hxy, Hyz. subst.
    assert (Hzz : Ascii.compare z z = Eq).
    { unfold Ascii.compare. apply N.compare_refl. }
    rewrite Hzz. exact (IH _ _ H1 H2).
  - apply Ascii.compare_eq_iff in Hxy. subst. rewrite Hyz. reflexivity.
  - apply Ascii.compare_eq_iff in Hyz. subst. rewrite Hxy. reflexivity.
  - rewrite (ascii_compare_lt_trans _ _ _ Hxy Hyz). reflexivity.
Qed.

Lemma string_leb_trans (a b c : string) :
  String.leb a b = true -> String.leb b c = true -> String.leb a c = true.
Proof.
  unfold String.leb.
  destruct (String.compare a b) eqn:Hab; try discriminate;
    destruct (String.compare b c) eqn:Hbc; try discriminate; intros _ _.
  - apply String.compare_eq_iff in Hab. subst. rewrite Hbc. reflexivity.
  - apply String.compare_eq_iff in Hab. subst. rewrite Hbc. reflexivity.
  - apply String.compare_eq_iff in Hbc. subst. rewrite Hab. reflexivity.
  - rewrite (string_compare_lt_trans _ _ _ Hab Hbc). reflexivity.
Qed.

(** Two entries with different keys can be inserted in either order. *)
Lemma insert_entry_comm (a b : string * json) (l : list (string * json)) :
  fst a <> fst b ->
  insert_entry a (insert_entry b l) = insert_entry b (insert_entry a l).
Proof.
  intros Hne.
  assert (Hab : String.leb (fst a) (fst b) = true ->
                String.leb (fst b) (fst a) = false).
  { intros H. destruct (String.leb (fst b) (fst a)) eqn:H'; [|reflexivity].
    exfalso. apply Hne. apply String.leb_antisym; assumption. }
  assert (Hba : String.leb (fst a) (fst b) = false ->
                String.leb (fst b) (fst a) = true).
  { intros H. destruct (String.leb_total (fst a) (fst b)) as [H'|H'];
      [congruence | exact H']. }
  induction l as [|e l IH].
  - cbn [insert_entry].
    destruct (String.leb (fst a) (fst b)) eqn:H.
    + rewrite (Hab eq_refl). reflexivity.
    + rewrite (Hba eq_refl). reflexivity.
  - cbn [insert_entry].
    destruct (String.leb (fst b) (fst e)) eqn:Hbe;
      destruct (String.leb (fst a) (fst e)) eqn:Hae; cbn [insert_entry].
    + destruct (String.leb (fst a) (fst b)) eqn:H.
      * rewrite (Hab eq_refl), Hbe. reflexivity.
      * rewrite (Hba eq_refl), Hae. reflexivity.
    + destruct (String.leb (fst a) (fst b)) eqn:H.
      * rewrite (string_leb_trans _ _ _ H Hbe) in Hae. discriminate Hae.
      * rewrite Hae, Hbe. reflexivity.
    + destruct (String.leb (fst b) (fst a)) eqn:H.
      * rewrite (string_leb_trans _ _ _ H Hae) in Hbe. discriminate Hbe.
      * rewrite Hbe, Hae. reflexivity.
    + rewrite Hae, Hbe, IH. reflexivity.
Qed.

(** The sorted entries do not depend on the order in which a dictionary
    with pairwise different keys was filled. *)
Lemma sort_entries_perm (l l' : list (string * json)) :
  Permutation l l' -> NoDup (map fst l) -> sort_entries l = sort_entries l'.
Proof.
  induction 1 as [| x l l' Hp IH | x y l | l l' l'' Hp1 IH1 Hp2 IH2];
    intros Hnd.
  - reflexivity.
  - cbn [sort_entries fold_right map] in *.
    apply NoDup_cons in Hnd as [_ Hnd].
    unfold sort_entries in IH. rewrite (IH Hnd). reflexivity.
  - cbn [sort_entries fold_right map] in *.
    apply insert_entry_comm.
    apply NoDup_cons in Hnd as [Hin _]. intros Heq. apply Hin.
    rewrite Heq. constructor.
  - rewrite (IH1 Hnd). apply IH2.
    assert (Hp : map fst l ≡ₚ map fst l') by apply Permutation_map, Hp1.
    rewrite <- Hp. exact Hnd.
Qed.

Lemma distinct_NoDup (keys : list string) :
  distinct keys = true -> NoDup keys.
Proof.
  induction keys as [|k ks IH]; intros H; [constructor|].
  cbn [distinct] in H. apply andb_prop in H as [Hk Hks].
  apply NoDup_cons. split; [|exact (IH Hks)].
  intros Hin. apply negb_true_iff in Hk.
  assert (Hex : existsb (String.eqb k) ks = true).
  { apply existsb_exists. exists k. split.
    - apply list_elem_of_In, Hin.
    - apply String.eqb_refl. }
  congruence.
Qed.

Lemma sort_keys_perm (d d' : list (string * json)) :
  Permutation d d' -> distinct (map fst d) = true ->
  sort_keys (JDict d) = sort_keys (JDict d').
Proof.
  intros Hp Hnd. cbn [sort_keys]. f_equal.
  apply sort_entries_perm.
  - apply Permutation_map, Hp.
  - rewrite map_map. cbn [fst]. apply distinct_NoDup, Hnd.
Qed.

End SortedKeys.

(** X4.  The digest of an attribute dictionary does not depend on the order
    in which its keys were written: two dictionaries that hold the same
    entries under pairwise different keys have the same digest, because
    the keys are sorted before the text is hashed. *)
Theorem digest_ignores_key_order (d d' : list (string * json)) :
  Permutation d d' ->
  Json.distinct (map fst d) = true ->
  Json.dumps_sorted (JDict d) = Json.dumps_sorted (JDict d') /\
  Backend.digest_of_dict d = Backend.digest_of_dict d'.
Proof.
  intros Hp Hnd.
  assert (H : Json.dumps_sorted (JDict d) = Json.dumps_sorted (JDict d')).
  { unfold Json.dumps_sorted. rewrite (sort_keys_perm d d' Hp Hnd).
    reflexivity. }
  split; [exact H|]. unfold Backend.digest_of_dict. rewrite H. reflexivity.
Qed.

Lemma digest_ignores_key_order_witness :
  let d := Backend.dict_in_init 1 "2025-01-01T00:01:00"
             (Backend.Transactions [sample_tx]) "00" in
  rev d <> d /\
  Json.dumps_sorted (JDict d) = Json.dumps_sorted (JDict (rev d)) /\
  Backend.digest_of_dict d = Backend.digest_of_dict (rev d).
Proof.
  split; [discriminate|].
  apply (digest_ignores_key_order
           (Backend.dict_in_init 1 "2025-01-01T00:01:00"
              (Backend.Transactions [sample_tx]) "00")).
  - apply Permutation_rev.
  - reflexivity.
Defined.

(** ** What the digest is taken of *)

Section DigestedText.

Import Backend.
Local Open Scope string_scope.

(** The attribute dictionary of [__init__] with its keys sorted. *)
Definition sorted_dict_in_init (i : Z) (t : string) (d : BlockData)
    (p : string) : json :=
  JDict [("data", Json.sort_keys (data_json d)); ("index", JInt i);
         ("prev_hash", JStr p); ("timestamp", JStr t)].

Lemma sort_keys_dict_in_init (i : Z) (t : string) (d : BlockData)
      (p : string) :
  Json.sort_keys (JDict (dict_in_init i t d p)) = sorted_dict_in_init i t d p.
Proof. reflexivity. Qed.

Lemma sorted_dict_in_init_well_formed (i : Z) (t : string) (d : BlockData)
      (p : string) :
  Json.well_formed (sorted_dict_in_init i t d p) = true.
Proof.
  unfold sorted_dict_in_init. cbn [Json.well_formed map fst snd forallb].
  rewrite sorted_data_well_formed. reflexivity.
Qed.

(** The text that [__init__] digests tells all four attributes. *)
Lemma init_text_inj (i i' : Z) (t t' : string) (d d' : BlockData)
      (p p' : string) :
  init_text i t d p = init_text i' t' d' p' ->
  i = i' /\ t = t' /\ d = d' /\ p = p'.
Proof.
  rewrite <- !dumps_dict_in_init. unfold Json.dumps_sorted.
  rewrite !sort_keys_dict_in_init. intros H.
  apply dumps_inj in H; try apply sorted_dict_in_init_well_formed.
  unfold sorted_dict_in_init in H. injection H as Hd -> -> ->.
  repeat split. apply data_text_inj. unfold data_text. rewrite Hd.
  reflexivity.
Qed.

End DigestedText.

(** X5.  The bytes that [Block.__init__] digests determine the block:
    two blocks that differ in their index, time stamp, data or
    [prev_hash] are hashed from different byte strings, so they can share
    a stored hash only through a collision of SHA-256. *)
Theorem digested_bytes_determine_block
    (i i' : Z) (t t' : string) (d d' : Backend.BlockData) (p p' : string) :
  (i, t, d, p) <> (i', t', d', p') ->
  Utf8.encode (Json.dumps_sorted (JDict (Backend.dict_in_init i t d p))) <>
  Utf8.encode (Json.dumps_sorted (JDict (Backend.dict_in_init i' t' d' p'))).
Proof.
  intros Hne H. apply Hne.
  apply utf8_encode_inj in H. rewrite !dumps_dict_in_init in H.
  apply init_text_inj in H as (-> & -> & -> & ->). reflexivity.
Qed.

Lemma digested_bytes_determine_block_witness :
  Utf8.encode
    (Json.dumps_sorted
       (JDict (Backend.dict_in_init 1 "2025-01-01T00:01:00"
                 (Backend.Transactions [sample_tx]) "00"))) <>
  Utf8.encode
    (Json.dumps_sorted
       (JDict (Backend.dict_in_init 1 "2025-01-01T00:01:01"
                 (Backend.Transactions [sample_tx]) "00"))).
Proof.
  apply (digested_bytes_determine_block 1 1 "2025-01-01T00:01:00"
           "2025-01-01T00:01:01" (Backend.Transactions [sample_tx])
           (Backend.Transactions [sample_tx]) "00" "00").
  discriminate.
Defined.

(** ** A second genesis block *)

(** X6.  [create_genesis] does not look at the chain.  Called on a ledger
    that the class has built, it appends one more block with index 0 and
    [prev_hash] "0" and leaves the pending pool alone; the block does not
    sit at its index and does not carry the stored hash of the block
    before it, so the chain is no longer linked. *)
Theorem create_genesis_breaks_linkage (now : string)
    (l : Backend.Blockchain) :
  Backend.reachable l ->
  let l' := Backend.create_genesis now l in
  exists head g,
    last (Backend.chain l) = Some head /\
    Backend.chain l' = Backend.chain l ++ [g] /\
    Backend.current_tx l' = Backend.current_tx l /\
    Backend.data g = Backend.GenesisMarker /\
    Backend.index g = 0%Z /\
    Backend.index g <> Z.of_nat (length (Backend.chain l)) /\
    Backend.prev_hash g = "0" /\
    Backend.prev_hash g <> Backend.hash head /\
    ~ linked (Backend.chain l').
Proof.
  intros Hr l'. subst l'.
  destruct (reachable_has_head l Hr) as [head Hhead].
  destruct (reachable_linked l Hr) as [Hidx _].
  assert (Hlen : (0 < length (Backend.chain l))%nat).
  { destruct (Backend.chain l); [discriminate Hhead | cbn; lia]. }
  assert (Hhash : "0" <> Backend.hash head).
  { rewrite last_lookup in Hhead. destruct (Hidx _ _ Hhead) as [_ Hs].
    unfold sealed in Hs. rewrite Hs. unfold Backend.digest_of_dict.
    intros E. apply (f_equal String.length) in E.
    rewrite hexdigest_length in E. discriminate E. }
  eexists head, _. split; [exact Hhead|]. split; [reflexivity|].
  split; [reflexivity|]. split; [reflexivity|]. split; [reflexivity|].
  split; [cbn [Backend.index Backend.Block_init]; lia|].
  split; [reflexivity|]. split; [exact Hhash|].
  intros [Hidx' _].
  specialize (Hidx' (length (Backend.chain l))
                (Backend.Block_init 0 now Backend.GenesisMarker "0")).
  cbn [Backend.create_genesis Backend.chain] in Hidx'.
  rewrite lookup_app_r, Nat.sub_diag in Hidx' by lia.
  destruct (Hidx' eq_refl) as [Hi _].
  cbn [Backend.index Backend.Block_init] in Hi. lia.
Qed.

Lemma create_genesis_breaks_linkage_witness :
  let l' := Backend.create_genesis "2025-01-01T00:02:00" sample_ledger in
  map Backend.index (Backend.chain l') = [0; 1; 0]%Z /\
  exists head g,
    last (Backend.chain sample_ledger) = Some head /\
    Backend.chain l' = Backend.chain sample_ledger ++ [g] /\
    Backend.current_tx l' = Backend.current_tx sample_ledger /\
    Backend.data g = Backend.GenesisMarker /\
    Backend.index g = 0%Z /\
    Backend.index g <> Z.of_nat (length (Backend.chain sample_ledger)) /\
    Backend.prev_hash g = "0" /\
    Backend.prev_hash g <> Backend.hash head /\
    ~ linked (Backend.chain l').
Proof.
  split; [vm_compute; reflexivity|].
  apply (create_genesis_breaks_linkage "2025-01-01T00:02:00" sample_ledger).
  exact sample_ledger_reachable.
Defined.

(** ** The text that [encrypt] returns and [decrypt] reads *)

Section CipherText.

Import Cipher.
Context {aead : AEAD}.

(** The two length checks of the primitive's wrapper come before the tag
    is looked at. *)
Lemma AESGCM_decrypt_short (k nonce data : list byte) :
  nonce_ok nonce = true -> (length data < 16)%nat ->
  AESGCM_decrypt k nonce data = Raise InvalidTag.
Proof.
  intros Hok Hlen. unfold AESGCM_decrypt. rewrite Hok.
  apply Nat.ltb_lt in Hlen. rewrite Hlen. reflexivity.
Qed.

Lemma AESGCM_decrypt_nonce (k nonce data : list byte) :
  nonce_ok nonce = false -> AESGCM_decrypt k nonce data = Raise nonce_error.
Proof. intros Hok. unfold AESGCM_decrypt. rewrite Hok. reflexivity. Qed.


End CipherText.





(** X9.  The length checks of [decrypt], which need no key.  When both
    texts are well-formed hexadecimal: a nonce shorter than 8 or longer
    than 128 bytes raises the [ValueError] of the nonce check, whatever
    the ciphertext; under a nonce of an accepted length, a ciphertext
    shorter than the 16 bytes of a tag, the empty one included, raises
    [InvalidTag]. *)
Theorem decrypt_length_checks
    {aead : Cipher.AEAD} (self : Cipher.AESCipher)
    (nonce_hex ciphertext_hex : string) (nonce data : list byte) :
  Hex.fromhex nonce_hex = Ok nonce ->
  Hex.fromhex ciphertext_hex = Ok data ->
  ((length nonce < 8 \/ 128 < length nonce)%nat ->
   Cipher.decrypt self nonce_hex ciphertext_hex =
     Raise (ValueError "Nonce must be between 8 and 128 bytes")) /\
  ((8 <= length nonce <= 128)%nat -> (length data < 16)%nat ->
   Cipher.decrypt self nonce_hex ciphertext_hex = Raise InvalidTag).
Proof.
  intros Hn Hc. unfold Cipher.decrypt. rewrite Hn, Hc. cbn [bind]. split.
  - intros Hlen. rewrite AESGCM_decrypt_nonce; [reflexivity|].
    unfold Cipher.nonce_ok. apply andb_false_iff.
    destruct Hlen as [H|H]; [left | right]; apply Nat.leb_gt; exact H.
  - intros [H8 H128] Hlen. rewrite AESGCM_decrypt_short; [reflexivity| |exact Hlen].
    unfold Cipher.nonce_ok. apply andb_true_iff.
    split; apply Nat.leb_le; assumption.
Qed.

Lemma decrypt_length_checks_witness :
  (Cipher.decrypt sample_cipher "01020304" "abcd" =
     Raise (ValueError "Nonce must be between 8 and 128 bytes")) /\
  (Cipher.decrypt sample_cipher sample_nonce_hex EmptyString =
     Raise InvalidTag).
Proof.
  split.
  - apply (decrypt_length_checks sample_cipher "01020304" "abcd"
             [x01; x02; x03; x04] [xab; xcd]); [reflexivity | reflexivity |].
    left. cbn. lia.
  - apply (decrypt_length_checks sample_cipher sample_nonce_hex EmptyString
             sample_nonce []); [reflexivity | reflexivity | | ].
    + cbn. lia.
    + cbn. lia.
Defined.

(** ** The text that is encrypted *)

Section AsciiText.

Import Json.
Local Open Scope string_scope.












End AsciiText.




(** ** The key variable *)

Section KeyText.

(** The digits of [bytes.hex] in capitals, as the fallback key of the
    program is written. *)
Definition upper_digit (n : N) : ascii :=
  match n with
  | 0 => "0" | 1 => "1" | 2 => "2" | 3 => "3" | 4 => "4" | 5 => "5"
  | 6 => "6" | 7 => "7" | 8 => "8" | 9 => "9" | 10 => "A" | 11 => "B"
  | 12 => "C" | 13 => "D" | 14 => "E" | _ => "F"
  end%N%char.

Fixpoint hex_upper (bs : list byte) : string :=
  match bs with
  | [] => EmptyString
  | b :: bs' =>
      let n := Byte.to_N b in
      String (upper_digit (n / 16)) (String (upper_digit (n mod 16))
                                       (hex_upper bs'))
  end.

Lemma fromhex_at_hex_upper_byte (b : byte) (pos : N) (s : string) :
  Hex.fromhex_at pos
    (String (upper_digit (Byte.to_N b / 16))
       (String (upper_digit (Byte.to_N b mod 16)) s)) =
  let* rest := Hex.fromhex_at (pos + 2) s in Ok (b :: rest).
Proof. destruct b; reflexivity. Qed.

Lemma fromhex_at_hex_upper (bs : list byte) (pos : N) :
  Hex.fromhex_at pos (hex_upper bs) = Ok bs.
Proof.
  revert pos. induction bs as [|b bs IH]; intros pos; [reflexivity|].
  cbn [hex_upper]. rewrite fromhex_at_hex_upper_byte, IH. reflexivity.
Qed.

Lemma first_non_ascii_hex_upper (bs : list byte) (pos : N) :
  Hex.first_non_ascii pos (hex_upper bs) = None.
Proof.
  revert pos. induction bs as [|b bs IH]; intros pos; [reflexivity|].
  cbn [hex_upper Hex.first_non_ascii].
  replace (128 <=? N_of_ascii (upper_digit (Byte.to_N b / 16)))%N with false
    by (destruct b; reflexivity).
  replace (128 <=? N_of_ascii (upper_digit (Byte.to_N b mod 16)))%N with false
    by (destruct b; reflexivity).
  apply IH.
Qed.

(** [bytes.fromhex] reads capital digits as well. *)
Lemma fromhex_hex_upper (bs : list byte) :
  Hex.fromhex (hex_upper bs) = Ok bs.
Proof.
  unfold Hex.fromhex. rewrite first_non_ascii_hex_upper.
  apply fromhex_at_hex_upper.
Qed.

Lemma AESCipher_init_text (environ : gmap string string) (text : string)
      (k : list byte) :
  environ !! "POLICE_KEY_HEX" = Some text ->
  Hex.fromhex text = Ok k -> length k = 32%nat ->
  Cipher.AESCipher_init environ = Ok (Cipher.mkAESCipher k).
Proof.
  intros Henv Htext Hlen. unfold Cipher.AESCipher_init. rewrite Henv.
  destruct text as [|c text].
  - vm_compute in Htext. injection Htext as <-. discriminate Hlen.
  - rewrite Htext. cbn [bind]. rewrite Hlen. reflexivity.
Qed.

End KeyText.

(** X11.  A 32-byte key written into [POLICE_KEY_HEX] as hexadecimal text,
    in the lower-case digits that [bytes.hex] prints or in capitals as the
    fallback key is written, is the key of the cipher that the
    constructor returns. *)
Theorem AESCipher_init_reads_key (environ : gmap string string)
    (k : list byte) :
  length k = 32%nat ->
  environ !! "POLICE_KEY_HEX" = Some (Hex.hex k) \/
  environ !! "POLICE_KEY_HEX" = Some (hex_upper k) ->
  Cipher.AESCipher_init environ = Ok (Cipher.mkAESCipher k).
Proof.
  intros Hlen [Henv | Henv].
  - exact (AESCipher_init_text environ _ k Henv (fromhex_hex k) Hlen).
  - exact (AESCipher_init_text environ _ k Henv (fromhex_hex_upper k) Hlen).
Qed.

Lemma AESCipher_init_reads_key_witness :
  hex_upper fallback_key = Cipher.fallback_key_hex /\
  Cipher.AESCipher_init {[ "POLICE_KEY_HEX" := hex_upper fallback_key ]} =
    Ok (Cipher.mkAESCipher fallback_key).
Proof.
  split; [vm_compute; reflexivity|].
  apply (AESCipher_init_reads_key
           {[ "POLICE_KEY_HEX" := hex_upper fallback_key ]} fallback_key).
  - reflexivity.
  - right. apply lookup_singleton_eq.
Defined.

(** ** What a session can reach *)

Section SessionFacts.

Import Backend App.

(** A property that every run of the script keeps holds after any
    sequence of runs. *)
Lemma run_preserves (P : Session -> Prop) :
  (forall c s, P s -> P (rerun c s)) ->
  forall clicks s, P s -> P (run clicks s).
Proof.
  intros Hstep clicks. induction clicks as [|c clicks IH]; intros s H;
    [exact H|].
  cbn. apply IH, Hstep, H.
Qed.

(** The decision on display was computed from the event on display, and
    the response was given to that decision. *)
Definition decision_inv (s : Session) : Prop :=
  (forall dec, current_decision s = Some dec ->
     exists ev, current_event s = Some ev /\ dec = evaluate_decision ev) /\
  (forall r, App.driver_response s = Some r ->
     exists dec, current_decision s = Some dec /\
       ((r = AUTO_SAFE /\ overspeed dec = false) \/
        ((r = CONFIRMED \/ r = REJECTED) /\ overspeed dec = true))).

Lemma initial_decision_inv (now : string) : decision_inv (initial_session now).
Proof. split; intros x H; discriminate H. Qed.

Lemma step_load_decision_inv (c : Click) (s : Session) :
  decision_inv s -> decision_inv (step_load c s).
Proof.
  intros H. destruct c; try exact H.
  split; intros x Hx; discriminate Hx.
Qed.

Lemma step_decide_decision_inv (c : Click) (s : Session) :
  decision_inv s -> decision_inv (step_decide c s).
Proof.
  intros H. unfold step_decide. destruct c; try exact H.
  destruct (current_event s) as [ev|] eqn:Hev; [|exact H].
  split; cbn [current_decision current_event App.driver_response].
  - intros dec [= <-]. exists ev. split; reflexivity.
  - intros r Hr. discriminate Hr.
Qed.

Lemma step_response_decision_inv (c : Click) (s : Session) :
  decision_inv s -> decision_inv (step_response c s).
Proof.
  intros H. unfold step_response.
  destruct (current_decision s) as [dec|] eqn:Hdec; [|exact H].
  assert (Hset : forall r,
             (r = AUTO_SAFE /\ overspeed dec = false) \/
             ((r = CONFIRMED \/ r = REJECTED) /\ overspeed dec = true) ->
             decision_inv (set_response r s)).
  { intros r Hr. split;
      cbn [set_response current_decision current_event App.driver_response].
    - exact (proj1 H).
    - intros r' [= <-]. exists dec. split; [exact Hdec | exact Hr]. }
  destruct (overspeed dec) eqn:Hover; cbn [negb].
  - destruct c; try exact H; apply Hset; right; auto.
  - apply Hset. left. auto.
Qed.

Lemma step_save_fields (c : Click) (s : Session) :
  current_event (step_save c s) = current_event s /\
  current_decision (step_save c s) = current_decision s /\
  App.driver_response (step_save c s) = App.driver_response s.
Proof.
  unfold step_save. destruct c; auto.
  destruct (negb (truthy (App.driver_response s))); auto.
  destruct (String.eqb _ _); auto.
Qed.

Lemma step_mine_fields (c : Click) (s : Session) :
  current_event (step_mine c s) = current_event s /\
  current_decision (step_mine c s) = current_decision s /\
  App.driver_response (step_mine c s) = App.driver_response s /\
  rejected_cases (step_mine c s) = rejected_cases s.
Proof.
  unfold step_mine. destruct c; auto.
  destruct (current_tx (bc s)); auto.
  destruct (mine now (bc s)) as [[b l']|e]; auto.
Qed.

Lemma decision_inv_fields (s s' : Session) :
  current_event s' = current_event s ->
  current_decision s' = current_decision s ->
  App.driver_response s' = App.driver_response s ->
  decision_inv s -> decision_inv s'.
Proof. unfold decision_inv. intros -> -> ->. auto. Qed.

Lemma rerun_decision_inv (c : Click) (s : Session) :
  decision_inv s -> decision_inv (rerun c s).
Proof.
  intros H. unfold rerun.
  pose proof (step_response_decision_inv c _
                (step_decide_decision_inv c _
                   (step_load_decision_inv c s H))) as H3.
  revert H3. generalize (step_response c (step_decide c (step_load c s))).
  intros s3 H3.
  destruct (step_save_fields c s3) as (E1 & E2 & E3).
  destruct (step_mine_fields c (step_save c s3)) as (F1 & F2 & F3 & _).
  apply (decision_inv_fields s3); [congruence | congruence | congruence |].
  exact H3.
Qed.

(** The responses under which a transaction goes to the ledger. *)
Definition accepted (tx : Tx) : Prop :=
  Backend.driver_response tx = AUTO_SAFE \/
  Backend.driver_response tx = CONFIRMED.

(** The chain starts with the genesis block, and every later block holds
    at least one transaction. *)
Definition blocks_filled (l : list Block) : Prop :=
  exists g rest,
    l = g :: rest /\ data g = GenesisMarker /\
    Forall (fun b => exists tx txs, data b = Transactions (tx :: txs)) rest.

Definition stores_inv (s : Session) : Prop :=
  decision_inv s /\
  Forall (fun b => Forall accepted (block_txs (data b))) (chain (bc s)) /\
  Forall accepted (current_tx (bc s)) /\
  blocks_filled (chain (bc s)).

Lemma initial_stores_inv (now : string) : stores_inv (initial_session now).
Proof.
  split; [apply initial_decision_inv|]. split; [|split].
  - repeat constructor.
  - constructor.
  - eexists _, []. split; [reflexivity|]. split; [reflexivity | constructor].
Qed.

Lemma step_save_stores_inv (c : Click) (s : Session) :
  stores_inv s -> stores_inv (step_save c s).
Proof.
  intros (Hd & Hc & Hp & Hb).
  destruct (step_save_fields c s) as (E1 & E2 & E3).
  split; [apply (decision_inv_fields s); assumption|].
  unfold step_save. destruct c as [ | | | | | n ct | ]; try (repeat split; assumption).
  destruct (App.driver_response s) as [r|] eqn:Hr;
    [|repeat split; assumption].
  destruct (negb (truthy (Some r))); [repeat split; assumption|].
  destruct (String.eqb_spec
              (Backend.driver_response (build_tx n ct s)) REJECTED)
    as [Heq | Hne]; [repeat split; assumption|].
  cbn [bc add_tx chain current_tx]. split; [exact Hc|]. split; [|exact Hb].
  apply Forall_app. split; [exact Hp|]. constructor; [|constructor].
  unfold accepted. unfold build_tx in Hne |- *.
  cbn [Backend.driver_response] in Hne |- *. rewrite Hr in Hne |- *.
  destruct Hd as [_ Hd]. destruct (Hd r Hr) as (dec & _ & [[-> _] | [[-> | ->] _]]).
  - left. reflexivity.
  - right. reflexivity.
  - contradiction Hne. reflexivity.
Qed.

Lemma step_mine_stores_inv (c : Click) (s : Session) :
  stores_inv s -> stores_inv (step_mine c s).
Proof.
  intros (Hd & Hc & Hp & Hb).
  destruct (step_mine_fields c s) as (E1 & E2 & E3 & _).
  split; [apply (decision_inv_fields s); assumption|].
  unfold step_mine. destruct c as [ | | | | | | now]; try (repeat split; assumption).
  destruct (current_tx (bc s)) as [|tx txs] eqn:Htx;
    [rewrite Htx; repeat split; assumption|].
  unfold mine. destruct (last (chain (bc s))) as [prev|];
    [|rewrite Htx; repeat split; assumption].
  cbn [bc chain current_tx]. rewrite Htx. split; [|split].
  - apply Forall_app. split; [exact Hc|].
    constructor; [exact Hp | constructor].
  - constructor.
  - destruct Hb as (g & rest & Hl & Hg & Hrest). rewrite Hl.
    exists g, (rest ++ [Block_init (index prev + 1) now
                          (Transactions (tx :: txs)) (hash prev)]).
    split; [reflexivity|]. split; [exact Hg|].
    apply Forall_app. split; [exact Hrest|].
    constructor; [|constructor]. eexists _, _. reflexivity.
Qed.

Lemma stores_inv_bc (s s' : Session) :
  bc s' = bc s -> decision_inv s' -> stores_inv s -> stores_inv s'.
Proof.
  intros E Hd' (_ & Hc & Hp & Hb). split; [exact Hd'|]. rewrite E.
  repeat split; assumption.
Qed.

Lemma step_front_bc (c : Click) (s : Session) :
  bc (step_response c (step_decide c (step_load c s))) = bc s /\
  rejected_cases (step_response c (step_decide c (step_load c s))) =
    rejected_cases s.
Proof.
  assert (H1 : bc (step_load c s) = bc s /\
               rejected_cases (step_load c s) = rejected_cases s).
  { destruct c; auto. }
  assert (H2 : forall s1, bc (step_decide c s1) = bc s1 /\
               rejected_cases (step_decide c s1) = rejected_cases s1).
  { intros s1. unfold step_decide. destruct c; auto.
    destruct (current_event s1); auto. }
  assert (H3 : forall s2, bc (step_response c s2) = bc s2 /\
               rejected_cases (step_response c s2) = rejected_cases s2).
  { intros s2. unfold step_response.
    destruct (current_decision s2) as [dec|]; auto.
    destruct (negb (overspeed dec)); auto. destruct c; auto. }
  destruct H1 as [A1 B1]. destruct (H2 (step_load c s)) as [A2 B2].
  destruct (H3 (step_decide c (step_load c s))) as [A3 B3].
  split; congruence.
Qed.

Lemma rerun_stores_inv (c : Click) (s : Session) :
  stores_inv s -> stores_inv (rerun c s).
Proof.
  intros H. unfold rerun.
  apply step_mine_stores_inv, step_save_stores_inv.
  apply (stores_inv_bc s); [apply step_front_bc | | exact H].
  apply step_response_decision_inv, step_decide_decision_inv,
    step_load_decision_inv. exact (proj1 H).
Qed.

Lemma run_stores_inv (now : string) (clicks : list Click) :
  stores_inv (run clicks (initial_session now)).
Proof.
  apply (run_preserves stores_inv rerun_stores_inv), initial_stores_inv.
Qed.

(** The ledger of a session is one that the class can produce. *)
Lemma run_reachable (now : string) (clicks : list Click) :
  reachable (bc (run clicks (initial_session now))).
Proof.
  apply (run_preserves (fun s => reachable (bc s)));
    [|apply reach_init].
  intros c s H. unfold rerun.
  destruct (step_front_bc c s) as [Hbc _]. rewrite <- Hbc in H.
  revert H. generalize (step_response c (step_decide c (step_load c s))).
  intros s3 H.
  assert (H4 : reachable (bc (step_save c s3))).
  { unfold step_save. destruct c; try exact H.
    destruct (negb (truthy (App.driver_response s3))); [exact H|].
    destruct (String.eqb _ _); [exact H|].
    cbn [bc]. apply reach_add_tx, H. }
  revert H4. generalize (step_save c s3). intros s4 H4.
  unfold step_mine. destruct c as [ | | | | | | t]; try exact H4.
  destruct (current_tx (bc s4)); [exact H4|].
  destruct (mine t (bc s4)) as [[b l']|e] eqn:Hm; [|exact H4].
  cbn [bc]. exact (reach_mine _ _ _ _ H4 Hm).
Qed.

End SessionFacts.


(** X13.  In every state that a session reaches, every transaction of the
    chain and of the pending pool carries the response AUTO_SAFE or
    CONFIRMED: the ledger holds no transaction without an accepted
    response. *)
Theorem ledger_transactions_accepted (now : string)
    (clicks : list App.Click) :
  let s := App.run clicks (App.initial_session now) in
  forall tx,
    In tx (ledger_txs (App.bc s)) ->
    Backend.driver_response tx = App.AUTO_SAFE \/
    Backend.driver_response tx = App.CONFIRMED.
Proof.
  intros s tx Hin. destruct (run_stores_inv now clicks) as (_ & Hc & Hp & _).
  fold s in Hc, Hp. unfold ledger_txs in Hin.
  apply in_app_or in Hin as [Hin | Hin].
  - apply in_concat in Hin as (txs & Htxs & Hin).
    apply in_map_iff in Htxs as (b & <- & Hb).
    rewrite List.Forall_forall in Hc. specialize (Hc b Hb).
    rewrite List.Forall_forall in Hc. exact (Hc tx Hin).
  - rewrite List.Forall_forall in Hp. exact (Hp tx Hin).
Qed.

(** X14.  In every state that a session reaches, the chain consists of the
    genesis block followed by blocks that each hold at least one
    transaction: the "Mine Block" handler never lets [mine] run on an
    empty pool, so the script mines no empty block. *)
Theorem session_mines_no_empty_block (now : string)
    (clicks : list App.Click) :
  let s := App.run clicks (App.initial_session now) in
  exists genesis blocks,
    Backend.chain (App.bc s) = genesis :: blocks /\
    Backend.data genesis = Backend.GenesisMarker /\
    forall b, In b blocks ->
      exists tx txs, Backend.data b = Backend.Transactions (tx :: txs).
Proof.
  intros s. destruct (run_stores_inv now clicks) as (_ & _ & _ & Hb).
  fold s in Hb. destruct Hb as (g & rest & Hl & Hg & Hrest).
  exists g, rest. split; [exact Hl|]. split; [exact Hg|].
  rewrite List.Forall_forall in Hrest. exact Hrest.
Qed.


Lemma ledger_transactions_accepted_witness :
  let s := App.run sample_clicks (App.initial_session "2025-01-01T00:00:00") in
  let tx := Backend.mkTx "1112131415161718191a1b1c" "ef01" "AUTO_SAFE"
              (Some "CA-XYZ9876") (Some "Wall Street") in
  ledger_txs (App.bc s) = [tx] /\
  (Backend.driver_response tx = App.AUTO_SAFE \/
   Backend.driver_response tx = App.CONFIRMED).
Proof.
  split; [vm_compute; reflexivity|].
  apply (ledger_transactions_accepted "2025-01-01T00:00:00" sample_clicks).
  vm_compute. left. reflexivity.
Defined.

Lemma session_mines_no_empty_block_witness :
  let s := App.run sample_clicks (App.initial_session "2025-01-01T00:00:00") in
  length (Backend.chain (App.bc s)) = 2%nat /\
  exists genesis blocks,
    Backend.chain (App.bc s) = genesis :: blocks /\
    Backend.data genesis = Backend.GenesisMarker /\
    forall b, In b blocks ->
      exists tx txs, Backend.data b = Backend.Transactions (tx :: txs).
Proof.
  split; [vm_compute; reflexivity|].
  apply (session_mines_no_empty_block "2025-01-01T00:00:00" sample_clicks).
Defined.

(** ** What a session stores *)

Section SessionStores.

Import Backend App.

(** The clicks that can store a transaction, and those that can mine. *)
Definition is_save (c : Click) : bool :=
  match c with EncryptSave _ _ => true | _ => false end.

Definition is_mine (c : Click) : bool :=
  match c with MineBlock _ => true | _ => false end.

Lemma step_save_grows (c : Click) (s : Session) :
  exists txs cases,
    chain (bc (step_save c s)) = chain (bc s) /\
    ledger_txs (bc (step_save c s)) = ledger_txs (bc s) ++ txs /\
    rejected_cases (step_save c s) = rejected_cases s ++ cases /\
    (length txs + length cases <= if is_save c then 1 else 0)%nat.
Proof.
  assert (Hsame : exists txs cases,
             chain (bc s) = chain (bc s) /\
             ledger_txs (bc s) = ledger_txs (bc s) ++ txs /\
             rejected_cases s = rejected_cases s ++ cases /\
             (length txs + length cases <= 0)%nat).
  { exists [], []. rewrite !app_nil_r. auto. }
  unfold step_save.
  destruct c as [ | | | | | n ct | ]; try exact Hsame.
  destruct (negb (truthy (App.driver_response s))).
  { destruct Hsame as (txs & cases & H1 & H2 & H3 & H4).
    exists txs, cases. cbn [is_save]. repeat split; try assumption. lia. }
  destruct (String.eqb _ _).
  - exists [], [build_tx n ct s]. cbn [bc rejected_cases is_save length].
    rewrite app_nil_r. auto.
  - exists [build_tx n ct s], []. cbn [bc rejected_cases is_save length].
    rewrite app_nil_r, ledger_txs_add_tx. auto.
Qed.

Lemma step_mine_grows (c : Click) (s : Session) :
  exists blocks,
    chain (bc (step_mine c s)) = chain (bc s) ++ blocks /\
    ledger_txs (bc (step_mine c s)) = ledger_txs (bc s) /\
    rejected_cases (step_mine c s) = rejected_cases s /\
    (length blocks <= if is_mine c then 1 else 0)%nat.
Proof.
  assert (Hsame : forall k : nat, exists blocks,
             chain (bc s) = chain (bc s) ++ blocks /\
             ledger_txs (bc s) = ledger_txs (bc s) /\
             rejected_cases s = rejected_cases s /\
             (length blocks <= k)%nat).
  { intros k. exists []. rewrite app_nil_r. cbn. repeat split. lia. }
  unfold step_mine.
  destruct c as [ | | | | | | now]; try exact (Hsame 0%nat).
  destruct (current_tx (bc s)); [exact (Hsame 1%nat)|].
  destruct (mine now (bc s)) as [[b l']|e] eqn:Hm; [|exact (Hsame 1%nat)].
  exists [b]. cbn [bc rejected_cases is_mine length].
  rewrite (mine_chain _ _ _ _ Hm), (ledger_txs_mine _ _ _ _ Hm). auto.
Qed.

Lemma rerun_grows (c : Click) (s : Session) :
  exists blocks txs cases,
    chain (bc (rerun c s)) = chain (bc s) ++ blocks /\
    ledger_txs (bc (rerun c s)) = ledger_txs (bc s) ++ txs /\
    rejected_cases (rerun c s) = rejected_cases s ++ cases /\
    (length blocks <= if is_mine c then 1 else 0)%nat /\
    (length txs + length cases <= if is_save c then 1 else 0)%nat.
Proof.
  unfold rerun. destruct (step_front_bc c s) as [Hbc Hrej].
  revert Hbc Hrej.
  generalize (step_response c (step_decide c (step_load c s))).
  intros s3 Hbc Hrej.
  destruct (step_save_grows c s3) as (txs & cases & S1 & S2 & S3 & S4).
  destruct (step_mine_grows c (step_save c s3)) as (blocks & M1 & M2 & M3 & M4).
  exists blocks, txs, cases.
  rewrite M1, M2, M3, S1, S2, S3, Hbc, Hrej. auto.
Qed.

Lemma run_grows (clicks : list Click) (s : Session) :
  exists blocks txs cases,
    chain (bc (run clicks s)) = chain (bc s) ++ blocks /\
    ledger_txs (bc (run clicks s)) = ledger_txs (bc s) ++ txs /\
    rejected_cases (run clicks s) = rejected_cases s ++ cases /\
    (length blocks <= length (List.filter is_mine clicks))%nat /\
    (length txs + length cases <= length (List.filter is_save clicks))%nat.
Proof.
  revert s. induction clicks as [|c clicks IH]; intros s.
  - exists [], [], []. rewrite !app_nil_r. cbn. auto.
  - destruct (rerun_grows c s) as (b1 & t1 & c1 & A1 & A2 & A3 & A4 & A5).
    destruct (IH (rerun c s)) as (b2 & t2 & c2 & B1 & B2 & B3 & B4 & B5).
    exists (b1 ++ b2), (t1 ++ t2), (c1 ++ c2).
    change (run (c :: clicks) s) with (run clicks (rerun c s)).
    rewrite B1, B2, B3, A1, A2, A3, <- !app_assoc, !length_app.
    cbn [List.filter]. repeat split.
    + revert A4. destruct (is_mine c); cbn [length]; lia.
    + revert A5. destruct (is_save c); cbn [length]; lia.
Qed.

End SessionStores.

(** X15.  The stores of a session only grow.  Whatever the state and the
    clicks, the runs of the script leave every block of the chain, every
    transaction of the ledger and every quarantined case where it was and
    only append: at most one block per click on "Mine Block", and at most
    one transaction, in the ledger or in the quarantine list, per click on
    "Encrypt & Save Transaction".  No run removes, reorders or rewrites
    what was stored. *)
Theorem session_stores_only_grow (clicks : list App.Click) (s : App.Session) :
  exists blocks txs cases,
    Backend.chain (App.bc (App.run clicks s)) =
      Backend.chain (App.bc s) ++ blocks /\
    ledger_txs (App.bc (App.run clicks s)) =
      ledger_txs (App.bc s) ++ txs /\
    App.rejected_cases (App.run clicks s) = App.rejected_cases s ++ cases /\
    (length blocks <= length (List.filter is_mine clicks))%nat /\
    (length txs + length cases <= length (List.filter is_save clicks))%nat.
Proof. apply run_grows. Qed.

(** ** The workflow of one trip *)

Section Workflow.

Import Backend App.

(** The runs between the decision and the save in which the driver
    answers, or in which nothing is pressed. *)
Definition is_answer (c : Click) : bool :=
  match c with
  | NoClick | ConfirmGuidance | RejectGuidance => true
  | _ => false
  end.

(** The answer that stands after a sequence of such runs, starting from
    the response [r]. *)
Fixpoint last_answer (clicks : list Click) (r : option string)
  : option string :=
  match clicks with
  | [] => r
  | ConfirmGuidance :: clicks' => last_answer clicks' (Some CONFIRMED)
  | RejectGuidance :: clicks' => last_answer clicks' (Some REJECTED)
  | _ :: clicks' => last_answer clicks' r
  end.

Lemma rerun_load (ev : Event) (s : Session) :
  rerun (LoadEvent ev) s =
  mkSession (bc s) (Some ev) None None (rejected_cases s).
Proof. reflexivity. Qed.

Lemma rerun_decide_safe (l : Blockchain) (ev : Event) (q : list Tx) :
  overspeed (evaluate_decision ev) = false ->
  rerun DecisionEngine (mkSession l (Some ev) None None q) =
  mkSession l (Some ev) (Some (evaluate_decision ev)) (Some AUTO_SAFE) q.
Proof.
  intros H. unfold rerun. cbn [step_load step_decide current_event bc
    rejected_cases]. unfold step_response.
  cbn [current_decision]. rewrite H. reflexivity.
Qed.

Lemma rerun_decide_overspeed (l : Blockchain) (ev : Event) (q : list Tx) :
  overspeed (evaluate_decision ev) = true ->
  rerun DecisionEngine (mkSession l (Some ev) None None q) =
  mkSession l (Some ev) (Some (evaluate_decision ev)) None q.
Proof.
  intros H. unfold rerun. cbn [step_load step_decide current_event bc
    rejected_cases]. unfold step_response.
  cbn [current_decision]. rewrite H. reflexivity.
Qed.

(** Without overspeed the answer buttons are not on the page: such runs
    leave the session as it is. *)
Lemma run_answers_safe (answers : list Click) (l : Blockchain) (ev : Event)
      (dec : Decision) (q : list Tx) :
  overspeed dec = false -> forallb is_answer answers = true ->
  run answers (mkSession l (Some ev) (Some dec) (Some AUTO_SAFE) q) =
  mkSession l (Some ev) (Some dec) (Some AUTO_SAFE) q.
Proof.
  intros Hover. induction answers as [|c answers IH]; intros Hall;
    [reflexivity|].
  cbn [forallb] in Hall. apply andb_prop in Hall as [Hc Hall].
  change (run (c :: answers) ?s) with (run answers (rerun c s)).
  rewrite <- (IH Hall) at 2. f_equal.
  unfold rerun.
  destruct c; try discriminate Hc;
    cbn [step_load step_decide]; unfold step_response;
    cbn [current_decision]; rewrite Hover; reflexivity.
Qed.

(** With overspeed the last answer stands. *)
Lemma run_answers_overspeed (answers : list Click) (l : Blockchain)
      (ev : Event) (dec : Decision) (r : option string) (q : list Tx) :
  overspeed dec = true -> forallb is_answer answers = true ->
  run answers (mkSession l (Some ev) (Some dec) r q) =
  mkSession l (Some ev) (Some dec) (last_answer answers r) q.
Proof.
  intros Hover. revert r. induction answers as [|c answers IH];
    intros r Hall; [reflexivity|].
  cbn [forallb] in Hall. apply andb_prop in Hall as [Hc Hall].
  change (run (c :: answers) ?s) with (run answers (rerun c s)).
  destruct c; try discriminate Hc; cbn [last_answer];
    rewrite <- (IH _ Hall); f_equal;
    unfold rerun; cbn [step_load step_decide]; unfold step_response;
    cbn [current_decision]; rewrite Hover; reflexivity.
Qed.

Lemma run_app (a b : list Click) (s : Session) :
  run (a ++ b) s = run b (run a s).
Proof. unfold run. apply fold_left_app. Qed.

(** The save with a response in place. *)
Lemma rerun_save (n ct r : string) (l : Blockchain) (ev : Event)
      (dec : Decision) (q : list Tx) :
  (overspeed dec = false -> r = AUTO_SAFE) -> truthy (Some r) = true ->
  let tx := mkTx n ct r (event_vehicle ev) (event_exit_point ev) in
  let s := mkSession l (Some ev) (Some dec) (Some r) q in
  rerun (EncryptSave n ct) s =
  if String.eqb r REJECTED
  then mkSession l (Some ev) (Some dec) (Some r) (q ++ [tx])
  else mkSession (add_tx tx l) (Some ev) (Some dec) (Some r) q.
Proof.
  intros Hsafe Htruthy tx s. unfold rerun.
  cbn [step_load step_decide].
  assert (Hresp : step_response (EncryptSave n ct) s = s).
  { unfold step_response, s. cbn [current_decision].
    destruct (overspeed dec); cbn [negb]; [reflexivity|].
    rewrite (Hsafe eq_refl). reflexivity. }
  rewrite Hresp. unfold step_save, s.
  cbn [App.driver_response]. rewrite Htruthy. cbn [negb].
  change (Backend.driver_response (build_tx n ct _)) with r.
  destruct (String.eqb r REJECTED); reflexivity.
Qed.

Lemma rerun_save_unanswered (n ct : string) (l : Blockchain) (ev : Event)
      (dec : Decision) (q : list Tx) :
  overspeed dec = true ->
  let s := mkSession l (Some ev) (Some dec) None q in
  rerun (EncryptSave n ct) s = s.
Proof.
  intros Hover s. unfold rerun. cbn [step_load step_decide].
  unfold step_response, s. cbn [current_decision]. rewrite Hover.
  reflexivity.
Qed.

Lemma overspeed_false (ev : Event) :
  (speed ev <= speed_limit ev)%Q -> overspeed (evaluate_decision ev) = false.
Proof.
  intros H. cbn [evaluate_decision overspeed].
  apply Qle_bool_iff in H. rewrite H. reflexivity.
Qed.

Lemma overspeed_true (ev : Event) :
  (speed_limit ev < speed ev)%Q -> overspeed (evaluate_decision ev) = true.
Proof.
  intros H. cbn [evaluate_decision overspeed].
  destruct (Qle_bool (speed ev) (speed_limit ev)) eqn:E; [|reflexivity].
  apply Qle_bool_iff in E. exfalso. exact (Qlt_not_le _ _ H E).
Qed.

End Workflow.

(** X16.  A trip within the speed limit is approved without the driver:
    after "Load IoT Event", "Decision Engine" and "Encrypt & Save
    Transaction", whatever the session held before and whatever answer
    clicks come in between, the transaction is appended to the pending
    pool with the response AUTO_SAFE and the plate and exit point of the
    event; the chain and the quarantine list are as before. *)
Theorem safe_trip_is_auto_approved
    (ev : App.Event) (s : App.Session) (answers : list App.Click)
    (nonce_hex ciphertext_hex : string) :
  (App.speed ev <= App.speed_limit ev)%Q ->
  forallb is_answer answers = true ->
  let s' := App.run (App.LoadEvent ev :: App.DecisionEngine :: answers
                       ++ [App.EncryptSave nonce_hex ciphertext_hex]) s in
  let tx := Backend.mkTx nonce_hex ciphertext_hex App.AUTO_SAFE
              (App.event_vehicle ev) (App.event_exit_point ev) in
  App.bc s' = Backend.add_tx tx (App.bc s) /\
  App.rejected_cases s' = App.rejected_cases s.
Proof.
  intros Hle Hall s' tx. subst s'.
  change (App.run (?a :: ?b :: ?l) s)
    with (App.run l (App.rerun b (App.rerun a s))).
  rewrite rerun_load, (rerun_decide_safe _ _ _ (overspeed_false ev Hle)).
  rewrite run_app, (run_answers_safe _ _ _ _ _ (overspeed_false ev Hle) Hall).
  change (App.run [?c] ?x) with (App.rerun c x).
  rewrite rerun_save; [|reflexivity|reflexivity].
  split; reflexivity.
Qed.

Lemma safe_trip_is_auto_approved_witness :
  let s := App.initial_session "2025-01-01T00:00:00" in
  let s' := App.run [App.LoadEvent safe_event; App.DecisionEngine;
                     App.RejectGuidance;
                     App.EncryptSave "1112131415161718191a1b1c" "ef01"] s in
  let tx := Backend.mkTx "1112131415161718191a1b1c" "ef01" App.AUTO_SAFE
              (Some "CA-XYZ9876") (Some "Wall Street") in
  App.bc s' = Backend.add_tx tx (App.bc s) /\
  App.rejected_cases s' = App.rejected_cases s.
Proof.
  apply (safe_trip_is_auto_approved safe_event
           (App.initial_session "2025-01-01T00:00:00")
           [App.RejectGuidance] "1112131415161718191a1b1c" "ef01").
  - vm_compute. discriminate.
  - reflexivity.
Defined.

(** X17.  A trip over the speed limit is stored by the driver's answer.
    After "Load IoT Event" and "Decision Engine", with any number of
    clicks on the two answer buttons before "Encrypt & Save Transaction":
    without an answer nothing is stored; otherwise the last answer counts,
    and the transaction, which carries that answer and the plate and exit
    point of the event, is appended to the pending pool when the answer is
    CONFIRMED and to the quarantine list, with the ledger untouched, when
    it is REJECTED. *)
Theorem overspeed_trip_follows_last_answer
    (ev : App.Event) (s : App.Session) (answers : list App.Click)
    (nonce_hex ciphertext_hex : string) :
  (App.speed_limit ev < App.speed ev)%Q ->
  forallb is_answer answers = true ->
  let s' := App.run (App.LoadEvent ev :: App.DecisionEngine :: answers
                       ++ [App.EncryptSave nonce_hex ciphertext_hex]) s in
  let tx r := Backend.mkTx nonce_hex ciphertext_hex r
                (App.event_vehicle ev) (App.event_exit_point ev) in
  match last_answer answers None with
  | None =>
      App.bc s' = App.bc s /\ App.rejected_cases s' = App.rejected_cases s
  | Some r =>
      (r = App.CONFIRMED /\
       App.bc s' = Backend.add_tx (tx App.CONFIRMED) (App.bc s) /\
       App.rejected_cases s' = App.rejected_cases s) \/
      (r = App.REJECTED /\
       App.bc s' = App.bc s /\
       App.rejected_cases s' = App.rejected_cases s ++ [tx App.REJECTED])
  end.
Proof.
  intros Hlt Hall s' tx. subst s'.
  change (App.run (?a :: ?b :: ?l) s)
    with (App.run l (App.rerun b (App.rerun a s))).
  pose proof (overspeed_true ev Hlt) as Hover.
  rewrite rerun_load, (rerun_decide_overspeed _ _ _ Hover).
  rewrite run_app, (run_answers_overspeed _ _ _ _ _ _ Hover Hall).
  change (App.run [?c] ?x) with (App.rerun c x).
  assert (Hcases : forall cs r,
            forallb is_answer cs = true ->
            (r = None \/ r = Some App.CONFIRMED \/ r = Some App.REJECTED) ->
            last_answer cs r = None \/
            last_answer cs r = Some App.CONFIRMED \/
            last_answer cs r = Some App.REJECTED).
  { induction cs as [|c cs IH]; intros r Hcs Hr; [exact Hr|].
    cbn [forallb] in Hcs. apply andb_prop in Hcs as [Hc Hcs].
    destruct c; try discriminate Hc; cbn [last_answer]; apply IH; auto. }
  destruct (Hcases answers None Hall (or_introl eq_refl)) as [-> | [-> | ->]].
  - rewrite rerun_save_unanswered by exact Hover. split; reflexivity.
  - rewrite rerun_save; [|rewrite Hover; discriminate | reflexivity].
    left. repeat split; reflexivity.
  - rewrite rerun_save; [|rewrite Hover; discriminate | reflexivity].
    right. repeat split; reflexivity.
Qed.

Lemma overspeed_trip_follows_last_answer_witness :
  let s := App.initial_session "2025-01-01T00:00:00" in
  let s' := App.run [App.LoadEvent overspeed_event; App.DecisionEngine;
                     App.ConfirmGuidance; App.NoClick; App.RejectGuidance;
                     App.EncryptSave "0102030405060708090a0b0c" "abcd"] s in
  App.bc s' = App.bc s /\
  App.rejected_cases s' =
    [Backend.mkTx "0102030405060708090a0b0c" "abcd" App.REJECTED
       (Some "NY-ABC1234") (Some "Times Square")].
Proof.
  destruct (overspeed_trip_follows_last_answer overspeed_event
              (App.initial_session "2025-01-01T00:00:00")
              [App.ConfirmGuidance; App.NoClick; App.RejectGuidance]
              "0102030405060708090a0b0c" "abcd")
    as [(Hr & _) | (_ & Hbc & Hq)].
  - vm_compute. reflexivity.
  - reflexivity.
  - discriminate Hr.
  - split; [exact Hbc | exact Hq].
Defined.

Section SaveAgain.

Import Backend App.

(** What a run on "Encrypt & Save Transaction" does, seen from the state
    that the response step leaves. *)
Lemma rerun_save_eq (n ct : string) (s : Session) :
  rerun (EncryptSave n ct) s =
  step_save (EncryptSave n ct) (step_response (EncryptSave n ct) s).
Proof.
  unfold rerun. cbn [step_load step_decide].
  generalize (step_response (EncryptSave n ct) s). intros s3.
  unfold step_save.
  destruct (negb (truthy (App.driver_response s3))); [reflexivity|].
  destruct (String.eqb _ _); reflexivity.
Qed.

(** The response step of such a run changes nothing but the response,
    and it sets the same response again whatever the stores hold. *)
Lemma step_response_save (n ct : string) (l : Blockchain)
      (e : option Event) (d : option Decision) (r : option string)
      (q : list Tx) :
  exists r',
    step_response (EncryptSave n ct) (mkSession l e d r q) =
      mkSession l e d r' q /\
    forall n' ct' l' q',
      step_response (EncryptSave n' ct') (mkSession l' e d r' q') =
      mkSession l' e d r' q'.
Proof.
  unfold step_response. cbn [current_decision].
  destruct d as [dec|]; [|exists r; auto].
  destruct (overspeed dec); cbn [negb].
  - exists r. auto.
  - exists (Some AUTO_SAFE). auto.
Qed.

(** The save of a session whose fields are known. *)
Lemma step_save_eq (n ct : string) (l : Blockchain) (e : option Event)
      (d : option Decision) (r : option string) (q : list Tx) :
  step_save (EncryptSave n ct) (mkSession l e d r q) =
  match r with
  | Some rr =>
      let tx := mkTx n ct rr
                  match e with Some ev => event_vehicle ev | None => None end
                  match e with Some ev => event_exit_point ev | None => None end
      in
      if truthy r then
        if String.eqb rr REJECTED then mkSession l e d r (q ++ [tx])
        else mkSession (add_tx tx l) e d r q
      else mkSession l e d r q
  | None => mkSession l e d r q
  end.
Proof.
  unfold step_save. cbn [App.driver_response].
  destruct r as [rr|]; [|reflexivity].
  destruct (truthy (Some rr)); [|reflexivity]. cbn [negb].
  change (Backend.driver_response (build_tx n ct _)) with rr.
  destruct (String.eqb rr REJECTED); reflexivity.
Qed.

End SaveAgain.

(** X18.  Saving does not consume the response.  When a click on "Encrypt
    & Save Transaction" has stored a transaction, a second click stores
    another one in the same place, with the same response, plate and exit
    point, and the nonce and ciphertext of the second encryption: the
    script keeps no record of what was already saved. *)
Theorem save_twice_stores_twice
    (s : App.Session) (n1 ct1 n2 ct2 : string) :
  let s1 := App.rerun (App.EncryptSave n1 ct1) s in
  let s2 := App.rerun (App.EncryptSave n2 ct2) s1 in
  App.bc s1 <> App.bc s \/ App.rejected_cases s1 <> App.rejected_cases s ->
  exists r vehicle exit_point,
    let tx1 := Backend.mkTx n1 ct1 r vehicle exit_point in
    let tx2 := Backend.mkTx n2 ct2 r vehicle exit_point in
    (App.bc s1 = Backend.add_tx tx1 (App.bc s) /\
     App.bc s2 = Backend.add_tx tx2 (App.bc s1) /\
     App.rejected_cases s2 = App.rejected_cases s) \/
    (App.rejected_cases s1 = App.rejected_cases s ++ [tx1] /\
     App.rejected_cases s2 = App.rejected_cases s1 ++ [tx2] /\
     App.bc s2 = App.bc s).
Proof.
  intros s1 s2 Hstored. subst s2 s1. revert Hstored.
  rewrite !rerun_save_eq.
  destruct s as [l e d r q].
  destruct (step_response_save n1 ct1 l e d r q) as (r' & -> & Hagain).
  rewrite step_save_eq. cbn [App.bc App.rejected_cases].
  destruct r' as [rr|];
    [|intros [H|H]; contradiction H; reflexivity].
  destruct (App.truthy (Some rr)) eqn:Htruthy;
    [|intros [H|H]; contradiction H; reflexivity].
  cbn zeta. intros _. eexists rr, _, _.
  destruct (String.eqb rr App.REJECTED) eqn:Hrej.
  - right. rewrite Hagain, step_save_eq, Htruthy, Hrej.
    cbn [App.bc App.rejected_cases]. repeat split; reflexivity.
  - left. rewrite Hagain, step_save_eq, Htruthy, Hrej.
    cbn [App.bc App.rejected_cases]. repeat split; reflexivity.
Qed.

Lemma save_twice_stores_twice_witness :
  let s := App.run [App.LoadEvent safe_event; App.DecisionEngine]
             (App.initial_session "2025-01-01T00:00:00") in
  let s2 := App.rerun (App.EncryptSave "1112131415161718191a1b1c" "ef01")
              (App.rerun (App.EncryptSave "0102030405060708090a0b0c" "abcd")
                 s) in
  map Backend.nonce (Backend.current_tx (App.bc s2)) =
    ["0102030405060708090a0b0c"; "1112131415161718191a1b1c"] /\
  exists r vehicle exit_point,
    let s1 := App.rerun (App.EncryptSave "0102030405060708090a0b0c" "abcd")
                s in
    let tx1 := Backend.mkTx "0102030405060708090a0b0c" "abcd" r vehicle
                 exit_point in
    let tx2 := Backend.mkTx "1112131415161718191a1b1c" "ef01" r vehicle
                 exit_point in
    (App.bc s1 = Backend.add_tx tx1 (App.bc s) /\
     App.bc s2 = Backend.add_tx tx2 (App.bc s1) /\
     App.rejected_cases s2 = App.rejected_cases s) \/
    (App.rejected_cases s1 = App.rejected_cases s ++ [tx1] /\
     App.rejected_cases s2 = App.rejected_cases s1 ++ [tx2] /\
     App.bc s2 = App.bc s).
Proof.
  split; [vm_compute; reflexivity|].
  apply (save_twice_stores_twice
           (App.run [App.LoadEvent safe_event; App.DecisionEngine]
              (App.initial_session "2025-01-01T00:00:00"))
           "0102030405060708090a0b0c" "abcd"
           "1112131415161718191a1b1c" "ef01").
  left. vm_compute. discriminate.
Defined.

(** ** Before an event is loaded *)

Section BeforeLoad.

Import Backend App.

Definition is_load (c : Click) : bool :=
  match c with LoadEvent _ => true | _ => false end.

Lemma rerun_initial (now : string) (c : Click) :
  is_load c = false ->
  rerun c (initial_session now) = initial_session now.
Proof. destruct c; intros H; try discriminate H; reflexivity. Qed.

End BeforeLoad.

(** X19.  Nothing happens before an event is loaded.  As long as "Load IoT
    Event" has not been pressed, every other button only draws its
    warning: the session stays as its first run left it, with the genesis
    block alone on the chain, no pending transaction and no quarantined
    case. *)
Theorem nothing_before_load (now : string) (clicks : list App.Click) :
  forallb (fun c => negb (is_load c)) clicks = true ->
  App.run clicks (App.initial_session now) = App.initial_session now.
Proof.
  induction clicks as [|c clicks IH]; intros H; [reflexivity|].
  cbn [forallb] in H. apply andb_prop in H as [Hc H].
  apply negb_true_iff in Hc.
  change (App.run (c :: clicks) ?s) with (App.run clicks (App.rerun c s)).
  rewrite (rerun_initial now c Hc). exact (IH H).
Qed.

Lemma nothing_before_load_witness :
  App.run [App.DecisionEngine; App.ConfirmGuidance; App.RejectGuidance;
           App.EncryptSave "0102030405060708090a0b0c" "abcd";
           App.MineBlock "2025-01-01T00:01:00"]
    (App.initial_session "2025-01-01T00:00:00") =
  App.initial_session "2025-01-01T00:00:00".
Proof.
  apply (nothing_before_load "2025-01-01T00:00:00"
           [App.DecisionEngine; App.ConfirmGuidance; App.RejectGuidance;
            App.EncryptSave "0102030405060708090a0b0c" "abcd";
            App.MineBlock "2025-01-01T00:01:00"]).
  reflexivity.
Defined.

(** ** The ledger of a session *)

Section SessionLedger.

Import Backend App.

(** The head of the chain of a session sits at the last position. *)
Lemma session_chain_head (now : string) (clicks : list Click) :
  let l := bc (run clicks (initial_session now)) in
  exists head,
    last (chain l) = Some head /\
    (index head + 1)%Z = Z.of_nat (length (chain l)).
Proof.
  intros l. pose proof (run_reachable now clicks) as Hr. fold l in Hr.
  destruct (reachable_linked l Hr) as [Hidx _].
  destruct (reachable_has_head l Hr) as [head Hhead].
  exists head. split; [exact Hhead|].
  rewrite last_lookup in Hhead.
  destruct (Hidx _ _ Hhead) as [Hi _]. rewrite Hi.
  destruct (chain l); [discriminate Hhead | cbn [length pred]; lia].
Qed.

End SessionLedger.

(** X20.  The ledger of a session is linked.  In every state that a
    session reaches, each block of the chain sits at its index and stores
    the digest that [__init__] computed from its other four attributes,
    every block after the first carries the stored hash of the block
    before it as [prev_hash], and the new block that a call of [mine]
    would build fits on the head of the chain. *)
Theorem session_chain_linked (now : string) (clicks : list App.Click) :
  let l := App.bc (App.run clicks (App.initial_session now)) in
  (forall i b,
      Backend.chain l !! i = Some b ->
      Backend.index b = Z.of_nat i /\
      Backend.hash b =
        Backend.digest_of_dict
          (Backend.dict_in_init (Backend.index b) (Backend.timestamp b)
             (Backend.data b) (Backend.prev_hash b))) /\
  (forall i p b,
      Backend.chain l !! i = Some p ->
      Backend.chain l !! S i = Some b ->
      Backend.prev_hash b = Backend.hash p) /\
  (forall t, exists head b l',
      last (Backend.chain l) = Some head /\
      Backend.mine t l = Ok (b, l') /\
      Backend.index b = Z.of_nat (length (Backend.chain l)) /\
      Backend.prev_hash b = Backend.hash head).
Proof.
  intros l. pose proof (run_reachable now clicks) as Hr. fold l in Hr.
  destruct (reachable_linked l Hr) as [Hidx Hlink].
  split; [exact Hidx|]. split; [exact Hlink|].
  intros t. destruct (session_chain_head now clicks) as (head & Hhead & Hi).
  fold l in Hhead, Hi.
  eexists head, _, _. split; [exact Hhead|].
  split; [apply mine_with_head; exact Hhead|].
  split; [exact Hi | reflexivity].
Qed.

Lemma session_chain_linked_witness :
  let l := App.bc (App.run sample_clicks
                     (App.initial_session "2025-01-01T00:00:00")) in
  length (Backend.chain l) = 2%nat /\
  (forall i p b,
      Backend.chain l !! i = Some p ->
      Backend.chain l !! S i = Some b ->
      Backend.prev_hash b = Backend.hash p).
Proof.
  split; [vm_compute; reflexivity|].
  apply (session_chain_linked "2025-01-01T00:00:00" sample_clicks).
Defined.

Section MineClick.

Import Backend App.

Lemma rerun_mine_eq (t : string) (s : Session) :
  bc (rerun (MineBlock t) s) = bc (step_mine (MineBlock t) s) /\
  rejected_cases (rerun (MineBlock t) s) = rejected_cases s.
Proof.
  unfold rerun. cbn [step_load step_decide].
  assert (H : bc (step_response (MineBlock t) s) = bc s /\
              rejected_cases (step_response (MineBlock t) s) =
                rejected_cases s).
  { unfold step_response. destruct (current_decision s) as [dec|]; auto.
    destruct (negb (overspeed dec)); auto. }
  destruct H as [Hbc Hrej]. revert Hbc Hrej.
  generalize (step_response (MineBlock t) s). intros s3 Hbc Hrej.
  cbn [step_save]. unfold step_mine. rewrite Hbc.
  destruct (current_tx (bc s)); [auto|].
  destruct (mine t (bc s3)) as [[b l']|e] eqn:Hm;
    rewrite Hbc in Hm; rewrite Hm; cbn [bc rejected_cases]; auto.
Qed.

End MineClick.

(** X21.  In every state that a session reaches with a transaction
    pending, a click on "Mine Block" mines: [mine] raises nothing, the
    chain gains one block, which sits at the next index, carries the stored
    hash of the former head and the time of the click and holds the whole
    pending pool in its order, the pool is empty afterwards, and the
    quarantine list is as before. *)
Theorem mine_click_commits_pool (now : string) (clicks : list App.Click)
    (t : string) :
  let s := App.run clicks (App.initial_session now) in
  let s' := App.rerun (App.MineBlock t) s in
  Backend.current_tx (App.bc s) <> [] ->
  exists head,
    last (Backend.chain (App.bc s)) = Some head /\
    Backend.chain (App.bc s') =
      Backend.chain (App.bc s) ++
      [Backend.Block_init (Z.of_nat (length (Backend.chain (App.bc s)))) t
         (Backend.Transactions (Backend.current_tx (App.bc s)))
         (Backend.hash head)] /\
    Backend.current_tx (App.bc s') = [] /\
    App.rejected_cases s' = App.rejected_cases s.
Proof.
  intros s s' Hpool. subst s'.
  destruct (session_chain_head now clicks) as (head & Hhead & Hidx).
  fold s in Hhead, Hidx.
  destruct (rerun_mine_eq t s) as [Hbc Hrej].
  exists head. split; [exact Hhead|]. rewrite Hbc, Hrej.
  unfold App.step_mine.
  destruct (Backend.current_tx (App.bc s)) as [|tx txs] eqn:Htx;
    [contradiction Hpool; reflexivity|].
  rewrite (mine_with_head t _ head Hhead), Htx, Hidx.
  cbn [App.bc Backend.chain Backend.current_tx]. auto.
Qed.

Lemma mine_click_commits_pool_witness :
  let s := App.run [App.LoadEvent safe_event; App.DecisionEngine;
                    App.EncryptSave "1112131415161718191a1b1c" "ef01"]
             (App.initial_session "2025-01-01T00:00:00") in
  let s' := App.rerun (App.MineBlock "2025-01-01T00:01:00") s in
  exists head,
    last (Backend.chain (App.bc s)) = Some head /\
    Backend.chain (App.bc s') =
      Backend.chain (App.bc s) ++
      [Backend.Block_init (Z.of_nat (length (Backend.chain (App.bc s))))
         "2025-01-01T00:01:00"
         (Backend.Transactions (Backend.current_tx (App.bc s)))
         (Backend.hash head)] /\
    Backend.current_tx (App.bc s') = [] /\
    App.rejected_cases s' = App.rejected_cases s.
Proof.
  apply (mine_click_commits_pool "2025-01-01T00:00:00"
           [App.LoadEvent safe_event; App.DecisionEngine;
            App.EncryptSave "1112131415161718191a1b1c" "ef01"]
           "2025-01-01T00:01:00").
  vm_compute. discriminate.
Defined.

(** ** The keys of the widgets *)

Section WidgetKeys.

Import Backend App Tabs.

Local Open Scope string_scope.

(** Text without an underscore. *)
Fixpoint plain (s : string) : Prop :=
  match s with
  | EmptyString => True
  | String c s' => c <> "_"%char /\ plain s'
  end.

Lemma uint_plain (d : Decimal.uint) : plain (NilEmpty.string_of_uint d).
Proof.
  induction d; cbn [NilEmpty.string_of_uint plain]; auto;
    (split; [discriminate | assumption]).
Qed.

Lemma str_plain (z : Z) : plain (str z).
Proof.
  unfold str, Json.string_of_Z.
  assert (H : forall d, plain (NilZero.string_of_uint d)).
  { intros d. unfold NilZero.string_of_uint.
    destruct d; try apply uint_plain. cbn. split; [discriminate | exact I]. }
  destruct (Z.to_int z) as [d|d]; cbn [NilZero.string_of_int]; [apply H|].
  split; [discriminate | apply H].
Qed.

(** [str] of two different integers is two different texts. *)
Lemma str_inj (z z' : Z) : str z = str z' -> z = z'.
Proof.
  unfold str, Json.string_of_Z. intros H.
  assert (Hnil : forall x, Z.to_int x <> Decimal.Pos Decimal.Nil /\
                           Z.to_int x <> Decimal.Neg Decimal.Nil).
  { intros x. split; intros E;
      pose proof (DecimalZ.of_to x) as Hx; rewrite E in Hx;
      cbn in Hx; subst x; discriminate E. }
  destruct (Hnil z) as [A1 A2]. destruct (Hnil z') as [B1 B2].
  apply DecimalZ.to_int_inj.
  pose proof (NilZero.isi _ A1 A2) as E1.
  pose proof (NilZero.isi _ B1 B2) as E2.
  rewrite H in E1. congruence.
Qed.

(** Two texts cut at their first underscore. *)
Lemma split_underscore (a a' b b' : string) :
  plain a -> plain a' ->
  a ++ String "_" b = a' ++ String "_" b' -> a = a' /\ b = b'.
Proof.
  revert a'. induction a as [|c a IH]; intros [|c' a'] Ha Ha' H.
  - injection H as <-. auto.
  - rewrite append_cons in H. injection H as <- _.
    destruct Ha' as [Hc _]. contradiction Hc. reflexivity.
  - rewrite append_cons in H. injection H as -> _.
    destruct Ha as [Hc _]. contradiction Hc. reflexivity.
  - rewrite !append_cons in H. injection H as <- H.
    destruct Ha as [_ Ha]. destruct Ha' as [_ Ha'].
    destruct (IH a' Ha Ha' H) as [-> ->]. auto.
Qed.

Lemma ledger_decrypt_key_inj (i i' : Z) (t t' : nat) :
  ledger_decrypt_key i t = ledger_decrypt_key i' t' -> i = i' /\ t = t'.
Proof.
  unfold ledger_decrypt_key. intros H.
  apply append_cancel_l in H.
  apply split_underscore in H as [Hi Ht]; try apply str_plain.
  apply str_inj in Hi, Ht. split; [exact Hi | lia].
Qed.

Lemma elem_block_keys (k : string) (b : Block) :
  In k (block_keys b) -> exists t, k = ledger_decrypt_key (index b) t.
Proof.
  unfold block_keys. destruct (data b) as [|txs]; [intros []|].
  intros H. apply in_map_iff in H as (t & <- & _). exists t. reflexivity.
Qed.

Lemma block_keys_NoDup (b : Block) : NoDup (block_keys b).
Proof.
  unfold block_keys. destruct (data b) as [|txs]; [constructor|].
  apply (NoDup_fmap_2_strong (ledger_decrypt_key (index b))).
  - intros x y _ _ H. apply ledger_decrypt_key_inj in H. tauto.
  - apply NoDup_seq.
Qed.

(** Where every block sits at its index, no two buttons of the ledger tab
    share a key. *)
Lemma ledger_keys_NoDup (l : list Block) :
  (forall i b, l !! i = Some b -> index b = Z.of_nat i) ->
  NoDup (flat_map block_keys (rev l)) /\
  forall k, In k (flat_map block_keys (rev l)) ->
            exists i t, (i < length l)%nat /\
                        k = ledger_decrypt_key (Z.of_nat i) t.
Proof.
  induction l as [|b l IH] using rev_ind; intros Hidx.
  - split; [constructor | intros k []].
  - assert (Hl : forall i x, l !! i = Some x -> index x = Z.of_nat i).
    { intros i x Hx. apply Hidx. apply lookup_app_l_Some, Hx. }
    assert (Hb : index b = Z.of_nat (length l)).
    { apply Hidx. rewrite lookup_app_r by lia.
      rewrite Nat.sub_diag. reflexivity. }
    destruct (IH Hl) as [Hnd Hin]. clear IH.
    rewrite rev_app_distr. cbn [rev app flat_map]. split.
    + apply NoDup_app. split; [apply block_keys_NoDup|].
      split; [|exact Hnd].
      intros k Hk Hk'. apply list_elem_of_In in Hk, Hk'.
      apply elem_block_keys in Hk as (t & ->).
      destruct (Hin _ Hk') as (i & t' & Hi & Heq).
      apply ledger_decrypt_key_inj in Heq as [Heq _]. lia.
    + intros k Hk. rewrite length_app. cbn [length].
      apply in_app_or in Hk as [Hk | Hk].
      * apply elem_block_keys in Hk as (t & ->).
        exists (length l), t. split; [lia|]. rewrite Hb. reflexivity.
      * destruct (Hin k Hk) as (i & t & Hi & ->).
        exists i, t. split; [lia | reflexivity].
Qed.

Lemma case_keys_NoDup (n : nat) :
  NoDup (flat_map case_keys (seq 0 n)) /\
  forall k, In k (flat_map case_keys (seq 0 n)) ->
            exists i, (i < n)%nat /\ In k (case_keys i).
Proof.
  induction n as [|n [Hnd Hin]].
  - split; [constructor | intros k []].
  - rewrite seq_S, flat_map_app. cbn [flat_map plus]. rewrite app_nil_r.
    split.
    + apply NoDup_app. split; [exact Hnd|]. split.
      * intros k Hk Hk'. apply list_elem_of_In in Hk, Hk'.
        destruct (Hin k Hk) as (i & Hi & Hki).
        destruct Hki as [<- | [<- | []]];
          destruct Hk' as [H | [H | []]]; try discriminate H;
          apply append_cancel_l, str_inj in H; lia.
      * unfold case_keys. apply NoDup_cons. split.
        -- intros H. apply list_elem_of_In in H as [H | []]. discriminate H.
        -- apply NoDup_singleton.
    + intros k Hk. apply in_app_or in Hk as [Hk | Hk].
      * destruct (Hin k Hk) as (i & Hi & Hki). exists i. split; [lia | exact Hki].
      * exists n. split; [lia | exact Hk].
Qed.

Lemma flat_map_rev_length {A B : Type} (f : A -> list B) (l : list A) :
  length (flat_map f (rev l)) = length (flat_map f l).
Proof.
  induction l as [|a l IH]; [reflexivity|].
  cbn [rev flat_map]. rewrite flat_map_app, !length_app, IH.
  cbn [flat_map]. rewrite app_nil_r. lia.
Qed.

(** One button per transaction of a block. *)
Lemma block_keys_length (b : Block) :
  length (block_keys b) = length (block_txs (data b)).
Proof.
  unfold block_keys. destruct (data b) as [|txs]; [reflexivity|].
  cbn [block_txs]. rewrite length_map, length_seq. reflexivity.
Qed.

Lemma ledger_keys_length (l : list Block) :
  length (flat_map block_keys l) =
  length (concat (map (fun b => block_txs (data b)) l)).
Proof.
  induction l as [|b l IH]; [reflexivity|].
  cbn [flat_map map concat]. rewrite !length_app, IH, block_keys_length.
  reflexivity.
Qed.

Lemma case_keys_length (l : list nat) :
  length (flat_map case_keys l) = (2 * length l)%nat.
Proof.
  induction l as [|i l IH]; [reflexivity|].
  cbn [flat_map length app case_keys]. rewrite IH. lia.
Qed.

End WidgetKeys.

(** X22.  In every state that a session reaches, the keys that the script
    gives to the widgets of the ledger tab and of the rejected tab are
    pairwise different, as Streamlit requires of the keys of one run.
    There is one "Decrypt" button per transaction of the chain (none for
    the genesis block), and one button and one check box per quarantined
    case. *)
Theorem widget_keys_distinct (now : string) (clicks : list App.Click) :
  let s := App.run clicks (App.initial_session now) in
  NoDup (Tabs.widget_keys s) /\
  length (Tabs.ledger_tab_keys s) =
    length (concat (map (fun b => Backend.block_txs (Backend.data b))
                      (Backend.chain (App.bc s)))) /\
  length (Tabs.rejected_tab_keys s) =
    (2 * length (App.rejected_cases s))%nat.
Proof.
  intros s. split; [|split].
  - destruct (reachable_linked _ (run_reachable now clicks)) as [Hidx _].
    fold s in Hidx.
    destruct (ledger_keys_NoDup (Backend.chain (App.bc s))) as [Hl Hlin].
    { intros i b Hb. exact (proj1 (Hidx i b Hb)). }
    destruct (case_keys_NoDup (length (rev (App.rejected_cases s))))
      as [Hr Hrin].
    unfold Tabs.widget_keys. apply NoDup_app. split; [exact Hl|].
    split; [|exact Hr].
    intros k Hk Hk'. apply list_elem_of_In in Hk, Hk'.
    destruct (Hlin k Hk) as (i & t & _ & ->).
    destruct (Hrin _ Hk') as (j & _ & [H | [H | []]]); discriminate H.
  - unfold Tabs.ledger_tab_keys.
    rewrite flat_map_rev_length. apply ledger_keys_length.
  - unfold Tabs.rejected_tab_keys.
    rewrite case_keys_length, length_seq, length_rev. reflexivity.
Qed.

(** ** The route *)

Section RouteFacts.

Import Contract.

Lemma lt_spec (a b : Q) : lt a b = true <-> (a < b)%Q.
Proof.
  unfold lt. rewrite negb_true_iff. split.
  - intros H. apply Qnot_le_lt. intros Hle.
    apply Qle_bool_iff in Hle. congruence.
  - intros H. destruct (Qle_bool b a) eqn:E; [|reflexivity].
    apply Qle_bool_iff in E. exfalso. exact (Qlt_not_le _ _ H E).
Qed.

Lemma lt_false (a b : Q) : lt a b = false <-> (b <= a)%Q.
Proof.
  unfold lt. rewrite negb_false_iff. apply Qle_bool_iff.
Qed.

End RouteFacts.

(** X23.  The route follows the congestion: [route] returns one of its
    three names; a trip is never sent on a slower alternative than a trip
    with more congestion (whoever gets FASTEST, everyone with less
    congestion gets it too, and whoever gets ALTERNATE_2, everyone with
    more congestion gets it too); and an event without the entry is
    routed as one with congestion 0.5, on ALTERNATE_1. *)
Theorem route_follows_congestion (c c' : Q) :
  (c <= c')%Q ->
  In (Contract.route (Some c)) ["FASTEST"; "ALTERNATE_1"; "ALTERNATE_2"] /\
  (Contract.route (Some c') = "FASTEST" ->
   Contract.route (Some c) = "FASTEST") /\
  (Contract.route (Some c) = "ALTERNATE_2" ->
   Contract.route (Some c') = "ALTERNATE_2") /\
  Contract.route None = "ALTERNATE_1".
Proof.
  intros Hle. unfold Contract.route.
  destruct (Contract.lt c Contract.literal_0_4) eqn:H4;
    destruct (Contract.lt c Contract.literal_0_8) eqn:H8;
    destruct (Contract.lt c' Contract.literal_0_4) eqn:H4';
    destruct (Contract.lt c' Contract.literal_0_8) eqn:H8';
    (split; [cbn; auto|]);
    (split; [|split; [|reflexivity]]); intros H;
    try reflexivity; try discriminate H; exfalso;
    repeat match goal with
           | E : Contract.lt _ _ = true |- _ => apply lt_spec in E
           | E : Contract.lt _ _ = false |- _ => apply lt_false in E
           end.
  all: try (apply (Qlt_not_le _ _ H4'); eapply Qle_trans; eassumption).
  all: try (apply (Qlt_not_le _ _ H8'); eapply Qle_trans; eassumption).
Qed.

Lemma route_follows_congestion_witness :
  Contract.route (Some (3 # 8)) = "FASTEST" /\
  Contract.route (Some Contract.literal_0_4) = "ALTERNATE_1" /\
  Contract.route (Some (3 # 4)) = "ALTERNATE_1" /\
  Contract.route (Some Contract.literal_0_8) = "ALTERNATE_2" /\
  (Contract.route (Some Contract.literal_0_4) = "FASTEST" ->
   Contract.route (Some (3 # 8)) = "FASTEST").
Proof.
  repeat (split; [vm_compute; reflexivity|]).
  apply (route_follows_congestion (3 # 8) Contract.literal_0_4).
  vm_compute. discriminate.
Defined.

(** ** The generated dataset *)

Section DatasetFacts.

Import Dataset.
Local Open Scope string_scope.

(** The shape of a text: in the pattern, [d] stands for a digit, [A] for
    a capital letter, [a] for a small letter of ASCII, and any other
    character for itself. *)
Definition in_class (p c : ascii) : bool :=
  let n := N_of_ascii c in
  if Ascii.eqb p "d" then (48 <=? n)%N && (n <=? 57)%N
  else if Ascii.eqb p "A" then (65 <=? n)%N && (n <=? 90)%N
  else if Ascii.eqb p "a" then (97 <=? n)%N && (n <=? 122)%N
  else Ascii.eqb p c.

Fixpoint has_shape (pattern s : string) : bool :=
  match pattern, s with
  | EmptyString, EmptyString => true
  | String p pattern', String c s' => in_class p c && has_shape pattern' s'
  | _, _ => false
  end.

Lemma has_shape_append (p1 p2 s1 s2 : string) :
  has_shape p1 s1 = true -> has_shape p2 s2 = true ->
  has_shape (p1 ++ p2) (s1 ++ s2) = true.
Proof.
  revert s1. induction p1 as [|p p1 IH]; intros [|c s1] H1 H2;
    try discriminate H1; [exact H2|].
  rewrite !append_cons. cbn [has_shape] in H1 |- *.
  apply andb_prop in H1 as [Hc H1]. rewrite Hc, (IH _ H1 H2). reflexivity.
Qed.

Lemma has_shape_length (p s : string) :
  has_shape p s = true -> String.length s = String.length p.
Proof.
  revert s. induction p as [|c p IH]; intros [|x s] H; try discriminate H;
    [reflexivity|].
  cbn [has_shape] in H. apply andb_prop in H as [_ H].
  cbn [String.length]. rewrite (IH _ H). reflexivity.
Qed.

(** A check made for every integer of a range. *)
Lemma range_check (P : Z -> bool) (lo hi : Z) :
  forallb (fun k => P (lo + Z.of_nat k)%Z)
    (seq 0 (Z.to_nat (hi - lo + 1))) = true ->
  forall z, (lo <= z <= hi)%Z -> P z = true.
Proof.
  intros H z Hz. rewrite forallb_forall in H.
  specialize (H (Z.to_nat (z - lo))).
  replace (lo + Z.of_nat (Z.to_nat (z - lo)))%Z with z in H by lia.
  apply H. apply in_seq. lia.
Qed.

Lemma str_3_digits (z : Z) :
  (200 <= z <= 999)%Z -> has_shape "ddd" (str z) = true.
Proof.
  apply (range_check (fun z => has_shape "ddd" (str z)) 200 999).
  vm_compute. reflexivity.
Qed.

Lemma str_4_digits (z : Z) :
  (1000 <= z <= 9999)%Z -> has_shape "dddd" (str z) = true.
Proof.
  apply (range_check (fun z => has_shape "dddd" (str z)) 1000 9999).
  vm_compute. reflexivity.
Qed.

Lemma format_04d_digits (z : Z) :
  (0 <= z <= 9999)%Z -> has_shape "dddd" (format_04d z) = true.
Proof.
  apply (range_check (fun z => has_shape "dddd" (format_04d z)) 0 9999).
  vm_compute. reflexivity.
Qed.

Lemma existsb_eqb_In (x : string) (l : list string) :
  existsb (String.eqb x) l = true -> In x l.
Proof.
  intros H. apply existsb_exists in H as (y & Hy & E).
  apply String.eqb_eq in E. subst y. exact Hy.
Qed.

Lemma area_code_digits (st code : string) :
  existsb (fun e => String.eqb st (fst e) && existsb (String.eqb code) (snd e))
    state_areas = true ->
  has_shape "ddd" code = true.
Proof.
  intros H. apply existsb_exists in H as (e & He & H).
  apply andb_prop in H as [_ H]. apply existsb_eqb_In in H.
  assert (Hall : forallb (fun e => forallb (has_shape "ddd") (snd e))
                   state_areas = true) by (vm_compute; reflexivity).
  rewrite forallb_forall in Hall. specialize (Hall e He).
  rewrite forallb_forall in Hall. exact (Hall code H).
Qed.

End DatasetFacts.

(** X24.  Every phone number that the generator writes has the form
    [+1-ddd-ddd-dddd]: for each area code of the table, each prefix from
    200 to 999 and each line number from 0 to 9999, which is padded with
    zeros to four digits, [random_phone] returns a text of 15 characters
    of that shape, which starts with the area code drawn. *)
Theorem random_phone_shape (st code : string) (prefix line : Z) :
  Dataset.phone_draw st code prefix line = true ->
  has_shape "+1-ddd-ddd-dddd" (Dataset.random_phone code prefix line) = true /\
  String.length (Dataset.random_phone code prefix line) = 15%nat /\
  exists rest, Dataset.random_phone code prefix line =
               ("+1-" ++ code ++ rest)%string.
Proof.
  intros H. unfold Dataset.phone_draw in H.
  apply andb_prop in H as [H Hhi]. apply andb_prop in H as [H Hlo].
  apply andb_prop in H as [H Hphi]. apply andb_prop in H as [H Hplo].
  assert (Hshape : has_shape "+1-ddd-ddd-dddd"
                     (Dataset.random_phone code prefix line) = true).
  { unfold Dataset.random_phone.
    apply (has_shape_append "+1-" "ddd-ddd-dddd"); [reflexivity|].
    apply (has_shape_append "ddd" "-ddd-dddd");
      [exact (area_code_digits st code H)|].
    apply (has_shape_append "-" "ddd-dddd"); [reflexivity|].
    apply (has_shape_append "ddd" "-dddd"); [apply str_3_digits; lia|].
    apply (has_shape_append "-" "dddd"); [reflexivity|].
    apply format_04d_digits. lia. }
  split; [exact Hshape|]. split.
  - apply has_shape_length in Hshape. exact Hshape.
  - eexists. reflexivity.
Qed.

Lemma random_phone_shape_witness :
  Dataset.random_phone "917" 555 42 = "+1-917-555-0042" /\
  has_shape "+1-ddd-ddd-dddd" (Dataset.random_phone "917" 555 42) = true /\
  String.length (Dataset.random_phone "917" 555 42) = 15%nat /\
  exists rest, Dataset.random_phone "917" 555 42 =
               ("+1-" ++ "917" ++ rest)%string.
Proof.
  split; [vm_compute; reflexivity|].
  apply (random_phone_shape "NY" "917" 555 42). vm_compute. reflexivity.
Defined.

Section PlateFacts.

Import Dataset.
Local Open Scope string_scope.

Lemma lower_append (a b : string) : lower (a ++ b) = lower a ++ lower b.
Proof.
  induction a as [|c a IH]; [reflexivity|].
  rewrite append_cons. cbn [lower]. rewrite IH. reflexivity.
Qed.

Lemma remove_char_append (old : ascii) (a b : string) :
  remove_char old (a ++ b) = remove_char old a ++ remove_char old b.
Proof.
  induction a as [|c a IH]; [reflexivity|].
  rewrite append_cons. cbn [remove_char].
  destruct (Ascii.eqb c old); [exact IH|].
  rewrite append_cons, IH. reflexivity.
Qed.

(** The pattern of a text in small letters. *)
Definition lower_pattern (p : string) : string := lower p.

Lemma in_class_letter (c : ascii) :
  in_class "A" c = true ->
  Ascii.eqb c "-" = false /\ in_class "a" (lower_char c) = true.
Proof. destruct c as [[] [] [] [] [] [] [] []]; intros H;
         solve [discriminate H | split; reflexivity]. Qed.

Lemma in_class_digit (c : ascii) :
  in_class "d" c = true ->
  Ascii.eqb c "-" = false /\ lower_char c = c.
Proof. destruct c as [[] [] [] [] [] [] [] []]; intros H;
         solve [discriminate H | split; reflexivity]. Qed.

(** Capital letters hold no dash and become small letters. *)
Lemma letters_lower (n : nat) (s : string) :
  has_shape (string_of_list_ascii (repeat "A"%char n)) s = true ->
  remove_char "-" s = s /\
  has_shape (string_of_list_ascii (repeat "a"%char n)) (lower s) = true.
Proof.
  revert s. induction n as [|n IH]; intros [|c s] H; try discriminate H;
    [split; reflexivity|].
  cbn [repeat string_of_list_ascii has_shape] in H.
  apply andb_prop in H as [Hc H].
  destruct (in_class_letter c Hc) as [Hdash Hlow].
  destruct (IH s H) as [Hrem Hshape].
  cbn [remove_char lower repeat string_of_list_ascii has_shape].
  rewrite Hdash, Hrem, Hlow, Hshape. split; reflexivity.
Qed.

(** Digits hold no dash and are left as they are. *)
Lemma digits_lower (n : nat) (s : string) :
  has_shape (string_of_list_ascii (repeat "d"%char n)) s = true ->
  remove_char "-" s = s /\ lower s = s.
Proof.
  revert s. induction n as [|n IH]; intros [|c s] H; try discriminate H;
    [split; reflexivity|].
  cbn [repeat string_of_list_ascii has_shape] in H.
  apply andb_prop in H as [Hc H].
  destruct (in_class_digit c Hc) as [Hdash Hlow].
  destruct (IH s H) as [Hrem Hs].
  cbn [remove_char lower]. rewrite Hdash, Hrem, Hlow, Hs.
  split; reflexivity.
Qed.

Lemma state_shape (st : string) :
  existsb (String.eqb st) (map fst state_areas) = true ->
  has_shape "AA" st = true.
Proof.
  intros H. apply existsb_eqb_In in H.
  assert (Hall : forallb (has_shape "AA") (map fst state_areas) = true)
    by (vm_compute; reflexivity).
  rewrite forallb_forall in Hall. exact (Hall st H).
Qed.

Lemma drawn_letters_shape (letters : string) :
  (String.length letters =? 3)%nat = true ->
  forallb (fun c => existsb (Ascii.eqb c)
                      (list_ascii_of_string letters_alphabet))
    (list_ascii_of_string letters) = true ->
  has_shape "AAA" letters = true.
Proof.
  assert (Hc : forall c,
             existsb (Ascii.eqb c) (list_ascii_of_string letters_alphabet)
             = true -> in_class "A" c = true).
  { intros c. destruct c as [[] [] [] [] [] [] [] []]; intros H;
      solve [discriminate H | reflexivity]. }
  destruct letters as [|a [|b [|c [|d s]]]]; try discriminate.
  intros _ H. cbn [list_ascii_of_string forallb] in H.
  apply andb_prop in H as [Ha H]. apply andb_prop in H as [Hb H].
  apply andb_prop in H as [Hc' _].
  cbn [has_shape]. rewrite (Hc a Ha), (Hc b Hb), (Hc c Hc'). reflexivity.
Qed.

End PlateFacts.

(** X25.  Every plate that the generator writes has the form
    [AA-AAAdddd], a state of the table, a dash, three capital letters and
    a number of four digits, and the e-mail address made from it is the
    plate in small letters without the dash, nine small letters and
    digits, followed by [@] and the domain drawn. *)
Theorem random_email_of_plate (st letters : string) (numbers : Z)
    (domain : string) :
  Dataset.plate_draw st letters numbers = true ->
  let plate := fst (Dataset.random_plate st letters numbers) in
  has_shape "AA-AAAdddd" plate = true /\
  exists name,
    Dataset.random_email plate domain = (name ++ "@" ++ domain)%string /\
    name = (Dataset.lower st ++ Dataset.lower letters ++
            str numbers)%string /\
    has_shape "aaaaadddd" name = true.
Proof.
  intros H plate. subst plate. unfold Dataset.plate_draw in H.
  apply andb_prop in H as [H Hhi]. apply andb_prop in H as [H Hlo].
  apply andb_prop in H as [H Hin]. apply andb_prop in H as [H Hlen].
  pose proof (state_shape st H) as Hst.
  pose proof (drawn_letters_shape letters Hlen Hin) as Hletters.
  assert (Hnum : has_shape "dddd" (str numbers) = true)
    by (apply str_4_digits; lia).
  destruct (letters_lower 2 st Hst) as [Rst Lst].
  destruct (letters_lower 3 letters Hletters) as [Rl Ll].
  destruct (digits_lower 4 _ Hnum) as [Rn Ln].
  cbn [Dataset.random_plate fst]. split.
  - apply (has_shape_append "AA" "-AAAdddd"); [exact Hst|].
    apply (has_shape_append "-" "AAAdddd"); [reflexivity|].
    apply (has_shape_append "AAA" "dddd"); assumption.
  - eexists. split; [|split; [reflexivity|]].
    + unfold Dataset.random_email.
      rewrite !remove_char_append, Rst, Rl, Rn.
      change (Dataset.remove_char "-" "-") with EmptyString.
      change (EmptyString ++ ?x)%string with x.
      rewrite !lower_append, Ln. rewrite !append_assoc. reflexivity.
    + apply (has_shape_append "aa" "aaadddd"); [exact Lst|].
      apply (has_shape_append "aaa" "dddd"); assumption.
Qed.

Lemma random_email_of_plate_witness :
  let plate := fst (Dataset.random_plate "NY" "ABC" 1234) in
  plate = "NY-ABC1234" /\
  Dataset.random_email plate "gmail.com" = "nyabc1234@gmail.com" /\
  has_shape "AA-AAAdddd" plate = true /\
  exists name,
    Dataset.random_email plate "gmail.com" =
      (name ++ "@" ++ "gmail.com")%string /\
    name = (Dataset.lower "NY" ++ Dataset.lower "ABC" ++
            str 1234)%string /\
    has_shape "aaaaadddd" name = true.
Proof.
  split; [vm_compute; reflexivity|]. split; [vm_compute; reflexivity|].
  apply (random_email_of_plate "NY" "ABC" 1234 "gmail.com").
  vm_compute. reflexivity.
Defined.
